(** * scDDPM transformer demos: the two scripts, embedded and verified

    - [transformer/ViT/VisionTransformer_MNIST_query_key.py]: patch extraction
      ([img_to_patch]), [VisionTransformer.forward], the training loop;
    - [transformer/Demo01/predict_odd_numbers.py]: data generation, [train],
      [validation], [test], [main] and the command line.

    Tensors are row-major arrays with a shape; Python exceptions are values of
    [exn] carried by [result]; framework calls are operations of a free monad
    whose handler stands for the framework. *)

From Stdlib Require Import String Ascii DecimalString Floats Uint63.
From Stdlib Require Import List Arith Lia ZArith Bool Permutation.
Import ListNotations.
Open Scope list_scope.

Set Warnings "-register-all,-inexact-float".

(** ** Python exceptions and fallible results *)

Inductive exn : Type :=
| ZeroDivisionError
| ValueError
| IndexError
| NameError (name : string)
| AttributeError (attr : string)
| RuntimeError (msg : string)
| FrameworkError (code : nat).

Inductive result (A : Type) : Type :=
| Ok (a : A)
| Raise (e : exn).

Arguments Ok {A} a.
Arguments Raise {A} e.

Definition rbind {A B} (r : result A) (k : A -> result B) : result B :=
  match r with
  | Ok a => k a
  | Raise e => Raise e
  end.

Declare Scope result_scope.
Delimit Scope result_scope with result.
Notation "x <~ r ;; k" := (rbind r (fun x => k))
  (at level 61, r at next level, right associativity) : result_scope.
Notation "' p <~ r ;; k" := (rbind r (fun p => k))
  (at level 61, p pattern, r at next level, right associativity) : result_scope.

(** ** Tensors: a shape and the elements in row-major order *)

Module Torch.

Record Tensor (A : Type) : Type := mkTensor {
  shape : list nat;
  data : list A
}.

Arguments mkTensor {A} shape data.
Arguments shape {A} t.
Arguments data {A} t.

(** Number of elements of a shape. *)
Definition numel (s : list nat) : nat := fold_right Nat.mul 1 s.

Definition wf {A} (t : Tensor A) : Prop := length (data t) = numel (shape t).

(** Row-major flat position of a multi-index. *)
Fixpoint ravel (s idx : list nat) : nat :=
  match s, idx with
  | _ :: s', i :: idx' => i * numel s' + ravel s' idx'
  | _, _ => 0
  end.

(** A multi-index is valid for a shape when it has the shape's rank and every
    component is below its dimension. *)
Fixpoint in_bounds (s idx : list nat) : bool :=
  match s, idx with
  | [], [] => true
  | d :: s', i :: idx' => (i <? d) && in_bounds s' idx'
  | _, _ => false
  end.

(** All multi-indices of a shape, in row-major order. *)
Fixpoint indices (s : list nat) : list (list nat) :=
  match s with
  | [] => [[]]
  | d :: s' => flat_map (fun i => map (cons i) (indices s')) (seq 0 d)
  end.

(** [t[idx]]: the element at a multi-index, [None] when out of range. *)
Definition get {A} (t : Tensor A) (idx : list nat) : option A :=
  if in_bounds (shape t) idx then nth_error (data t) (ravel (shape t) idx)
  else None.

(** [t.reshape(s)] of a contiguous tensor: same elements, new shape. *)
Definition reshape {A} (t : Tensor A) (s : list nat) : result (Tensor A) :=
  if numel s =? length (data t) then Ok (mkTensor s (data t))
  else Raise (RuntimeError "shape is invalid for input size").

(** Position of [k] in [perm]. *)
Fixpoint index_of (k : nat) (perm : list nat) : nat :=
  match perm with
  | [] => 0
  | p :: perm' => if p =? k then 0 else S (index_of k perm')
  end.

(** The source index read at index [idx'] of [t.permute(perm)]: dimension [m]
    of the result is dimension [perm[m]] of the source. *)
Definition unpermute (perm idx' : list nat) : list nat :=
  map (fun k => nth (index_of k perm) idx' 0) (seq 0 (length perm)).

Definition is_perm (n : nat) (perm : list nat) : bool :=
  (length perm =? n) &&
  forallb (fun k => existsb (Nat.eqb k) perm) (seq 0 n).

(** [t.permute(perm)], materialised in row-major order of the new shape. *)
Definition permute {A} (t : Tensor A) (perm : list nat) : result (Tensor A) :=
  if is_perm (length (shape t)) perm then
    let s' := map (fun k => nth k (shape t) 0) perm in
    Ok (mkTensor s'
          match data t with
          | [] => []
          | d :: _ =>
              map (fun idx' => nth (ravel (shape t) (unpermute perm idx')) (data t) d)
                  (indices s')
          end)
  else Raise (RuntimeError "permute: dims do not match the tensor").

(** [t.flatten(a, b)]: dimensions [a..b] (inclusive) merged into one. *)
Definition flatten {A} (t : Tensor A) (a b : nat) : result (Tensor A) :=
  if (a <=? b) && (b <? length (shape t)) then
    Ok (mkTensor (firstn a (shape t)
                  ++ [numel (firstn (S b - a) (skipn a (shape t)))]
                  ++ skipn (S b) (shape t))
                 (data t))
  else Raise (IndexError).

(** [img_to_patch] (VisionTransformer_MNIST_query_key.py, lines 86-104).
    [H // patch_size] raises ZeroDivisionError for a zero patch size. *)
Definition img_to_patch {A} (x : Tensor A) (patch_size : nat)
    (flatten_channels : bool) : result (Tensor A) :=
  match shape x with
  | [B; C; H; W] =>
      if patch_size =? 0 then Raise ZeroDivisionError else
      (x <~ reshape x [B; C; H / patch_size; patch_size; W / patch_size; patch_size] ;;
       x <~ permute x [0; 2; 4; 1; 3; 5] ;;
       x <~ flatten x 1 2 ;;
       if flatten_channels then flatten x 2 4 else Ok x)%result
  | _ => Raise ValueError
  end.

(** *** Facts about row-major indexing *)

Lemma flat_map_length_const {A B} (f : A -> list B) (l : list A) (m : nat) :
  (forall x, length (f x) = m) -> length (flat_map f l) = length l * m.
Proof.
  intros Hf. induction l as [| a l IH]; simpl; [reflexivity|].
  rewrite length_app, IH, Hf. reflexivity.
Qed.

Lemma nth_flat_map_const {A B} (f : A -> list B) (m : nat) (l : list A)
    (i r : nat) (d : B) (da : A) :
  (forall x, length (f x) = m) -> i < length l -> r < m ->
  nth (i * m + r) (flat_map f l) d = nth r (f (nth i l da)) d.
Proof.
  intros Hf. revert i. induction l as [| a l IH]; intros i Hi Hr; simpl in *.
  - lia.
  - destruct i as [| i].
    + simpl. apply app_nth1. rewrite Hf. exact Hr.
    + rewrite app_nth2 by (rewrite Hf; simpl; lia).
      rewrite Hf. replace (S i * m + r - m) with (i * m + r) by (simpl; lia).
      apply IH; [lia | exact Hr].
Qed.

Lemma length_indices (s : list nat) : length (indices s) = numel s.
Proof.
  induction s as [| d s IH]; simpl; [reflexivity|].
  rewrite flat_map_length_const with (m := numel s).
  - rewrite length_seq. reflexivity.
  - intros x. rewrite length_map. exact IH.
Qed.

Lemma in_bounds_cons (d : nat) (s : list nat) (i : nat) (idx : list nat) :
  in_bounds (d :: s) (i :: idx) = true <-> i < d /\ in_bounds s idx = true.
Proof.
  simpl. rewrite andb_true_iff, Nat.ltb_lt. reflexivity.
Qed.

Lemma ravel_lt (s idx : list nat) :
  in_bounds s idx = true -> ravel s idx < numel s.
Proof.
  revert idx. induction s as [| d s IH]; intros [| i idx] H; simpl in H;
    try discriminate.
  - simpl. lia.
  - apply andb_true_iff in H. destruct H as [Hi H]. apply Nat.ltb_lt in Hi.
    specialize (IH _ H). simpl. nia.
Qed.

Lemma nth_indices (s idx d : list nat) :
  in_bounds s idx = true -> nth (ravel s idx) (indices s) d = idx.
Proof.
  revert idx. induction s as [| n s IH]; intros [| i idx] H; simpl in H;
    try discriminate.
  - reflexivity.
  - apply andb_true_iff in H. destruct H as [Hi H]. apply Nat.ltb_lt in Hi.
    simpl.
    rewrite nth_flat_map_const with (m := numel s) (da := 0).
    + rewrite seq_nth by exact Hi. simpl.
      rewrite nth_indep with (d' := i :: d)
        by (rewrite length_map, length_indices; apply ravel_lt; exact H).
      rewrite (map_nth (cons i)). rewrite IH by exact H. reflexivity.
    + intros x. rewrite length_map. apply length_indices.
    + rewrite length_seq. exact Hi.
    + apply ravel_lt. exact H.
Qed.

Lemma in_indices (s idx : list nat) :
  In idx (indices s) <-> in_bounds s idx = true.
Proof.
  revert idx. induction s as [| d s IH]; intros idx; simpl.
  - destruct idx; split; intros H; try discriminate; auto.
    destruct H as [H | []]. discriminate.
  - rewrite in_flat_map. split.
    + intros [i [Hi Hin]]. apply in_map_iff in Hin.
      destruct Hin as [idx' [<- Hin]]. apply in_seq in Hi.
      apply andb_true_iff. split; [apply Nat.ltb_lt; lia | apply IH; exact Hin].
    + destruct idx as [| i idx]; [discriminate|]. intros H.
      apply andb_true_iff in H. destruct H as [Hi H]. apply Nat.ltb_lt in Hi.
      exists i. split; [apply in_seq; lia|].
      apply in_map. apply IH. exact H.
Qed.

Lemma ravel_inj (s idx1 idx2 : list nat) :
  in_bounds s idx1 = true -> in_bounds s idx2 = true ->
  ravel s idx1 = ravel s idx2 -> idx1 = idx2.
Proof.
  revert idx1 idx2.
  induction s as [| d s IH]; intros [| i1 idx1] [| i2 idx2] H1 H2 E;
    simpl in H1, H2; try discriminate; [reflexivity|].
  apply andb_true_iff in H1. destruct H1 as [_ H1].
  apply andb_true_iff in H2. destruct H2 as [_ H2].
  pose proof (ravel_lt _ _ H1) as L1. pose proof (ravel_lt _ _ H2) as L2.
  simpl in E.
  assert (i1 = i2) by nia. subst i2.
  f_equal. apply IH; [exact H1 | exact H2 | lia].
Qed.

Lemma NoDup_flat_map {A B} (f : A -> list B) (l : list A) :
  NoDup l -> (forall x, In x l -> NoDup (f x)) ->
  (forall x y b, In x l -> In y l -> In b (f x) -> In b (f y) -> x = y) ->
  NoDup (flat_map f l).
Proof.
  induction 1 as [| a l Ha Hl IH]; intros Hf Hd; simpl; [constructor|].
  apply NoDup_app.
  - apply Hf. left. reflexivity.
  - apply IH.
    + intros x Hx. apply Hf. right. exact Hx.
    + intros x y b Hx Hy. apply Hd; right; assumption.
  - intros b Hb Hb'. apply in_flat_map in Hb'. destruct Hb' as [y [Hy Hby]].
    assert (a = y) by (apply (Hd a y b); simpl; auto).
    subst y. contradiction.
Qed.

Lemma NoDup_indices (s : list nat) : NoDup (indices s).
Proof.
  induction s as [| d s IH]; simpl.
  - constructor; [intros [] | constructor].
  - apply NoDup_flat_map.
    + apply seq_NoDup.
    + intros x _. apply NoDup_map_NoDup_ForallPairs; [| exact IH].
      intros a b _ _ E. congruence.
    + intros x y b _ _ Hx Hy.
      apply in_map_iff in Hx. destruct Hx as [u [<- _]].
      apply in_map_iff in Hy. destruct Hy as [v [E _]]. congruence.
Qed.

(** *** [img_to_patch] *)

(** The flat positions of the source read by [img_to_patch], in output order. *)
Definition patch_positions (B C hp wp p : nat) : list nat :=
  map (fun idx' => ravel [B; C; hp; p; wp; p] (unpermute [0; 2; 4; 1; 3; 5] idx'))
      (indices [B; hp; wp; C; p; p]).

Lemma get_same_position {A} (t t' : Tensor A) (idx idx' : list nat) :
  data t' = data t ->
  in_bounds (shape t') idx' = true -> in_bounds (shape t) idx = true ->
  ravel (shape t') idx' = ravel (shape t) idx ->
  get t' idx' = get t idx.
Proof.
  intros Hd H' H E. unfold get. rewrite H', H, Hd, E. reflexivity.
Qed.

Lemma img_to_patch_eval {A} (x : Tensor A) (B C hp wp p : nat) (fc : bool) :
  shape x = [B; C; hp * p; wp * p] -> wf x -> 0 < p ->
  img_to_patch x p fc =
  Ok (mkTensor (if fc then [B; hp * wp; C * p * p] else [B; hp * wp; C; p; p])
        match data x with
        | [] => []
        | d :: _ => map (fun k => nth k (data x) d) (patch_positions B C hp wp p)
        end).
Proof.
  intros Hs Hwf Hp. unfold img_to_patch. rewrite Hs.
  destruct (p =? 0) eqn:E; [apply Nat.eqb_eq in E; lia|].
  rewrite !Nat.div_mul by lia.
  assert (En : numel [B; C; hp; p; wp; p] = length (data x)).
  { rewrite Hwf, Hs. simpl. ring. }
  unfold reshape. rewrite En, Nat.eqb_refl.
  unfold rbind at 1. unfold permute.
  cbn [shape data length is_perm seq forallb existsb Nat.eqb andb orb map nth].
  unfold rbind at 1. unfold flatten.
  cbn [shape data length Nat.leb Nat.ltb andb firstn skipn app Nat.sub].
  unfold rbind at 1.
  assert (Ed : match data x with
               | [] => []
               | d :: _ =>
                   map (fun idx' => nth (ravel [B; C; hp; p; wp; p]
                                           (unpermute [0; 2; 4; 1; 3; 5] idx'))
                                        (data x) d)
                       (indices [B; hp; wp; C; p; p])
               end =
               match data x with
               | [] => []
               | d :: _ => map (fun k => nth k (data x) d)
                             (patch_positions B C hp wp p)
               end).
  { destruct (data x); [reflexivity|]. unfold patch_positions.
    rewrite map_map. reflexivity. }
  destruct fc.
  - cbn [shape data length Nat.leb Nat.ltb andb firstn skipn app Nat.sub].
    rewrite Ed. f_equal. f_equal. simpl.
    replace (hp * (wp * 1)) with (hp * wp) by lia.
    replace (C * (p * (p * 1))) with (C * p * p) by lia. reflexivity.
  - rewrite Ed. f_equal. f_equal. simpl.
    replace (hp * (wp * 1)) with (hp * wp) by lia. reflexivity.
Qed.

Lemma in_bounds_cons_inv (d : nat) (s idx : list nat) :
  in_bounds (d :: s) idx = true ->
  exists i idx', idx = i :: idx' /\ i < d /\ in_bounds s idx' = true.
Proof.
  destruct idx as [| i idx']; [discriminate|]. intros H.
  apply in_bounds_cons in H. exists i, idx'. tauto.
Qed.

Lemma in_bounds_nil_inv (idx : list nat) : in_bounds [] idx = true -> idx = [].
Proof. destruct idx; [reflexivity | discriminate]. Qed.

Lemma in_bounds6 (a1 a2 a3 a4 a5 a6 : nat) (idx : list nat) :
  in_bounds [a1; a2; a3; a4; a5; a6] idx = true ->
  exists i1 i2 i3 i4 i5 i6,
    idx = [i1; i2; i3; i4; i5; i6] /\
    i1 < a1 /\ i2 < a2 /\ i3 < a3 /\ i4 < a4 /\ i5 < a5 /\ i6 < a6.
Proof.
  intros H.
  apply in_bounds_cons_inv in H. destruct H as (i1 & r1 & -> & L1 & H).
  apply in_bounds_cons_inv in H. destruct H as (i2 & r2 & -> & L2 & H).
  apply in_bounds_cons_inv in H. destruct H as (i3 & r3 & -> & L3 & H).
  apply in_bounds_cons_inv in H. destruct H as (i4 & r4 & -> & L4 & H).
  apply in_bounds_cons_inv in H. destruct H as (i5 & r5 & -> & L5 & H).
  apply in_bounds_cons_inv in H. destruct H as (i6 & r6 & -> & L6 & H).
  apply in_bounds_nil_inv in H. subst r6.
  exists i1, i2, i3, i4, i5, i6. repeat split; assumption.
Qed.

Lemma in_bounds6_intro (a1 a2 a3 a4 a5 a6 i1 i2 i3 i4 i5 i6 : nat) :
  i1 < a1 -> i2 < a2 -> i3 < a3 -> i4 < a4 -> i5 < a5 -> i6 < a6 ->
  in_bounds [a1; a2; a3; a4; a5; a6] [i1; i2; i3; i4; i5; i6] = true.
Proof.
  intros. simpl.
  repeat (apply andb_true_iff; split); try reflexivity; apply Nat.ltb_lt; assumption.
Qed.

Lemma patch_positions_length (B C hp wp p : nat) :
  length (patch_positions B C hp wp p) = numel [B; hp; wp; C; p; p].
Proof.
  unfold patch_positions. rewrite length_map. apply length_indices.
Qed.

Lemma patch_positions_nth (B C hp wp p b h' w' c i j : nat) :
  b < B -> h' < hp -> w' < wp -> c < C -> i < p -> j < p ->
  nth_error (patch_positions B C hp wp p)
            (ravel [B; hp; wp; C; p; p] [b; h'; w'; c; i; j]) =
  Some (ravel [B; C; hp; p; wp; p] [b; c; h'; i; w'; j]).
Proof.
  intros Hb Hh Hw Hc Hi Hj.
  assert (IB : in_bounds [B; hp; wp; C; p; p] [b; h'; w'; c; i; j] = true)
    by (apply in_bounds6_intro; assumption).
  unfold patch_positions. rewrite nth_error_map.
  rewrite nth_error_nth' with (d := [])
    by (rewrite length_indices; apply ravel_lt; exact IB).
  rewrite nth_indices by exact IB. reflexivity.
Qed.

Lemma patch_positions_perm (B C hp wp p : nat) :
  Permutation (patch_positions B C hp wp p) (seq 0 (numel [B; C; hp * p; wp * p])).
Proof.
  assert (En : numel [B; C; hp * p; wp * p] = numel [B; hp; wp; C; p; p])
    by (simpl; ring).
  assert (En' : numel [B; C; hp * p; wp * p] = numel [B; C; hp; p; wp; p])
    by (simpl; ring).
  apply NoDup_Permutation_bis.
  - unfold patch_positions.
    apply NoDup_map_NoDup_ForallPairs; [| apply NoDup_indices].
    intros u v Hu Hv E. apply in_indices in Hu. apply in_indices in Hv.
    apply in_bounds6 in Hu. apply in_bounds6 in Hv.
    destruct Hu as (u1 & u2 & u3 & u4 & u5 & u6 & -> & ? & ? & ? & ? & ? & ?).
    destruct Hv as (v1 & v2 & v3 & v4 & v5 & v6 & -> & ? & ? & ? & ? & ? & ?).
    cbn [unpermute length seq map index_of Nat.eqb nth] in E.
    apply ravel_inj in E; try (apply in_bounds6_intro; assumption).
    congruence.
  - rewrite length_seq, patch_positions_length, En. apply le_n.
  - intros k Hk. unfold patch_positions in Hk. apply in_map_iff in Hk.
    destruct Hk as [u [<- Hu]]. apply in_indices in Hu. apply in_bounds6 in Hu.
    destruct Hu as (u1 & u2 & u3 & u4 & u5 & u6 & -> & ? & ? & ? & ? & ? & ?).
    cbn [unpermute length seq map index_of Nat.eqb nth].
    apply in_seq. split; [lia|]. rewrite En'. simpl plus.
    apply ravel_lt. apply in_bounds6_intro; assumption.
Qed.

(** C1. For an input of shape [B, C, H, W] whose height and width are multiples
    of the (positive) patch size, [img_to_patch] succeeds and only re-lays the
    pixels out: with [flatten_channels=True] the result has shape
    [B, (H/p)*(W/p), C*p*p] and element [b, h'*(W/p)+w', c*p*p + i*p + j] is
    [x[b, c, h'*p+i, w'*p+j]]; with [flatten_channels=False] the shape is
    [B, (H/p)*(W/p), C, p, p] with the same correspondence; and the output
    elements are the input elements read through a permutation of the flat
    positions, so every pixel occurs exactly once. *)
Theorem img_to_patch_relayout {A} (x : Tensor A) (B C H W p : nat) :
  shape x = [B; C; H; W] -> wf x -> 0 < p -> H mod p = 0 -> W mod p = 0 ->
  exists yt yf,
    img_to_patch x p true = Ok yt /\ img_to_patch x p false = Ok yf /\
    shape yt = [B; (H / p) * (W / p); C * p * p] /\ wf yt /\
    shape yf = [B; (H / p) * (W / p); C; p; p] /\ wf yf /\
    (forall b h' w' c i j,
        b < B -> h' < H / p -> w' < W / p -> c < C -> i < p -> j < p ->
        exists v,
          get x [b; c; h' * p + i; w' * p + j] = Some v /\
          get yt [b; h' * (W / p) + w'; c * p * p + i * p + j] = Some v /\
          get yf [b; h' * (W / p) + w'; c; i; j] = Some v) /\
    exists sigma,
      Permutation sigma (seq 0 (length (data x))) /\
      map Some (data yt) = map (nth_error (data x)) sigma /\
      data yf = data yt.
Proof.
  intros Hs Hwf Hp HH HW.
  set (hp := H / p). set (wp := W / p).
  assert (EH : H = hp * p).
  { unfold hp. pose proof (Nat.div_mod_eq H p). lia. }
  assert (EW : W = wp * p).
  { unfold wp. pose proof (Nat.div_mod_eq W p). lia. }
  clearbody hp wp. subst H W.
  pose proof (img_to_patch_eval x B C hp wp p true Hs Hwf Hp) as Et.
  pose proof (img_to_patch_eval x B C hp wp p false Hs Hwf Hp) as Ef.
  cbv iota in Et, Ef.
  pose proof (patch_positions_perm B C hp wp p) as Hperm.
  pose proof (patch_positions_length B C hp wp p) as Hlen.
  assert (EN : numel [B; hp; wp; C; p; p] = length (data x))
    by (rewrite Hwf, Hs; simpl; ring).
  assert (ED : length match data x with
                      | [] => []
                      | d :: _ => map (fun k => nth k (data x) d)
                                    (patch_positions B C hp wp p)
                      end = length (data x)).
  { destruct (data x) eqn:Ex; [reflexivity|].
    rewrite length_map, Hlen, EN. reflexivity. }
  eexists. eexists.
  split; [exact Et|]. split; [exact Ef|].
  cbn [shape data].
  split; [reflexivity|].
  split; [unfold wf; cbn [shape data]; rewrite ED, <- EN; simpl; ring|].
  split; [reflexivity|].
  split; [unfold wf; cbn [shape data]; rewrite ED, <- EN; simpl; ring|].
  split.
  - intros b h' w' c i j Hb Hh Hw Hc Hi Hj.
    assert (IBx : in_bounds [B; C; hp * p; wp * p]
                    [b; c; h' * p + i; w' * p + j] = true).
    { simpl. repeat (apply andb_true_iff; split); try reflexivity;
        apply Nat.ltb_lt; nia. }
    pose proof (ravel_lt _ _ IBx) as Lx. rewrite <- Hs, <- Hwf in Lx.
    destruct (nth_error (data x) (ravel (shape x) [b; c; h' * p + i; w' * p + j]))
      as [v|] eqn:Ev; [| apply nth_error_None in Ev; lia].
    exists v.
    assert (Gx : get x [b; c; h' * p + i; w' * p + j] = Some v).
    { unfold get. rewrite Hs, IBx, <- Hs. exact Ev. }
    split; [exact Gx|].
    assert (Epos : ravel (shape x) [b; c; h' * p + i; w' * p + j] =
                   ravel [B; C; hp; p; wp; p] [b; c; h'; i; w'; j])
      by (rewrite Hs; simpl; ring).
    pose proof (patch_positions_nth B C hp wp p b h' w' c i j Hb Hh Hw Hc Hi Hj) as Hn.
    assert (Gd : nth_error match data x with
                           | [] => []
                           | d :: _ => map (fun k => nth k (data x) d)
                                         (patch_positions B C hp wp p)
                           end
                   (ravel [B; hp; wp; C; p; p] [b; h'; w'; c; i; j]) = Some v).
    { destruct (data x) as [| d l] eqn:Ex; [destruct (ravel _ _); discriminate Ev|].
      rewrite nth_error_map, Hn. cbn [option_map]. f_equal.
      rewrite <- Epos. apply nth_error_nth. exact Ev. }
    split.
    + unfold get. cbn [shape data].
      assert (IB : in_bounds [B; hp * wp; C * p * p]
                     [b; h' * wp + w'; c * p * p + i * p + j] = true).
      { simpl. repeat (apply andb_true_iff; split); try reflexivity;
          apply Nat.ltb_lt; nia. }
      rewrite IB. rewrite <- Gd. f_equal. simpl. ring.
    + unfold get. cbn [shape data].
      assert (IB : in_bounds [B; hp * wp; C; p; p]
                     [b; h' * wp + w'; c; i; j] = true).
      { simpl. repeat (apply andb_true_iff; split); try reflexivity;
          apply Nat.ltb_lt; nia. }
      rewrite IB. rewrite <- Gd. f_equal. simpl. ring.
  - exists (patch_positions B C hp wp p).
    split; [rewrite Hwf, Hs; exact Hperm|].
    split; [| reflexivity].
    cbn [data]. destruct (data x) as [| d l] eqn:Ex.
    + assert (E0 : patch_positions B C hp wp p = []).
      { apply length_zero_iff_nil. rewrite Hlen, EN. reflexivity. }
      rewrite E0. reflexivity.
    + rewrite map_map. apply map_ext_in. intros k Hk.
      symmetry. apply nth_error_nth'.
      apply (Permutation_in _ Hperm) in Hk. apply in_seq in Hk.
      rewrite <- Hs, <- Hwf, Ex in Hk. lia.
Qed.

Lemma img_to_patch_relayout_witness :
  let x := mkTensor [1; 1; 2; 4] [10; 11; 12; 13; 14; 15; 16; 17] in
  exists yt yf,
    img_to_patch x 2 true = Ok yt /\ img_to_patch x 2 false = Ok yf /\
    shape yt = [1; (2 / 2) * (4 / 2); 1 * 2 * 2] /\ wf yt /\
    shape yf = [1; (2 / 2) * (4 / 2); 1; 2; 2] /\ wf yf /\
    (forall b h' w' c i j,
        b < 1 -> h' < 2 / 2 -> w' < 4 / 2 -> c < 1 -> i < 2 -> j < 2 ->
        exists v,
          get x [b; c; h' * 2 + i; w' * 2 + j] = Some v /\
          get yt [b; h' * (4 / 2) + w'; c * 2 * 2 + i * 2 + j] = Some v /\
          get yf [b; h' * (4 / 2) + w'; c; i; j] = Some v) /\
    exists sigma,
      Permutation sigma (seq 0 (length (data x))) /\
      map Some (data yt) = map (nth_error (data x)) sigma /\
      data yf = data yt.
Proof.
  apply (@img_to_patch_relayout nat
           (mkTensor [1; 1; 2; 4] [10; 11; 12; 13; 14; 15; 16; 17]) 1 1 2 4 2);
    [reflexivity | reflexivity | lia | reflexivity | reflexivity].
Defined.

(** The patches of a 2x4 single-channel image, computed. *)
Example img_to_patch_2x4 :
  img_to_patch (mkTensor [1; 1; 2; 4] [10; 11; 12; 13; 14; 15; 16; 17]) 2 true
  = Ok (mkTensor [1; 2; 4] [10; 11; 14; 15; 12; 13; 16; 17]).
Proof. reflexivity. Qed.

(** A zero patch size raises ZeroDivisionError; a height that is not a multiple
    of the patch size makes [reshape] fail. *)
Example img_to_patch_zero_patch :
  img_to_patch (mkTensor [1; 1; 2; 2] [1; 2; 3; 4]) 0 true = Raise ZeroDivisionError.
Proof. reflexivity. Qed.

Example img_to_patch_not_divisible :
  img_to_patch (mkTensor [1; 1; 3; 2] [1; 2; 3; 4; 5; 6]) 2 true
  = Raise (RuntimeError "shape is invalid for input size").
Proof. reflexivity. Qed.

End Torch.

(** ** [AttentionBlock] and [VisionTransformer]
    (VisionTransformer_MNIST_query_key.py, lines 123-214)

    After the input layer the trailing (embedding) dimension lives inside the
    vector type [E]; a [B, T, embed_dim] tensor is a list of [B] rows of [T]
    vectors.  The framework's layers are fields of the model records. *)

Module ViT.
Import Torch.

Section Model.

Variables (A E S : Type).
(** Elementwise sum of two embedding vectors. *)
Variable vadd : E -> E -> E.

Definition Seq2 : Type := list (list E).

(** [rect n k x]: [x] has [n] rows of [k] vectors. *)
Definition rect {X} (n k : nat) (x : list (list X)) : Prop :=
  length x = n /\ Forall (fun row => length row = k) x.

Definition same_shape (x y : Seq2) : bool :=
  (length x =? length y) &&
  forallb (fun '(r, r') => length r =? length r') (combine x y).

(** [x + y] for tensors of one shape (no broadcasting arises in the model). *)
Definition tadd (x y : Seq2) : result Seq2 :=
  if same_shape x y
  then Ok (map (fun '(r, r') => map (fun '(a, b) => vadd a b) (combine r r'))
               (combine x y))
  else Raise (RuntimeError "size mismatch").

Record AttentionBlock : Type := mkAttentionBlock {
  layer_norm_1 : E -> E;
  (** first component of [nn.MultiheadAttention(query, key, value)] *)
  attn : Seq2 -> Seq2 -> Seq2 -> Seq2;
  layer_norm_2 : E -> E;
  (** the feed-forward [nn.Sequential] (with its dropouts) *)
  linear : Seq2 -> Seq2
}.

(** [AttentionBlock.forward] (lines 146-150). *)
Definition block_forward (blk : AttentionBlock) (x : Seq2) : result Seq2 :=
  let inp_x := map (map (layer_norm_1 blk)) x in
  (x <~ tadd x (attn blk inp_x inp_x inp_x) ;;
   x <~ tadd x (linear blk (map (map (layer_norm_2 blk)) x)) ;;
   Ok x)%result.

Record VisionTransformer : Type := mkVisionTransformer {
  patch_size : nat;
  (** [nn.Linear(num_channels * patch_size**2, embed_dim)] *)
  in_features : nat;
  input_layer : list A -> E;
  (** the [nn.Sequential] of attention blocks *)
  transformer : list AttentionBlock;
  (** [nn.Sequential(nn.LayerNorm, nn.Linear(embed_dim, num_classes))] *)
  mlp_head : E -> list S;
  dropout : Seq2 -> Seq2;
  cls_token : E;
  (** [1 + num_patches] position vectors *)
  pos_embedding : list E
}.

(** [nn.Sequential.forward]: the blocks in order. *)
Fixpoint sequential (blocks : list AttentionBlock) (x : Seq2) : result Seq2 :=
  match blocks with
  | [] => Ok x
  | blk :: rest => (x <~ block_forward blk x ;; sequential rest x)%result
  end.

(** The feature vector of patch [t] of image [b] in a [B, T, F] tensor. *)
Definition patch_at (x : Tensor A) (T F b t : nat) : list A :=
  firstn F (skipn ((b * T + t) * F) (data x)).

(** [self.input_layer(x)] on a [B, T, F] tensor: the linear layer applied to
    every patch; it rejects a trailing dimension other than [in_features]. *)
Definition apply_input_layer (m : VisionTransformer) (x : Tensor A)
    (B T F : nat) : result Seq2 :=
  if F =? in_features m
  then Ok (map (fun b => map (fun t => input_layer m (patch_at x T F b t)) (seq 0 T))
               (seq 0 B))
  else Raise (RuntimeError "mat1 and mat2 shapes cannot be multiplied").

(** [torch.cat([c, x], dim=1)]. *)
Definition cat_dim1 (c x : Seq2) : result Seq2 :=
  if length c =? length x
  then Ok (map (fun '(r, r') => r ++ r') (combine c x))
  else Raise (RuntimeError "sizes of tensors must match except in dimension 1").

(** [x + pos] where [pos] has shape [1, L, embed_dim] and [x] has [n]
    positions: the batch dimension broadcasts, and so does a single position. *)
Definition add_positions (n : nat) (x : Seq2) (pos : list E) : result Seq2 :=
  if length pos =? n
  then Ok (map (fun row => map (fun '(a, b) => vadd a b) (combine row pos)) x)
  else match pos with
       | [p0] => Ok (map (map (fun a => vadd a p0)) x)
       | _ => Raise (RuntimeError "size mismatch")
       end.

(** [x.transpose(0, 1)] of a tensor with [n] positions per row. *)
Definition transpose01 (n : nat) (x : Seq2) : Seq2 :=
  map (fun t => flat_map (fun row => match nth_error row t with
                                     | Some e => [e]
                                     | None => []
                                     end) x)
      (seq 0 n).

(** Lines 197-204 of [VisionTransformer.forward]: patches, input layer, class
    token and positional embedding.  Returns [T] with the token sequence. *)
Definition tokens (m : VisionTransformer) (x : Tensor A) : result (nat * Seq2) :=
  (x <~ img_to_patch x (patch_size m) true ;;
   match shape x with
   | [B; T; F] =>
       x <~ apply_input_layer m x B T F ;;
       let cls := repeat [cls_token m] B in
       x <~ cat_dim1 cls x ;;
       x <~ add_positions (T + 1) x (firstn (T + 1) (pos_embedding m)) ;;
       Ok (T, x)
   | _ => Raise ValueError
   end)%result.

(** Lines 207-209: dropout, transpose, the transformer blocks. *)
Definition encode (m : VisionTransformer) (T : nat) (x : Seq2) : result Seq2 :=
  let x := dropout m x in
  let x := transpose01 (T + 1) x in
  sequential (transformer m) x.

(** [VisionTransformer.forward] (lines 195-214). *)
Definition forward (m : VisionTransformer) (x : Tensor A)
  : result (list (list S)) :=
  ('(T, x) <~ tokens m x ;;
   x <~ encode m T x ;;
   match x with
   | cls :: _ => Ok (map (mlp_head m) cls)
   | [] => Raise IndexError
   end)%result.

(** *** Shapes through the layers *)

(** What the framework guarantees of the layers: attention returns the shape
    of its query, the feed-forward stack and dropout keep the shape, the head
    produces [num_classes] logits, and there are [1 + num_patches] positions. *)
Definition shape_preserving (f : Seq2 -> Seq2) : Prop :=
  forall n k x, rect n k x -> rect n k (f x).

Definition block_ok (blk : AttentionBlock) : Prop :=
  (forall n k q key v, rect n k q -> rect n k (attn blk q key v)) /\
  shape_preserving (linear blk).

Definition model_ok (m : VisionTransformer) (num_patches num_classes : nat) : Prop :=
  Forall block_ok (transformer m) /\
  shape_preserving (dropout m) /\
  (forall e, length (mlp_head m e) = num_classes) /\
  length (pos_embedding m) = 1 + num_patches.

Lemma rect_map {X Y} (f : X -> Y) (n k : nat) (x : list (list X)) :
  rect n k x -> rect n k (map (map f) x).
Proof.
  intros [Hn Hk]. split; [rewrite length_map; exact Hn|].
  apply Forall_map. eapply Forall_impl; [| exact Hk].
  intros row Hr. simpl. rewrite length_map. exact Hr.
Qed.

Lemma same_shape_rect (n k : nat) (x y : Seq2) :
  rect n k x -> rect n k y -> same_shape x y = true.
Proof.
  intros [Hx Fx] [Hy Fy]. unfold same_shape.
  rewrite Hx, Hy, Nat.eqb_refl. simpl.
  apply forallb_forall. intros [r r'] Hin.
  pose proof (in_combine_l _ _ _ _ Hin) as Hl.
  pose proof (in_combine_r _ _ _ _ Hin) as Hr.
  rewrite Forall_forall in Fx, Fy.
  rewrite (Fx _ Hl), (Fy _ Hr). apply Nat.eqb_refl.
Qed.

Lemma tadd_rect (n k : nat) (x y : Seq2) :
  rect n k x -> rect n k y -> exists z, tadd x y = Ok z /\ rect n k z.
Proof.
  intros Hx Hy. unfold tadd. rewrite (same_shape_rect n k x y Hx Hy).
  eexists. split; [reflexivity|].
  destruct Hx as [Hx Fx], Hy as [Hy Fy]. split.
  - rewrite length_map, length_combine, Hx, Hy. apply Nat.min_id.
  - apply Forall_map. apply Forall_forall. intros [r r'] Hin.
    pose proof (in_combine_l _ _ _ _ Hin) as Hl.
    pose proof (in_combine_r _ _ _ _ Hin) as Hr.
    rewrite Forall_forall in Fx, Fy.
    rewrite length_map, length_combine, (Fx _ Hl), (Fy _ Hr). apply Nat.min_id.
Qed.

Lemma block_forward_rect (blk : AttentionBlock) (n k : nat) (x : Seq2) :
  block_ok blk -> rect n k x ->
  exists y, block_forward blk x = Ok y /\ rect n k y.
Proof.
  intros [Hattn Hlin] Hx. unfold block_forward.
  destruct (tadd_rect n k x
              (attn blk (map (map (layer_norm_1 blk)) x)
                        (map (map (layer_norm_1 blk)) x)
                        (map (map (layer_norm_1 blk)) x)) Hx) as [x1 [E1 R1]].
  { apply Hattn. apply rect_map. exact Hx. }
  rewrite E1. cbn [rbind].
  destruct (tadd_rect n k x1 (linear blk (map (map (layer_norm_2 blk)) x1)) R1)
    as [x2 [E2 R2]].
  { apply Hlin. apply rect_map. exact R1. }
  rewrite E2. cbn [rbind]. exists x2. split; [reflexivity | exact R2].
Qed.

Lemma sequential_rect (blocks : list AttentionBlock) (n k : nat) (x : Seq2) :
  Forall block_ok blocks -> rect n k x ->
  exists y, sequential blocks x = Ok y /\ rect n k y.
Proof.
  intros Hb. revert x. induction Hb as [| blk rest Hblk _ IH]; intros x Hx; simpl.
  - exists x. split; [reflexivity | exact Hx].
  - destruct (block_forward_rect blk n k x Hblk Hx) as [y [Ey R]].
    rewrite Ey. cbn [rbind]. apply IH. exact R.
Qed.

Lemma transpose01_rect (n k : nat) (x : Seq2) :
  rect n k x -> rect k n (transpose01 k x).
Proof.
  intros [Hn Fk]. unfold transpose01. split.
  - rewrite length_map, length_seq. reflexivity.
  - apply Forall_map. apply Forall_forall. intros t Ht. apply in_seq in Ht.
    subst n. clear - Fk Ht. induction Fk as [| row x Hrow _ IH]; simpl.
    + reflexivity.
    + rewrite length_app, IH.
      destruct (nth_error row t) eqn:En; [reflexivity|].
      apply nth_error_None in En. lia.
Qed.

Lemma map_combine_repeat {X Y Z} (g : X * Y -> Z) (c : X) (l : list Y) :
  map g (combine (repeat c (length l)) l) = map (fun y => g (c, y)) l.
Proof.
  induction l as [| y l IH]; simpl; [reflexivity|]. rewrite IH. reflexivity.
Qed.

Lemma combine_firstn_r {X Y} (l : list X) (l' : list Y) :
  combine l (firstn (length l) l') = combine l l'.
Proof.
  revert l'. induction l as [| a l IH]; intros [| b l']; simpl; try reflexivity.
  rewrite IH. reflexivity.
Qed.

(** C4. For an image batch [B, C, H, W] that the model accepts (positive patch
    size dividing [H] and [W], [C*p*p] input features, at most [num_patches]
    patches), [forward] prepends exactly one class token to the [T] embedded
    patches of every image (sequence length [T + 1]), adds the positional
    embedding position by position, runs the blocks on the transposed
    sequence, and applies the MLP head to position 0 only; the result has
    shape [B, num_classes]. *)
Theorem forward_class_token (m : VisionTransformer) (num_patches num_classes : nat)
    (x : Tensor A) (B C H W : nat) :
  model_ok m num_patches num_classes ->
  shape x = [B; C; H; W] -> wf x ->
  0 < patch_size m -> H mod patch_size m = 0 -> W mod patch_size m = 0 ->
  C * patch_size m * patch_size m = in_features m ->
  (H / patch_size m) * (W / patch_size m) <= num_patches ->
  let T := (H / patch_size m) * (W / patch_size m) in
  exists x1 toks feats out,
    img_to_patch x (patch_size m) true = Ok x1 /\
    tokens m x = Ok (T, toks) /\
    rect B (T + 1) toks /\
    toks = map (fun b =>
                  map (fun '(a, q) => vadd a q)
                      (combine (cls_token m ::
                                map (fun t => input_layer m
                                                (patch_at x1 T (in_features m) b t))
                                    (seq 0 T))
                               (pos_embedding m)))
               (seq 0 B) /\
    encode m T toks = Ok feats /\
    rect (T + 1) B feats /\
    forward m x = Ok out /\
    out = map (mlp_head m) (nth 0 feats []) /\
    rect B num_classes out.
Proof.
  intros (Hblocks & Hdrop & Hhead & Hpos) Hs Hwf Hp HH HW HF HT T.
  set (p := patch_size m) in *.
  set (hp := H / p) in *. set (wp := W / p) in *.
  assert (EH : H = hp * p).
  { unfold hp. pose proof (Nat.div_mod_eq H p). lia. }
  assert (EW : W = wp * p).
  { unfold wp. pose proof (Nat.div_mod_eq W p). lia. }
  rewrite EH, EW in Hs.
  pose proof (img_to_patch_eval x B C hp wp p true Hs Hwf Hp) as Ex1.
  cbv iota in Ex1.
  match type of Ex1 with _ = Ok ?t => set (x1 := t) in * end.
  set (row := fun b : nat =>
                cls_token m ::
                map (fun t => input_layer m (patch_at x1 T (in_features m) b t))
                    (seq 0 T)).
  set (toks := map (fun b => map (fun '(a, q) => vadd a q)
                               (combine (row b) (pos_embedding m)))
                   (seq 0 B)).
  assert (Etok : tokens m x = Ok (T, toks)).
  { unfold tokens. fold p. rewrite Ex1. cbn [rbind].
    unfold x1 at 1. cbn [shape]. fold x1.
    unfold apply_input_layer. rewrite HF, Nat.eqb_refl. cbn [rbind].
    unfold cat_dim1. rewrite repeat_length, length_map, length_seq, Nat.eqb_refl.
    cbn [rbind]. unfold add_positions.
    rewrite length_firstn, Hpos.
    replace (Nat.min (hp * wp + 1) (1 + num_patches)) with (hp * wp + 1)
      by (unfold T in HT; lia).
    rewrite Nat.eqb_refl. cbn [rbind]. f_equal. f_equal.
    rewrite <- (length_seq B 0) at 1.
    rewrite <- (length_map (fun b => map (fun t => input_layer m
                                                  (patch_at x1 (hp * wp) (in_features m) b t))
                                      (seq 0 (hp * wp))) (seq 0 B)).
    rewrite map_combine_repeat, !map_map. unfold toks.
    apply map_ext. intros b. cbn [app]. unfold row. fold T.
    replace (T + 1) with (length (cls_token m ::
                                  map (fun t => input_layer m
                                                  (patch_at x1 T (in_features m) b t))
                                      (seq 0 T)))
      by (cbn [length]; rewrite length_map, length_seq; lia).
    rewrite combine_firstn_r. reflexivity. }
  assert (Rtok : rect B (T + 1) toks).
  { unfold toks. split; [rewrite length_map, length_seq; reflexivity|].
    apply Forall_map. apply Forall_forall. intros b _.
    rewrite length_map, length_combine. unfold row. cbn [length].
    rewrite length_map, length_seq, Hpos. lia. }
  assert (Renc : rect (T + 1) B (transpose01 (T + 1) (dropout m toks))).
  { apply transpose01_rect. apply Hdrop. exact Rtok. }
  destruct (sequential_rect (transformer m) (T + 1) B _ Hblocks Renc)
    as [feats [Efeats Rfeats]].
  exists x1, toks, feats, (map (mlp_head m) (nth 0 feats [])).
  split; [exact Ex1|]. split; [exact Etok|]. split; [exact Rtok|].
  split; [reflexivity|]. split; [exact Efeats|]. split; [exact Rfeats|].
  destruct Rfeats as [Lf Ff].
  destruct feats as [| cls rest]; [simpl in Lf; lia|].
  split.
  - unfold forward. rewrite Etok. cbn [rbind]. unfold encode.
    rewrite Efeats. reflexivity.
  - split; [reflexivity|]. cbn [nth]. split.
    + rewrite length_map. inversion Ff; assumption.
    + apply Forall_map. apply Forall_forall. intros e _. apply Hhead.
Qed.

End Model.

Arguments mkAttentionBlock {E}.
Arguments mkVisionTransformer {A E S}.
Arguments patch_size {A E S}.
Arguments in_features {A E S}.
Arguments input_layer {A E S}.
Arguments transformer {A E S}.
Arguments mlp_head {A E S}.
Arguments dropout {A E S}.
Arguments cls_token {A E S}.
Arguments pos_embedding {A E S}.
Arguments tokens {A E S}.
Arguments encode {A E S}.
Arguments forward {A E S}.
Arguments model_ok {A E S}.

(** A small concrete model over [nat]: one-pixel patches, two patches per
    image, two classes. *)
Definition demo_block : AttentionBlock nat :=
  mkAttentionBlock (fun e => e) (fun q _ _ => q) (fun e => e) (fun x => x).

Definition demo_model : VisionTransformer nat nat nat :=
  mkVisionTransformer 1 1 (fun patch => fold_right Nat.add 0 patch)
    [demo_block] (fun e => [e; e + 1]) (fun x => x) 100 [1; 2; 3].

Definition demo_image : Tensor nat := mkTensor [1; 1; 1; 2] [5; 7].

Lemma demo_model_ok : model_ok demo_model 2 2.
Proof.
  split; [| split; [| split]].
  - constructor; [| constructor]. split.
    + intros n k q key v Hq. exact Hq.
    + intros n k x Hx. exact Hx.
  - intros n k x Hx. exact Hx.
  - intros e. reflexivity.
  - reflexivity.
Qed.

Lemma forward_class_token_witness :
  exists out, forward Nat.add demo_model demo_image = Ok out /\ rect 1 2 out.
Proof.
  destruct (forward_class_token nat nat nat Nat.add demo_model 2 2 demo_image 1 1 1 2
              demo_model_ok eq_refl eq_refl (le_n 1) eq_refl eq_refl eq_refl (le_n 2))
    as (x1 & toks & feats & out & _ & _ & _ & _ & _ & _ & Hout & _ & Hrect).
  exists out. split; [exact Hout | exact Hrect].
Defined.

(** The demo model on the demo image: the class token 100 gets position 1 and
    is doubled by each of the block's two residual sums; the head sees only it. *)
Example forward_demo :
  forward Nat.add demo_model demo_image = Ok [[404; 405]].
Proof. reflexivity. Qed.

Example tokens_demo :
  tokens Nat.add demo_model demo_image = Ok (2, [[101; 7; 10]]).
Proof. reflexivity. Qed.

(** An image with more patches than positions is rejected at the positional
    sum; fewer patches than [num_patches] are accepted. *)
Example forward_too_many_patches :
  forward Nat.add demo_model (mkTensor [1; 1; 1; 3] [5; 7; 9])
  = Raise (RuntimeError "size mismatch").
Proof. reflexivity. Qed.

Example tokens_fewer_patches :
  tokens Nat.add demo_model (mkTensor [1; 1; 1; 1] [5]) = Ok (1, [[101; 7]]).
Proof. reflexivity. Qed.

End ViT.

(** ** The scripts' runtime: framework calls as operations of a free monad

    A script is a [prog]: it returns, raises at the Python level, or calls
    the framework and continues with the answer.  [with no_grad():] is a
    scoped construct whose exit runs on every path, as the [with] statement
    has it.  The handler is the framework: it answers every call with a value
    or an exception and threads its own state [W].  There is no construct
    that catches an exception, because neither script has a [try]. *)

Module Py.

(** Framework objects (modules, optimizers, device tensors, loaders, figures)
    are opaque references. *)
Definition obj : Type := nat.

(** Python values passed to the framework. [PFormat fmt args] stands for
    [fmt.format] applied to [args]; [PSlice] for a slice [start:stop];
    [PKw] for a keyword argument; [PType] for a builtin type such as [str]. *)
Inductive pyval : Type :=
| PNone
| PBool (b : bool)
| PInt (z : Z)
| PFloat (f : float)
| PStr (s : string)
| PObj (o : obj)
| PList (l : list pyval)
| PSlice (start stop : option Z)
| PFormat (fmt : string) (args : list pyval)
| PType (name : string)
| PKw (name : string) (v : pyval).

(** The framework and library functions the scripts call. *)
Inductive fn : Type :=
(* torch.nn.Module *)
| Module_train | Module_eval | Module_cuda | Module_to | Module_call
| Module_parameters | Module_state_dict | Module_load_state_dict
(* tensors *)
| Tensor_transpose | Tensor_cuda | Tensor_to | Tensor_getitem | Tensor_shape
| Tensor_shape_getitem | Tensor_reshape | Tensor_flatten | Tensor_backward
| Tensor_item | Tensor_unsqueeze | Tensor_argmax | Tensor_permute | LongTensor
| torch_stack
(* optimisation *)
| Optimizer_zero_grad | Optimizer_step | Scheduler_step | clip_grad_norm_
| optim_Adam | optim_MultiStepLR | nn_CrossEntropyLoss
(* data *)
| NumberLoader | builtin_len | random_split | DataLoader | DataLoader_iter
| Dataset_getitem | tqdm_notebook
(* models and checkpoints *)
| TransformerModel | VisionTransformer_init | torch_save | torch_load
(* builtins, numpy, argparse, datetime *)
| builtin_print | numpy_random_randint | datetime_now | datetime_strftime
| ArgumentParser | add_argument | parse_args
(* plotting *)
| make_grid | plt_subplots | Figure_suptitle | ndarray_getitem | Axes_imshow
| Axes_axis | plt_show | plt_close.

(** What [parse_args] returns for Script 1's parser. *)
Record Namespace : Type := mkNamespace {
  test_model : option string;
  train_model : option string
}.

(** The kinds of answers a call can have. *)
Inductive rty : Type :=
| RUnit | RObj | RInt | RFloat | RShape | RBatches | RPair | RArgs.

Definition rdenote (r : rty) : Type :=
  match r with
  | RUnit => unit
  | RObj => obj
  | RInt => Z
  | RFloat => float
  | RShape => list Z
  | RBatches => list (obj * obj)
  | RPair => (obj * obj)%type
  | RArgs => Namespace
  end.

Inductive prog (A : Type) : Type :=
| Ret (a : A)
| Throw (e : exn)
| Call (r : rty) (f : fn) (args : list pyval) (k : rdenote r -> prog A)
| NoGrad (X : Type) (body : prog X) (k : X -> prog A).

Arguments Ret {A} a.
Arguments Throw {A} e.
Arguments Call {A} r f args k.
Arguments NoGrad {A X} body k.

Fixpoint bind {A B} (p : prog A) (g : A -> prog B) : prog B :=
  match p with
  | Ret a => g a
  | Throw e => Throw e
  | Call r f args k => Call r f args (fun x => bind (k x) g)
  | NoGrad body k => NoGrad body (fun x => bind (k x) g)
  end.

(** One framework call, returning its answer. *)
Definition call (r : rty) (f : fn) (args : list pyval) : prog (rdenote r) :=
  Call r f args Ret.

(** [with no_grad(): body]. *)
Definition no_grad {X} (body : prog X) : prog X := NoGrad body Ret.

Declare Scope prog_scope.
Delimit Scope prog_scope with prog.
Notation "x <- p ;; k" := (bind p (fun x => k))
  (at level 61, p at next level, right associativity) : prog_scope.
Notation "' pat <- p ;; k" := (bind p (fun pat => k))
  (at level 61, pat pattern, p at next level, right associativity) : prog_scope.
Notation "p ;;; k" := (bind p (fun _ => k))
  (at level 61, right associativity) : prog_scope.

(** [for x in l: s = body x s]. *)
Fixpoint for_each {X St} (l : list X) (body : X -> St -> prog St) (s : St)
  : prog St :=
  match l with
  | [] => Ret s
  | x :: l' => bind (body x s) (for_each l' body)
  end.

(** [range(n)]. *)
Definition range (n : nat) : list nat := seq 0 n.

(** [enumerate(l)]. *)
Definition enumerate {X} (l : list X) : list (nat * X) :=
  combine (seq 0 (length l)) l.

(** The framework: an answer to every call, and the grad-mode switch of
    [no_grad], which cannot fail. *)
Record handler (W : Type) : Type := mkHandler {
  h_call : forall r : rty, fn -> list pyval -> W -> result (rdenote r) * W;
  h_enter : W -> W;
  h_exit : W -> W
}.

Arguments mkHandler {W} h_call h_enter h_exit.
Arguments h_call {W} h r f args w.
Arguments h_enter {W} h w.
Arguments h_exit {W} h w.

Inductive event : Type :=
| EvCall (r : rty) (f : fn) (args : list pyval) (res : result (rdenote r))
| EvEnter
| EvExit.

Definition trace : Type := list event.

(** Running a program against the framework: the outcome, the framework's
    final state, and the calls made, in order. *)
Fixpoint run {W A} (h : handler W) (p : prog A) (w : W)
  : result A * W * trace :=
  match p with
  | Ret a => (Ok a, w, [])
  | Throw e => (Raise e, w, [])
  | Call r f args k =>
      let '(res, w1) := h_call h r f args w in
      match res with
      | Ok x =>
          let '(out, w2, tr) := run h (k x) w1 in
          (out, w2, EvCall r f args (Ok x) :: tr)
      | Raise e => (Raise e, w1, [EvCall r f args (Raise e)])
      end
  | NoGrad body k =>
      let '(res, w1, tr1) := run h body (h_enter h w) in
      let w2 := h_exit h w1 in
      match res with
      | Ok x =>
          let '(out, w3, tr2) := run h (k x) w2 in
          (out, w3, EvEnter :: tr1 ++ EvExit :: tr2)
      | Raise e => (Raise e, w2, EvEnter :: tr1 ++ [EvExit])
      end
  end.

(** [float(z)], exact below [2^53]. *)
Definition float_of_Z (z : Z) : float :=
  match z with
  | Z0 => PrimFloat.zero
  | Zpos _ => PrimFloat.of_uint63 (Uint63.of_Z z)
  | Zneg _ => PrimFloat.opp (PrimFloat.of_uint63 (Uint63.of_Z (- z)))
  end.

(** [int(f)]: truncation towards zero; infinities and NaN raise. *)
Definition int_of_float (f : float) : prog Z :=
  match Prim2SF f with
  | S754_zero _ => Ret 0%Z
  | S754_finite s m e =>
      let mag := if (0 <=? e)%Z then (Z.pos m * 2 ^ e)%Z
                 else (Z.pos m / 2 ^ (- e))%Z in
      Ret (if s then (- mag)%Z else mag)
  | S754_infinity _ => Throw (RuntimeError "OverflowError")
  | S754_nan => Throw ValueError
  end.

Definition outcome {W A} (o : result A * W * trace) : result A := fst (fst o).
Definition final {W A} (o : result A * W * trace) : W := snd (fst o).
Definition calls {W A} (o : result A * W * trace) : trace := snd o.

(** The exception a call was answered with, if any. *)
Definition failure (ev : event) : option exn :=
  match ev with
  | EvCall _ _ _ (Raise e) => Some e
  | _ => None
  end.

Definition is_exit (ev : event) : bool :=
  match ev with
  | EvExit => true
  | _ => false
  end.

(** The first failed call of a trace. *)
Fixpoint first_failure (tr : trace) : option exn :=
  match tr with
  | [] => None
  | ev :: tr' =>
      match failure ev with
      | Some e => Some e
      | None => first_failure tr'
      end
  end.

(** After a failed call only [no_grad] exits follow. *)
Fixpoint quiet_after_failure (tr : trace) : bool :=
  match tr with
  | [] => true
  | ev :: tr' =>
      match failure ev with
      | Some _ => forallb is_exit tr'
      | None => quiet_after_failure tr'
      end
  end.

(** *** Laws of [run] *)

Lemma run_bind {W A B} (h : handler W) (p : prog A) (g : A -> prog B) (w : W) :
  run h (bind p g) w =
  let '(res, w1, tr1) := run h p w in
  match res with
  | Ok a => let '(out, w2, tr2) := run h (g a) w1 in (out, w2, tr1 ++ tr2)
  | Raise e => (Raise e, w1, tr1)
  end.
Proof.
  revert B g w.
  induction p as [A a | A e | A r f args k IH | A X body IHbody k IH]; intros B g w.
  - simpl. destruct (run h (g a) w) as [[out w2] tr2]. reflexivity.
  - reflexivity.
  - simpl. destruct (h_call h r f args w) as [[x | e] w1]; [| reflexivity].
    rewrite IH. destruct (run h (k x) w1) as [[[a | e] w2] tr1]; [| reflexivity].
    destruct (run h (g a) w2) as [[out w3] tr2]. reflexivity.
  - simpl. destruct (run h body (h_enter h w)) as [[[x | e] w1] tr1]; [| reflexivity].
    rewrite IH. destruct (run h (k x) (h_exit h w1)) as [[[a | e] w2] tr2];
      [| reflexivity].
    destruct (run h (g a) w2) as [[out w3] tr3].
    simpl. rewrite <- app_assoc. reflexivity.
Qed.

Lemma first_failure_app (a b : trace) :
  first_failure (a ++ b) =
  match first_failure a with
  | Some e => Some e
  | None => first_failure b
  end.
Proof.
  induction a as [| ev a IH]; simpl; [reflexivity|].
  destruct (failure ev); [reflexivity | exact IH].
Qed.

Lemma quiet_after_failure_app (a b : trace) :
  quiet_after_failure (a ++ b) =
  match first_failure a with
  | Some _ => quiet_after_failure a && forallb is_exit b
  | None => quiet_after_failure b
  end.
Proof.
  induction a as [| ev a IH]; simpl; [reflexivity|].
  destruct (failure ev); [apply forallb_app | exact IH].
Qed.

(** A failed call ends the run with its exception, and nothing but
    [no_grad] exits is executed after it. *)
Lemma run_failure {W A} (h : handler W) (p : prog A) (w : W) :
  quiet_after_failure (calls (run h p w)) = true /\
  (forall e, first_failure (calls (run h p w)) = Some e ->
             outcome (run h p w) = Raise e).
Proof.
  revert w.
  induction p as [A a | A e | A r f args k IH | A X body IHbody k IH]; intros w.
  - simpl. split; [reflexivity | discriminate].
  - simpl. split; [reflexivity | discriminate].
  - simpl. destruct (h_call h r f args w) as [[x | e] w1].
    + specialize (IH x w1). destruct (run h (k x) w1) as [[out w2] tr].
      unfold calls, outcome in *. simpl in *. exact IH.
    + unfold calls, outcome. simpl. split; [reflexivity|].
      intros e' E. congruence.
  - simpl. specialize (IHbody (h_enter h w)).
    destruct (run h body (h_enter h w)) as [[[x | e] w1] tr1];
      unfold calls, outcome in *; simpl in IHbody.
    + specialize (IH x (h_exit h w1)).
      destruct (run h (k x) (h_exit h w1)) as [[out w2] tr2].
      unfold calls, outcome in *. simpl in *.
      destruct IHbody as [Q1 F1]. destruct IH as [Q2 F2].
      assert (N1 : first_failure tr1 = None).
      { destruct (first_failure tr1) as [e |] eqn:E1; [| reflexivity].
        specialize (F1 e eq_refl). discriminate. }
      rewrite quiet_after_failure_app, first_failure_app, N1. simpl.
      split; assumption.
    + simpl. destruct IHbody as [Q1 F1].
      rewrite quiet_after_failure_app, first_failure_app.
      destruct (first_failure tr1) as [e1 |] eqn:E1; simpl.
      * rewrite Q1. split; [reflexivity|]. intros e' E'. inversion E'; subst e'.
        specialize (F1 e1 eq_refl). congruence.
      * split; [reflexivity | discriminate].
Qed.



Lemma run_call {W} (h : handler W) (r : rty) (f : fn) (args : list pyval) (w : W) :
  run h (call r f args) w =
  match h_call h r f args w with
  | (Ok x, w1) => (Ok x, w1, [EvCall r f args (Ok x)])
  | (Raise e, w1) => (Raise e, w1, [EvCall r f args (Raise e)])
  end.
Proof.
  simpl. destruct (h_call h r f args w) as [[x | e] w1]; reflexivity.
Qed.

Lemma run_bind_call {W B} (h : handler W) (r : rty) (f : fn)
    (args : list pyval) (g : rdenote r -> prog B) (w : W) :
  run h (bind (call r f args) g) w =
  match h_call h r f args w with
  | (Ok x, w1) =>
      let '(out, w2, tr) := run h (g x) w1 in
      (out, w2, EvCall r f args (Ok x) :: tr)
  | (Raise e, w1) => (Raise e, w1, [EvCall r f args (Raise e)])
  end.
Proof.
  simpl. destruct (h_call h r f args w) as [[x | e] w1]; reflexivity.
Qed.

(** A call made in a run without failed calls was answered, and the run
    continues from the answer. *)
Lemma run_call_no_failure {W A} (h : handler W) (r : rty) (f : fn)
    (args : list pyval) (k : rdenote r -> prog A) (w : W) :
  first_failure (calls (run h (Call r f args k) w)) = None ->
  exists x w1,
    h_call h r f args w = (Ok x, w1) /\
    first_failure (calls (run h (k x) w1)) = None /\
    outcome (run h (Call r f args k) w) = outcome (run h (k x) w1) /\
    final (run h (Call r f args k) w) = final (run h (k x) w1) /\
    calls (run h (Call r f args k) w) =
    EvCall r f args (Ok x) :: calls (run h (k x) w1).
Proof.
  simpl. destruct (h_call h r f args w) as [[x | e] w1].
  - destruct (run h (k x) w1) as [[out w2] tr] eqn:E.
    unfold calls, outcome, final. simpl. intros H.
    exists x, w1. rewrite E. simpl. repeat split. exact H.
  - unfold calls. simpl. discriminate.
Qed.

(** *** Which framework functions a program may call *)

(** Every call of [p] is to a function accepted by [P]. *)
Fixpoint uses (P : fn -> bool) {A} (p : prog A) : Prop :=
  match p with
  | Ret _ => True
  | Throw _ => True
  | Call r f args k => P f = true /\ forall x, uses P (k x)
  | NoGrad body k => uses P body /\ forall x, uses P (k x)
  end.

Definition allowed (P : fn -> bool) (ev : event) : Prop :=
  match ev with
  | EvCall _ f _ _ => P f = true
  | _ => True
  end.

Lemma uses_call (P : fn -> bool) (r : rty) (f : fn) (args : list pyval) :
  P f = true -> uses P (call r f args).
Proof. intros H. simpl. split; [exact H | intros; exact I]. Qed.

Lemma uses_bind (P : fn -> bool) {A B} (p : prog A) (g : A -> prog B) :
  uses P p -> (forall a, uses P (g a)) -> uses P (bind p g).
Proof.
  revert B g.
  induction p as [A a | A e | A r f args k IH | A X body IHbody k IH];
    intros B g Hp Hg; simpl in *.
  - apply Hg.
  - exact I.
  - destruct Hp as [Hf Hk]. split; [exact Hf|]. intros x. apply IH; [apply Hk | exact Hg].
  - destruct Hp as [Hb Hk]. split; [exact Hb|]. intros x. apply IH; [apply Hk | exact Hg].
Qed.

Lemma uses_no_grad (P : fn -> bool) {X} (body : prog X) :
  uses P body -> uses P (no_grad body).
Proof. intros H. simpl. split; [exact H | intros; exact I]. Qed.

Lemma uses_for_each (P : fn -> bool) {X St} (l : list X)
    (body : X -> St -> prog St) (s : St) :
  (forall x s', uses P (body x s')) -> uses P (for_each l body s).
Proof.
  intros Hb. revert s. induction l as [| x l IH]; intros s; simpl.
  - exact I.
  - apply uses_bind; [apply Hb | exact IH].
Qed.

Lemma uses_run (P : fn -> bool) {W A} (h : handler W) (p : prog A) (w : W) :
  uses P p -> Forall (allowed P) (calls (run h p w)).
Proof.
  revert w.
  induction p as [A a | A e | A r f args k IH | A X body IHbody k IH];
    intros w Hp; simpl in *.
  - constructor.
  - constructor.
  - destruct Hp as [Hf Hk]. destruct (h_call h r f args w) as [[x | e] w1].
    + specialize (IH x w1 (Hk x)). destruct (run h (k x) w1) as [[out w2] tr].
      unfold calls in *. simpl in *. constructor; [exact Hf | exact IH].
    + unfold calls. simpl. constructor; [exact Hf | constructor].
  - destruct Hp as [Hb Hk]. specialize (IHbody (h_enter h w) Hb).
    destruct (run h body (h_enter h w)) as [[[x | e] w1] tr1];
      unfold calls in *; simpl in *.
    + specialize (IH x (h_exit h w1) (Hk x)).
      destruct (run h (k x) (h_exit h w1)) as [[out w2] tr2]. simpl in *.
      constructor; [exact I|]. apply Forall_app. split; [exact IHbody|].
      constructor; [exact I | exact IH].
    + constructor; [exact I|]. apply Forall_app. split; [exact IHbody|].
      constructor; [exact I | constructor].
Qed.

(** Proves [uses P p] for a program written with [bind], [call],
    [for_each] and [no_grad], splitting on the data it branches on. *)
Ltac uses_step :=
  match goal with
  | |- True => exact I
  | |- uses _ (Ret _) => exact I
  | |- uses _ (Throw _) => exact I
  | |- uses _ (bind _ _) => apply uses_bind
  | |- uses _ (for_each _ _ _) => apply uses_for_each
  | |- uses _ (no_grad _) => apply uses_no_grad
  | |- uses _ (call _ _ _) => apply uses_call; reflexivity
  | |- uses _ (let '(_, _) := ?b in _) => destruct b
  | |- uses _ (match ?x with _ => _ end) => destruct x
  | |- uses _ (if ?c then _ else _) => destruct c
  | |- forall _, _ => intro
  | |- _ => progress cbv zeta
  end.

Ltac uses_tac := repeat uses_step.

(** *** Reading a trace *)

(** The values [pick] finds in a trace, in order. *)
Definition select {X} (pick : event -> option X) (tr : trace) : list X :=
  flat_map (fun ev => match pick ev with Some x => [x] | None => [] end) tr.

Lemma select_app {X} (pick : event -> option X) (a b : trace) :
  select pick (a ++ b) = select pick a ++ select pick b.
Proof. unfold select. apply flat_map_app. Qed.

Lemma select_cons {X} (pick : event -> option X) (ev : event) (tr : trace) :
  select pick (ev :: tr) =
  match pick ev with Some x => [x] | None => [] end ++ select pick tr.
Proof. reflexivity. Qed.

Lemma select_nil {X} (pick : event -> option X) : select pick [] = [].
Proof. reflexivity. Qed.

Lemma select_none {X} (pick : event -> option X) (P : fn -> bool) (tr : trace) :
  (forall ev, allowed P ev -> pick ev = None) ->
  Forall (allowed P) tr -> select pick tr = [].
Proof.
  intros Hp Htr. induction Htr as [| ev tr Hev _ IH]; simpl; [reflexivity|].
  rewrite (Hp ev Hev). exact IH.
Qed.

(** The float answers of the calls to functions accepted by [P], in order. *)
Definition pick_float (P : fn -> bool) (ev : event) : option float :=
  match ev with
  | EvCall r f _ res =>
      match r return result (rdenote r) -> option float with
      | RFloat => fun res => match res with
                             | Ok l => if P f then Some l else None
                             | Raise _ => None
                             end
      | _ => fun _ => None
      end res
  | _ => None
  end.

Definition is_item (f : fn) : bool :=
  match f with Tensor_item => true | _ => false end.


(** Closes a goal [first_failure tr = Some e] where the failed call follows
    traces known to be free of failures. *)
Ltac failure_found :=
  first
    [ reflexivity
    | unfold calls; simpl; repeat rewrite first_failure_app;
      repeat match goal with
             | H : first_failure _ = None |- _ => rewrite H
             end;
      reflexivity ].

(** Steps through the next call of the program under [run]: the call was
    answered, because no call of the run failed ([Hnf]). *)
Ltac answer_call h Hnf :=
  rewrite run_bind_call in *;
  match goal with
  | |- context [h_call h ?r ?f ?a ?w0] =>
      let e := fresh "e" in
      destruct (h_call h r f a w0) as [[? | e] ?];
      [| exfalso; apply (Hnf e); failure_found]
  end.

Ltac answer_call_as h Hnf x w1 :=
  rewrite run_bind_call in *;
  match goal with
  | |- context [h_call h ?r ?f ?a ?w0] =>
      let e := fresh "e" in
      destruct (h_call h r f a w0) as [[x | e] w1];
      [| exfalso; apply (Hnf e); failure_found]
  end.

Lemma run_ok_no_failure {W A} (h : handler W) (p : prog A) (w : W) (a : A) :
  outcome (run h p w) = Ok a -> first_failure (calls (run h p w)) = None.
Proof.
  intros Ho. destruct (first_failure (calls (run h p w))) as [e |] eqn:E;
    [| reflexivity].
  apply (proj2 (run_failure h p w)) in E. congruence.
Qed.

(** Steps through the next call of a run that is known, by [Ho], to end
    normally. *)
Ltac next_call h Ho :=
  cbn [bind call for_each run no_grad] in *;
  match type of Ho with
  | context [h_call h ?r ?f ?a ?w0] =>
      destruct (h_call h r f a w0) as [[? | ?] ?];
      [| simpl in Ho; discriminate Ho]
  end.


(** Answers used where the value does not matter. *)
Definition default_answer (r : rty) : rdenote r :=
  match r with
  | RUnit => tt
  | RObj => 0%nat
  | RInt => 0%Z
  | RFloat => PrimFloat.zero
  | RShape => []
  | RBatches => []
  | RPair => (0%nat, 0%nat)
  | RArgs => mkNamespace None None
  end.

(** A framework without state that answers every call with the default,
    and [randint(lo, hi)] with [lo] (or ValueError when [lo >= hi]). *)
Definition plain_handler : handler unit :=
  mkHandler
    (fun r f args w =>
       (match r as r0 return result (rdenote r0) with
        | RInt =>
            match f, args with
            | numpy_random_randint, [PInt lo; PInt hi] =>
                if (lo <? hi)%Z then Ok lo else Raise ValueError
            | _, _ => Ok 0%Z
            end
        | r0 => Ok (default_answer r0)
        end, w))
    (fun w => w) (fun w => w).

(** The file name of a successful [torch.save(state_dict, name)]. *)
Definition saved_name (ev : event) : option pyval :=
  match ev with
  | EvCall _ torch_save [PObj _; name] (Ok _) => Some name
  | _ => None
  end.

Definition is_print (f : fn) : bool :=
  match f with builtin_print => true | _ => false end.

Definition is_save (f : fn) : bool :=
  match f with torch_save => true | _ => false end.

(** Functions other than [print] and [torch.save]. *)
Definition no_report (f : fn) : bool := negb (is_print f || is_save f).

Lemma saved_name_no_report (ev : event) :
  allowed no_report ev -> saved_name ev = None.
Proof.
  destruct ev as [r f args res | |]; try reflexivity.
  destruct f; simpl; intros H; try discriminate H; reflexivity.
Qed.

(** *** Checkpoint-on-improvement loops *)

(** The epochs (counted from [k]) whose validation loss is strictly below the
    best seen before, with that loss; [best] is the initial threshold. *)
Fixpoint checkpoints (best : float) (k : nat) (vs : list float)
  : list (nat * float) :=
  match vs with
  | [] => []
  | v :: vs' =>
      if PrimFloat.ltb v best then (k, v) :: checkpoints v (S k) vs'
      else checkpoints best (S k) vs'
  end.

(** The best loss after the validation losses [vs]. *)
Definition running_best (best : float) (vs : list float) : float :=
  fold_left (fun b v => if PrimFloat.ltb v b then v else b) vs best.

(** [l] is strictly decreasing and starts below [b]. *)
Fixpoint decreasing_from (b : float) (l : list float) : Prop :=
  match l with
  | [] => True
  | v :: l' => PrimFloat.ltb v b = true /\ decreasing_from v l'
  end.

Lemma checkpoints_decreasing (vs : list float) :
  forall best k, decreasing_from best (map snd (checkpoints best k vs)).
Proof.
  induction vs as [| v vs IH]; intros best k; simpl; [exact I|].
  destruct (PrimFloat.ltb v best) eqn:E; simpl.
  - split; [exact E | apply IH].
  - apply IH.
Qed.

Lemma checkpoints_none (vs : list float) :
  forall best k,
    (forall v, In v vs -> PrimFloat.ltb v best = false) ->
    checkpoints best k vs = [].
Proof.
  induction vs as [| v vs IH]; intros best k H; simpl; [reflexivity|].
  rewrite (H v (or_introl eq_refl)). apply IH. intros v' Hv'. apply H. right. exact Hv'.
Qed.

Lemma running_best_snoc (best : float) (vs : list float) (v : float) :
  running_best best (vs ++ [v]) =
  if PrimFloat.ltb v (running_best best vs) then v else running_best best vs.
Proof. unfold running_best. rewrite fold_left_app. reflexivity. Qed.

(** An epoch is among the checkpoints exactly when its loss is strictly
    below the best of the epochs before it. *)
Lemma checkpoints_iff (vs : list float) :
  forall best k j v,
    In (j, v) (checkpoints best k vs) <->
    (k <= j /\ nth_error vs (j - k) = Some v /\
     PrimFloat.ltb v (running_best best (firstn (j - k) vs)) = true).
Proof.
  induction vs as [| u vs IH]; intros best k j v.
  - simpl. split; [intros [] |]. intros (_ & H & _).
    destruct (j - k); discriminate H.
  - cbn [checkpoints].
    assert (Hrec :
               (k <= j /\ nth_error (u :: vs) (j - k) = Some v /\
                PrimFloat.ltb v (running_best best (firstn (j - k) (u :: vs))) = true)
               <-> ((j = k /\ u = v /\ PrimFloat.ltb v best = true) \/
                    (S k <= j /\ nth_error vs (j - S k) = Some v /\
                     PrimFloat.ltb v (running_best
                                        (if PrimFloat.ltb u best then u else best)
                                        (firstn (j - S k) vs)) = true))).
    { split.
      - intros (Hk & Hn & Hl).
        destruct (Nat.eq_dec j k) as [-> | Hne].
        + rewrite Nat.sub_diag in Hn, Hl. simpl in Hn, Hl. inversion Hn; subst.
          left. auto.
        + right. replace (j - k) with (S (j - S k)) in Hn, Hl by lia.
          simpl in Hn, Hl. split; [lia|]. split; assumption.
      - intros [(-> & -> & Hl) | (Hk & Hn & Hl)].
        + rewrite Nat.sub_diag. simpl. auto.
        + replace (j - k) with (S (j - S k)) by lia. simpl.
          split; [lia|]. split; assumption. }
    rewrite Hrec. clear Hrec.
    destruct (PrimFloat.ltb u best) eqn:E.
    + cbn [In]. rewrite IH. split.
      * intros [H | H]; [inversion H; subst; left; auto | right; exact H].
      * intros [(-> & -> & _) | H]; [left; reflexivity | right; exact H].
    + rewrite IH. split.
      * intros H. right. exact H.
      * intros [(-> & -> & Hl) | H]; [congruence | exact H].
Qed.

Section CheckpointLoop.

Context {W St X : Type}.
Variable h : handler W.
(** The body of the epoch loop, on the loop's state. *)
Variable body : nat -> St -> prog St.
(** The best validation loss the state tracks. *)
Variable best_of : St -> float.
(** The validation loss an event reports, the checkpoint an event saves. *)
Variable pick_val : event -> option float.
Variable pick_saved : event -> option X.
(** The checkpoint of epoch [k] with validation loss [v]. *)
Variable mark : nat -> float -> X.

(** One epoch either stops with an exception before saving anything, or ends
    normally, having reported one validation loss [v] and saved a checkpoint
    exactly when [v] is below the tracked best, which then becomes [v]. *)
Definition epoch_ok (k : nat) (st : St) (o : result St * W * trace) : Prop :=
  let vals := select pick_val (calls o) in
  let saved := select pick_saved (calls o) in
  (vals = [] /\ saved = [] /\ exists e, outcome o = Raise e) \/
  (exists v, vals = [v] /\ saved = [] /\ exists e, outcome o = Raise e) \/
  (exists v st', vals = [v] /\ saved = [] /\
                 PrimFloat.ltb v (best_of st) = false /\
                 outcome o = Ok st' /\ best_of st' = best_of st) \/
  (exists v st', vals = [v] /\ saved = [mark k v] /\
                 PrimFloat.ltb v (best_of st) = true /\
                 outcome o = Ok st' /\ best_of st' = v).

Hypothesis body_ok : forall k st w, epoch_ok k st (run h (body k st) w).

Lemma loop_checkpoints (n : nat) :
  forall (a : nat) (st : St) (w : W),
    let o := run h (for_each (seq a n) body st) w in
    exists vs,
      (select pick_val (calls o) = vs \/
       exists v, select pick_val (calls o) = vs ++ [v]) /\
      select pick_saved (calls o) =
      map (fun kv => mark (fst kv) (snd kv)) (checkpoints (best_of st) a vs) /\
      length vs <= n /\
      (forall st', outcome o = Ok st' ->
                   select pick_val (calls o) = vs /\ length vs = n /\
                   best_of st' = running_best (best_of st) vs).
Proof.
  induction n as [| n IH]; intros a st w.
  - exists []. simpl. unfold outcome, calls. simpl.
    split; [left; reflexivity|]. split; [reflexivity|]. split; [lia|].
    intros st' E. inversion E; subst. auto.
  - cbn [seq for_each]. cbv zeta. rewrite run_bind.
    pose proof (body_ok a st w) as Hb. unfold epoch_ok in Hb. cbv zeta in Hb.
    destruct (run h (body a st) w) as [[r1 w1] tr1].
    unfold outcome, calls in Hb. simpl in Hb.
    destruct Hb as [(Ev & Es & e & Eo) | [(v & Ev & Es & e & Eo) |
                   [(v & st1 & Ev & Es & Hlt & Eo & Eb) |
                    (v & st1 & Ev & Es & Hlt & Eo & Eb)]]]; subst r1.
    + exists []. unfold outcome, calls. simpl. rewrite Ev, Es.
      split; [left; reflexivity|]. split; [reflexivity|]. split; [lia|].
      discriminate.
    + exists []. unfold outcome, calls. simpl. rewrite Ev, Es.
      split; [right; exists v; reflexivity|]. split; [reflexivity|]. split; [lia|].
      discriminate.
    + specialize (IH (S a) st1 w1). cbv zeta in IH.
      destruct (run h (for_each (seq (S a) n) body st1) w1) as [[r2 w2] tr2].
      unfold outcome, calls in *. simpl in IH |- *.
      destruct IH as (vs & Hv & Hs & Hlen & Hok).
      exists (v :: vs). rewrite !select_app, Ev, Es, Hs, Eb. simpl. rewrite Hlt.
      split; [destruct Hv as [-> | [v' ->]];
              [left; reflexivity | right; exists v'; reflexivity]|].
      split; [reflexivity|]. split; [lia|].
      intros st' E. destruct (Hok st' E) as (K1 & K2 & K3).
      split; [rewrite K1; reflexivity|].
      split; [lia | rewrite K3, Eb; reflexivity].
    + specialize (IH (S a) st1 w1). cbv zeta in IH.
      destruct (run h (for_each (seq (S a) n) body st1) w1) as [[r2 w2] tr2].
      unfold outcome, calls in *. simpl in IH |- *.
      destruct IH as (vs & Hv & Hs & Hlen & Hok).
      exists (v :: vs). rewrite !select_app, Ev, Es, Hs, Eb. simpl. rewrite Hlt.
      split; [destruct Hv as [-> | [v' ->]];
              [left; reflexivity | right; exists v'; reflexivity]|].
      split; [reflexivity|]. split; [lia|].
      intros st' E. destruct (Hok st' E) as (K1 & K2 & K3).
      split; [rewrite K1; reflexivity|].
      split; [lia | rewrite K3, Eb; reflexivity].
Qed.

End CheckpointLoop.

End Py.

(** ** Script 1: predict_odd_numbers.py *)

Module OddNumbers.
Import Py.

Local Open Scope Z_scope.

(** Python numbers: [epoch_loss] starts as the int [0] and becomes a float. *)
Inductive pynum : Type :=
| NInt (z : Z)
| NFloat (f : float).

Definition to_float (n : pynum) : float :=
  match n with
  | NInt z => float_of_Z z
  | NFloat f => f
  end.

Definition pv (n : pynum) : pyval :=
  match n with
  | NInt z => PInt z
  | NFloat f => PFloat f
  end.

(** [a + b]. *)
Definition num_add (a b : pynum) : pynum :=
  match a, b with
  | NInt x, NInt y => NInt (x + y)
  | _, _ => NFloat (PrimFloat.add (to_float a) (to_float b))
  end.

(** [a / n] for an int [n]: true division; a zero divisor raises for ints
    and floats alike. *)
Definition num_div (a : pynum) (n : Z) : prog pynum :=
  if n =? 0 then Throw ZeroDivisionError
  else Ret (NFloat (PrimFloat.div (to_float a) (float_of_Z n))).

(** [a < b]. *)
Definition num_lt (a b : pynum) : bool :=
  match a, b with
  | NInt x, NInt y => x <? y
  | _, _ => PrimFloat.ltb (to_float a) (to_float b)
  end.

(** [numpy.arange(start, stop, step)] on integers, for a positive step. *)
Definition arange (start stop step : Z) : list Z :=
  map (fun k => start + Z.of_nat k * step)
      (seq 0 (Z.to_nat ((stop - start + step - 1) / step))).

(** The body of the batch loop of [train] (lines 15-24). *)
Definition train_batch (model criterion optimizer : obj) (batch : obj * obj)
    (epoch_loss : pynum) : prog pynum :=
  (let '(src, tgt) := batch in
   src <- call RObj Tensor_transpose [PObj src; PInt 1; PInt 0] ;;
   src <- call RObj Tensor_cuda [PObj src] ;;
   tgt <- call RObj Tensor_transpose [PObj tgt; PInt 1; PInt 0] ;;
   tgt <- call RObj Tensor_cuda [PObj tgt] ;;
   call RUnit Optimizer_zero_grad [PObj optimizer] ;;;
   tgt_in <- call RObj Tensor_getitem
               [PObj tgt; PSlice None (Some (-1)); PSlice None None] ;;
   output <- call RObj Module_call [PObj model; PObj src; PObj tgt_in] ;;
   n <- call RInt Tensor_shape_getitem [PObj output; PInt (-1)] ;;
   out2 <- call RObj Tensor_reshape [PObj output; PInt (-1); PInt n] ;;
   tgt_out <- call RObj Tensor_getitem
                [PObj tgt; PSlice (Some 1) None; PSlice None None] ;;
   tgt2 <- call RObj Tensor_reshape [PObj tgt_out; PInt (-1)] ;;
   loss <- call RObj Module_call [PObj criterion; PObj out2; PObj tgt2] ;;
   call RUnit Tensor_backward [PObj loss] ;;;
   params <- call RObj Module_parameters [PObj model] ;;
   call RObj clip_grad_norm_ [PObj params; PFloat 1.0] ;;;
   call RUnit Optimizer_step [PObj optimizer] ;;;
   l <- call RFloat Tensor_item [PObj loss] ;;
   Ret (num_add epoch_loss (NFloat l)))%prog.

(** [train] (lines 11-25). *)
Definition train (model criterion optimizer loader : obj) : prog pynum :=
  (call RUnit Module_train [PObj model] ;;;
   let epoch_loss := NInt 0 in
   batches <- call RBatches DataLoader_iter [PObj loader] ;;
   epoch_loss <- for_each batches (train_batch model criterion optimizer)
                   epoch_loss ;;
   n <- call RInt builtin_len [PObj loader] ;;
   num_div epoch_loss n)%prog.

(** The body of the batch loop of [validation] (lines 33-38). *)
Definition validation_batch (model criterion : obj) (batch : obj * obj)
    (epoch_loss : pynum) : prog pynum :=
  (let '(src, tgt) := batch in
   src <- call RObj Tensor_transpose [PObj src; PInt 1; PInt 0] ;;
   src <- call RObj Tensor_cuda [PObj src] ;;
   tgt <- call RObj Tensor_transpose [PObj tgt; PInt 1; PInt 0] ;;
   tgt <- call RObj Tensor_cuda [PObj tgt] ;;
   tgt_in <- call RObj Tensor_getitem
               [PObj tgt; PSlice None (Some (-1)); PSlice None None] ;;
   output <- call RObj Module_call [PObj model; PObj src; PObj tgt_in] ;;
   n <- call RInt Tensor_shape_getitem [PObj output; PInt (-1)] ;;
   out2 <- call RObj Tensor_reshape [PObj output; PInt (-1); PInt n] ;;
   tgt_out <- call RObj Tensor_getitem
                [PObj tgt; PSlice (Some 1) None; PSlice None None] ;;
   tgt2 <- call RObj Tensor_reshape [PObj tgt_out; PInt (-1)] ;;
   loss <- call RObj Module_call [PObj criterion; PObj out2; PObj tgt2] ;;
   l <- call RFloat Tensor_item [PObj loss] ;;
   Ret (num_add epoch_loss (NFloat l)))%prog.

(** [validation] (lines 28-39). *)
Definition validation (model criterion loader : obj) : prog pynum :=
  (call RUnit Module_eval [PObj model] ;;;
   let epoch_loss := NInt 0 in
   epoch_loss <- no_grad
     (batches <- call RBatches DataLoader_iter [PObj loader] ;;
      for_each batches (validation_batch model criterion) epoch_loss) ;;
   n <- call RInt builtin_len [PObj loader] ;;
   num_div epoch_loss n)%prog.

(** The source tokens and the target tokens of one test (lines 48, 50). *)
Definition cpu_src (s : Z) (max_len : nat) : list Z :=
  map (fun j => (s + Z.of_nat j) * 2) (range max_len).

Definition test_tgt (s : Z) (max_len : nat) : list Z :=
  0 :: map (fun j => (s + Z.of_nat j) * 2 + 1) (range max_len).

(** One pass of the decoding loop (lines 53-56). *)
Definition decode_step (model src : obj) (j : nat) (pred : list Z)
  : prog (list Z) :=
  (t <- call RObj LongTensor [PList (map PInt pred)] ;;
   t <- call RObj Tensor_unsqueeze [PObj t; PInt 1] ;;
   inp <- call RObj Tensor_cuda [PObj t] ;;
   output <- call RObj Module_call [PObj model; PObj src; PObj inp] ;;
   am <- call RObj Tensor_argmax [PObj output; PInt 2] ;;
   last <- call RObj Tensor_getitem [PObj am; PInt (-1)] ;;
   out_num <- call RInt Tensor_item [PObj last] ;;
   Ret (pred ++ [out_num]))%prog.

(** Lines 51-56: [pred = [0]] and the decoding loop. *)
Definition decode (model src : obj) (max_len : nat) : prog (list Z) :=
  for_each (range max_len) (decode_step model src) [0].

(** One pass of the test loop (lines 47-59). *)
Definition test_once (model : obj) (max_len : nat) (i : nat) (_ : unit)
  : prog unit :=
  (s <- call RInt numpy_random_randint [PInt 1; PInt 4998] ;;
   let cpu_src := cpu_src s max_len in
   t <- call RObj LongTensor [PList (map PInt cpu_src)] ;;
   t <- call RObj Tensor_unsqueeze [PObj t; PInt 1] ;;
   src <- call RObj Tensor_cuda [PObj t] ;;
   let tgt := test_tgt s max_len in
   pred <- decode model src max_len ;;
   call RUnit builtin_print [PStr "input: "; PList (map PInt cpu_src)] ;;;
   call RUnit builtin_print [PStr "target: "; PList (map PInt tgt)] ;;;
   call RUnit builtin_print [PStr "predict: "; PList (map PInt pred)])%prog.

(** [test] (lines 42-59). *)
Definition test (model : obj) (max_len test_times : nat) : prog unit :=
  (model <- call RObj Module_cuda [PObj model] ;;
   call RUnit Module_eval [PObj model] ;;;
   no_grad (for_each (range test_times) (test_once model max_len) tt))%prog.

(** The checkpoint file name of line 98. *)
Definition checkpoint_name (epoch_loss_val : pynum) : pyval :=
  PFormat "model/model_{0:.5f}.pt" [pv epoch_loss_val].

(** The body of the epoch loop of [main] (lines 89-99), on the loop's
    variables [best_loss] and [model_name]. *)
Definition epoch_body (model criterion optimizer train_loader val_loader : obj)
    (i : nat) (st : pynum * pyval) : prog (pynum * pyval) :=
  (let '(best_loss, model_name) := st in
   epoch_loss <- train model criterion optimizer train_loader ;;
   epoch_loss_val <- validation model criterion val_loader ;;
   call RUnit builtin_print
     [PFormat "epoch: {} train loss: {}" [PInt (Z.of_nat i); pv epoch_loss]] ;;;
   call RUnit builtin_print
     [PFormat "epoch: {} val loss: {}" [PInt (Z.of_nat i); pv epoch_loss_val]] ;;;
   if num_lt epoch_loss_val best_loss then
     let best_loss := epoch_loss_val in
     let model_name := checkpoint_name epoch_loss_val in
     sd <- call RObj Module_state_dict [PObj model] ;;
     call RUnit torch_save [PObj sd; model_name] ;;;
     Ret (best_loss, model_name)
   else Ret (best_loss, model_name))%prog.

Definition voc_size : Z := 10000.
Definition epochs : nat := 100.

(** The epoch loop of [main] (lines 87-99); returns [best_loss] and
    [model_name] as the last epoch leaves them. *)
Definition training_loop (model criterion optimizer train_loader val_loader : obj)
    (model_name : pyval) : prog (pynum * pyval) :=
  let best_loss := NInt 40 in
  for_each (range epochs)
    (epoch_body model criterion optimizer train_loader val_loader)
    (best_loss, model_name).

(** [main] (lines 62-100). *)
Definition main (model_name : pyval) (hidden nlayers : Z) : prog pyval :=
  (let inp := arange 2 voc_size 2 in
   let tgt := arange 3 voc_size 2 in
   let batch_size := 128 in
   dataset <- call RObj NumberLoader
                [PList (map PInt inp); PList (map PInt tgt)] ;;
   n <- call RInt builtin_len [PObj dataset] ;;
   train_len <- int_of_float (PrimFloat.mul (float_of_Z n) 0.9) ;;
   n <- call RInt builtin_len [PObj dataset] ;;
   let val_len := n - train_len in
   '(train_set, val_set) <- call RPair random_split
                              [PObj dataset; PList [PInt train_len; PInt val_len]] ;;
   train_loader <- call RObj DataLoader
                     [PObj train_set; PKw "batch_size" (PInt batch_size);
                      PKw "shuffle" (PBool true); PKw "num_workers" (PInt 1)] ;;
   val_loader <- call RObj DataLoader
                   [PObj val_set; PKw "batch_size" (PInt batch_size);
                    PKw "shuffle" (PBool true); PKw "num_workers" (PInt 1)] ;;
   model <- call RObj TransformerModel
              [PInt voc_size; PInt voc_size; PKw "hidden" (PInt hidden);
               PKw "nlayers" (PInt nlayers)] ;;
   match model_name with
   | PNone => Ret tt
   | _ => sd <- call RObj torch_load [model_name] ;;
          call RUnit Module_load_state_dict [PObj model; PObj sd]
   end ;;;
   model <- call RObj Module_cuda [PObj model] ;;
   params <- call RObj Module_parameters [PObj model] ;;
   optimizer <- call RObj optim_Adam [PObj params] ;;
   criterion <- call RObj nn_CrossEntropyLoss [] ;;
   st <- training_loop model criterion optimizer train_loader val_loader
           model_name ;;
   Ret (snd st))%prog.

(** The parser of lines 104-107. *)
Definition parse_cli : prog Namespace :=
  (parser <- call RObj ArgumentParser
               [PKw "description"
                  (PStr "A PyTorch Transformer Language Model for Predicting Odd Numbers")] ;;
   call RUnit add_argument
     [PObj parser; PStr "--test_model"; PKw "type" (PType "str");
      PKw "help" (PStr "the model file to load")] ;;;
   call RUnit add_argument
     [PObj parser; PStr "--train_model"; PKw "type" (PType "str");
      PKw "help" (PStr "the model file to load")] ;;;
   call RArgs parse_args [PObj parser])%prog.

(** Lines 121-123: build the model, load the checkpoint, test. *)
Definition load_and_test (model_name : pyval) (hidden nlayers : Z) : prog unit :=
  (model <- call RObj TransformerModel
              [PInt 10000; PInt 10000; PKw "hidden" (PInt hidden);
               PKw "nlayers" (PInt nlayers)] ;;
   sd <- call RObj torch_load [model_name] ;;
   call RUnit Module_load_state_dict [PObj model; PObj sd] ;;;
   test model 3 10)%prog.

(** The [__main__] block (lines 103-123). *)
Definition script : prog unit :=
  (args <- parse_cli ;;
   let hidden := 128 in
   let nlayers := 2 in
   model_name <-
     match test_model args with
     | None =>
         match train_model args with
         | Some path => main (PStr path) hidden nlayers
         | None => main PNone hidden nlayers
         end
     | Some path => Ret (PStr path)
     end ;;
   load_and_test model_name hidden nlayers)%prog.

Arguments arange : simpl never.

(** *** The data: even inputs, odd targets *)

Lemma nth_map_seq {X} (g : nat -> X) (n i : nat) (d : X) :
  (i < n)%nat -> nth i (map g (seq 0 n)) d = g i.
Proof.
  intros Hi. rewrite nth_indep with (d' := g 0%nat)
    by (rewrite length_map, length_seq; exact Hi).
  rewrite map_nth, seq_nth by exact Hi. reflexivity.
Qed.

Lemma arange_evens : arange 2 voc_size 2 = map (fun k => 2 * Z.of_nat k + 2) (seq 0 4999).
Proof.
  unfold arange. replace (Z.to_nat ((voc_size - 2 + 2 - 1) / 2)) with 4999%nat
    by reflexivity.
  apply map_ext. intros k. lia.
Qed.

Lemma arange_odds : arange 3 voc_size 2 = map (fun k => 2 * Z.of_nat k + 3) (seq 0 4999).
Proof.
  unfold arange. replace (Z.to_nat ((voc_size - 3 + 2 - 1) / 2)) with 4999%nat
    by reflexivity.
  apply map_ext. intros k. lia.
Qed.

(** C2. The input array of [main] is exactly the even numbers 2..9998 and the
    target array exactly the odd numbers 3..9999, in increasing order, each
    target being its input plus one; these two arrays are what [main] hands
    to [NumberLoader]; and in [test] the j-th target token after the leading
    0 is the j-th source token plus one. *)
Theorem even_inputs_odd_targets :
  let inp := arange 2 voc_size 2 in
  let tgt := arange 3 voc_size 2 in
  inp = map (fun k => 2 * Z.of_nat k + 2) (seq 0 4999) /\
  tgt = map (fun k => 2 * Z.of_nat k + 3) (seq 0 4999) /\
  (forall z, In z inp <-> 2 <= z <= 9998 /\ Z.even z = true) /\
  (forall z, In z tgt <-> 3 <= z <= 9999 /\ Z.odd z = true) /\
  length inp = 4999%nat /\ length tgt = 4999%nat /\
  (forall i, (i < 4999)%nat -> nth i tgt 0 = nth i inp 0 + 1) /\
  (forall s max_len j, (j < max_len)%nat ->
     nth (S j) (test_tgt s max_len) 0 = nth j (cpu_src s max_len) 0 + 1) /\
  (forall W (h : handler W) w model_name hidden nlayers,
     exists res rest,
       calls (run h (main model_name hidden nlayers) w) =
       EvCall RObj NumberLoader [PList (map PInt inp); PList (map PInt tgt)] res
       :: rest).
Proof.
  intros inp tgt. subst inp tgt. rewrite arange_evens, arange_odds.
  split; [reflexivity|]. split; [reflexivity|].
  split.
  { intros z. rewrite in_map_iff. split.
    - intros [k [<- Hk]]. apply in_seq in Hk. split; [lia|].
      apply Z.even_spec. exists (Z.of_nat k + 1). lia.
    - intros [Hz Hev]. apply Z.even_spec in Hev. destruct Hev as [m Hm].
      exists (Z.to_nat (m - 1)). split; [lia|]. apply in_seq. lia. }
  split.
  { intros z. rewrite in_map_iff. split.
    - intros [k [<- Hk]]. apply in_seq in Hk. split; [lia|].
      apply Z.odd_spec. exists (Z.of_nat k + 1). lia.
    - intros [Hz Hod]. apply Z.odd_spec in Hod. destruct Hod as [m Hm].
      exists (Z.to_nat (m - 1)). split; [lia|]. apply in_seq. lia. }
  split; [rewrite length_map, length_seq; reflexivity|].
  split; [rewrite length_map, length_seq; reflexivity|].
  split.
  { intros i Hi. rewrite !nth_map_seq by exact Hi. lia. }
  split.
  { intros s max_len j Hj. unfold test_tgt, cpu_src, range. cbn [nth].
    rewrite !nth_map_seq by exact Hj. reflexivity. }
  intros W h w model_name hidden nlayers.
  unfold main. rewrite arange_evens, arange_odds. cbv zeta.
  rewrite run_bind. unfold call at 1. cbn [run].
  destruct (h_call h RObj NumberLoader _ w) as [[dataset | e] w1].
  - match goal with
    | |- context [run h ?p w1] => destruct (run h p w1) as [[out w2] tr]
    end.
    destruct out; eexists; eexists; reflexivity.
  - eexists; eexists; reflexivity.
Qed.

(** *** [test]: the source tokens and greedy decoding *)

(** What [numpy.random.randint(lo, hi)] guarantees: [lo <= s < hi]. *)
Definition randint_in_range {W} (h : handler W) : Prop :=
  forall lo hi w s w',
    h_call h RInt numpy_random_randint [PInt lo; PInt hi] w = (Ok s, w') ->
    lo <= s < hi.

Lemma cpu_src_bounds (s : Z) :
  1 <= s <= 4997 ->
  Forall (fun v => 2 <= v <= 9998 /\ 0 <= v < voc_size) (cpu_src s 3).
Proof.
  intros Hs. unfold cpu_src, range, voc_size. simpl.
  repeat constructor; lia.
Qed.

(** C10, as the code has it. Every test starts by drawing [s] with
    [1 <= s <= 4997] and building the source tensor from
    [[(s + j) * 2 for j in range(3)]]; each of these tokens lies in
    [2, 9998], hence is a valid index into the vocabulary of size 10000. *)
Theorem source_tokens_in_vocabulary {W} (h : handler W) (w : W)
    (model : obj) (i : nat) :
  randint_in_range h ->
  (exists e,
      calls (run h (test_once model 3 i tt) w) =
      [EvCall RInt numpy_random_randint [PInt 1; PInt 4998] (Raise e)]) \/
  (exists s res rest,
      calls (run h (test_once model 3 i tt) w) =
      EvCall RInt numpy_random_randint [PInt 1; PInt 4998] (Ok s)
      :: EvCall RObj LongTensor [PList (map PInt (cpu_src s 3))] res
      :: rest /\
      1 <= s <= 4997 /\
      Forall (fun v => 2 <= v <= 9998 /\ 0 <= v < voc_size) (cpu_src s 3)).
Proof.
  intros Hrand. unfold test_once. rewrite run_bind_call.
  destruct (h_call h RInt numpy_random_randint [PInt 1; PInt 4998] w)
    as [[s | e] w1] eqn:Es.
  - right. apply Hrand in Es. cbv beta zeta.
    rewrite run_bind_call.
    destruct (h_call h RObj LongTensor _ w1) as [[t | e] w2].
    + destruct (run h _ w2) as [[out w3] tr].
      exists s. destruct out; eexists; eexists;
        (split; [reflexivity | split; [lia | apply cpu_src_bounds; lia]]).
    + exists s. eexists. eexists.
      split; [reflexivity | split; [lia | apply cpu_src_bounds; lia]].
  - left. exists e. reflexivity.
Qed.

Lemma plain_handler_randint : randint_in_range plain_handler.
Proof.
  intros lo hi w s w' H. simpl in H.
  destruct (lo <? hi) eqn:E; inversion H; subst. apply Z.ltb_lt in E. lia.
Qed.

Lemma source_tokens_in_vocabulary_witness :
  (exists e,
      calls (run plain_handler (test_once 0%nat 3 0 tt) tt) =
      [EvCall RInt numpy_random_randint [PInt 1; PInt 4998] (Raise e)]) \/
  (exists s res rest,
      calls (run plain_handler (test_once 0%nat 3 0 tt) tt) =
      EvCall RInt numpy_random_randint [PInt 1; PInt 4998] (Ok s)
      :: EvCall RObj LongTensor [PList (map PInt (cpu_src s 3))] res
      :: rest /\
      1 <= s <= 4997 /\
      Forall (fun v => 2 <= v <= 9998 /\ 0 <= v < voc_size) (cpu_src s 3)).
Proof.
  apply (source_tokens_in_vocabulary plain_handler tt 0%nat 0).
  exact plain_handler_randint.
Defined.

(** The draw [s = 1] is possible and gives the source tokens 2, 4, 6: the
    first one is below 4. *)
Lemma source_token_below_four :
  1 <= 1 <= 4997 /\
  (exists rest,
      calls (run plain_handler (test_once 0%nat 3 0 tt) tt) =
      EvCall RInt numpy_random_randint [PInt 1; PInt 4998] (Ok 1)
      :: EvCall RObj LongTensor [PList [PInt 2; PInt 4; PInt 6]] (Ok 0%nat)
      :: rest) /\
  cpu_src 1 3 = [2; 4; 6] /\
  ~ (forall s j, 1 <= s <= 4997 -> (j < 3)%nat ->
                 4 <= nth j (cpu_src s 3) 0 <= 9998).
Proof.
  split; [lia|]. split; [eexists; reflexivity|]. split; [reflexivity|].
  intros H. specialize (H 1 0%nat). simpl in H. lia.
Qed.

(** The seven calls of one decoding pass that starts from [pred], with the
    objects the framework answered and the token it returned. *)
Definition decode_step_events (model src : obj) (pred : list Z)
    (objs : obj * obj * obj * obj * obj * obj) (out_num : Z) : trace :=
  let '(t1, t2, inp, output, am, last) := objs in
  [EvCall RObj LongTensor [PList (map PInt pred)] (Ok t1);
   EvCall RObj Tensor_unsqueeze [PObj t1; PInt 1] (Ok t2);
   EvCall RObj Tensor_cuda [PObj t2] (Ok inp);
   EvCall RObj Module_call [PObj model; PObj src; PObj inp] (Ok output);
   EvCall RObj Tensor_argmax [PObj output; PInt 2] (Ok am);
   EvCall RObj Tensor_getitem [PObj am; PInt (-1)] (Ok last);
   EvCall RInt Tensor_item [PObj last] (Ok out_num)].

Lemma decode_loop {W} (h : handler W) (model src : obj) (l : list nat) :
  forall (pred0 : list Z) (w : W),
    first_failure (calls (run h (for_each l (decode_step model src) pred0) w)) = None ->
    exists pred steps,
      outcome (run h (for_each l (decode_step model src) pred0) w) = Ok pred /\
      length pred = (length pred0 + length l)%nat /\
      firstn (length pred0) pred = pred0 /\
      length steps = length l /\
      calls (run h (for_each l (decode_step model src) pred0) w) =
      concat (map (fun '(j, objs) =>
                     decode_step_events model src (firstn j pred) objs (nth j pred 0))
                  (combine (seq (length pred0) (length l)) steps)).
Proof.
  induction l as [| x l IH]; intros pred0 w Hnf.
  - exists pred0, []. simpl. repeat split.
    + lia.
    + apply firstn_all.
  - cbn [for_each] in *. unfold decode_step in *.
    rewrite run_bind in *.
    set (step := (t <- call RObj LongTensor [PList (map PInt pred0)] ;;
                  t <- call RObj Tensor_unsqueeze [PObj t; PInt 1] ;;
                  inp <- call RObj Tensor_cuda [PObj t] ;;
                  output <- call RObj Module_call [PObj model; PObj src; PObj inp] ;;
                  am <- call RObj Tensor_argmax [PObj output; PInt 2] ;;
                  last <- call RObj Tensor_getitem [PObj am; PInt (-1)] ;;
                  out_num <- call RInt Tensor_item [PObj last] ;;
                  Ret (pred0 ++ [out_num]))%prog) in *.
    assert (Hstep : forall e, first_failure (calls (run h step w)) = Some e -> False).
    { intros e He. destruct (run h step w) as [[[a | e'] w1] tr1]; unfold calls in *;
        simpl in *.
      - destruct (run h _ w1) as [[out w2] tr2]. simpl in Hnf.
        rewrite first_failure_app, He in Hnf. discriminate.
      - rewrite He in Hnf. discriminate. }
    assert (Hshape : exists t1 t2 inp output am last n w',
               run h step w =
               (Ok (pred0 ++ [n]), w',
                decode_step_events model src pred0 (t1, t2, inp, output, am, last) n)).
    { clear Hnf IH. unfold step in *.
      do 7 (rewrite run_bind_call in *;
            match goal with
            | |- context [h_call h ?r ?f ?a ?w0] =>
                destruct (h_call h r f a w0) as [[? | e] ?];
                [| exfalso; apply (Hstep e); reflexivity]
            end).
      simpl. do 8 eexists. reflexivity. }
    destruct Hshape as (t1 & t2 & inp & output & am & last & n & w' & Es).
    rewrite Es in *. clear Hstep.
    specialize (IH (pred0 ++ [n]) w').
    destruct (run h (for_each l _ (pred0 ++ [n])) w') as [[out w2] tr2] eqn:Er.
    unfold calls, outcome in *. simpl in Hnf, IH |- *.
    destruct IH as (pred & steps & Eo & Lp & Fp & Ls & Etr); [exact Hnf|].
    rewrite length_app in Lp, Fp. simpl in Lp, Fp.
    assert (Fp0 : firstn (length pred0) pred = pred0).
    { replace (firstn (length pred0) pred)
        with (firstn (length pred0) (firstn (length pred0 + 1) pred))
        by (rewrite firstn_firstn; f_equal; lia).
      rewrite Fp, firstn_app, Nat.sub_diag, firstn_all. simpl. apply app_nil_r. }
    assert (Np : nth (length pred0) pred 0 = n).
    { rewrite <- (firstn_skipn (length pred0 + 1) pred), Fp.
      rewrite app_nth1 by (rewrite length_app; simpl; lia).
      rewrite app_nth2 by lia. rewrite Nat.sub_diag. reflexivity. }
    exists pred, ((t1, t2, inp, output, am, last) :: steps).
    split; [exact Eo|]. split; [lia|]. split; [exact Fp0|].
    split; [simpl; lia|].
    cbn [length seq combine map concat]. rewrite Fp0, Np, Etr, length_app.
    cbn [length]. rewrite Nat.add_1_r. reflexivity.
Qed.

(** C3. Decoding starts from [pred = [0]] and runs exactly [max_len] passes;
    pass [j] (counting from 1) builds the decoder input from the first [j]
    tokens of the final [pred], calls the model on it together with the fixed
    source, and appends as token [j] the item at the last position of the
    argmax over dimension 2 of the model output; earlier tokens are never
    changed (every intermediate sequence is a prefix of the final one), the
    final [pred] has [max_len + 1] tokens and still starts with 0. *)
Theorem greedy_decoding {W} (h : handler W) (w : W) (model src : obj)
    (max_len : nat) :
  first_failure (calls (run h (decode model src max_len) w)) = None ->
  exists pred steps,
    outcome (run h (decode model src max_len) w) = Ok pred /\
    length pred = (max_len + 1)%nat /\
    hd_error pred = Some 0 /\
    length steps = max_len /\
    calls (run h (decode model src max_len) w) =
    concat (map (fun '(j, objs) =>
                   decode_step_events model src (firstn j pred) objs (nth j pred 0))
                (combine (seq 1 max_len) steps)).
Proof.
  intros Hnf. unfold decode, range in *.
  destruct (decode_loop h model src (seq 0 max_len) [0] w Hnf)
    as (pred & steps & Eo & Lp & Fp & Ls & Etr).
  rewrite length_seq in *. simpl in Lp, Fp.
  exists pred, steps. split; [exact Eo|]. split; [lia|].
  split; [destruct pred; [discriminate Lp | simpl in Fp |- *; congruence]|].
  split; [exact Ls | exact Etr].
Qed.

Lemma greedy_decoding_witness :
  exists pred steps,
    outcome (run plain_handler (decode 7%nat 8%nat 3) tt) = Ok pred /\
    length pred = (3 + 1)%nat /\
    hd_error pred = Some 0 /\
    length steps = 3%nat /\
    calls (run plain_handler (decode 7%nat 8%nat 3) tt) =
    concat (map (fun '(j, objs) =>
                   decode_step_events 7%nat 8%nat (firstn j pred) objs (nth j pred 0))
                (combine (seq 1 3) steps)).
Proof.
  apply (greedy_decoding plain_handler tt 7%nat 8%nat 3). reflexivity.
Defined.

(** *** [train] and [validation]: the average of the batch losses *)

Lemma fold_num_add_float (ls : list float) (a : float) :
  fold_left num_add (map NFloat ls) (NFloat a) = NFloat (fold_left PrimFloat.add ls a).
Proof.
  revert a. induction ls as [| l ls IH]; intros a; simpl; [reflexivity|].
  apply IH.
Qed.

Lemma to_float_sum (ls : list float) :
  to_float (fold_left num_add (map NFloat ls) (NInt 0)) =
  fold_left PrimFloat.add ls PrimFloat.zero.
Proof.
  destruct ls as [| l ls]; [reflexivity|]. simpl.
  rewrite fold_num_add_float. reflexivity.
Qed.


Lemma validation_batch_step {W} (h : handler W) (model criterion : obj)
    (b : obj * obj) (acc : pynum) (w : W) :
  first_failure (calls (run h (validation_batch model criterion b acc) w)) = None ->
  exists l,
    outcome (run h (validation_batch model criterion b acc) w)
    = Ok (num_add acc (NFloat l)) /\
    select (pick_float is_item)
      (calls (run h (validation_batch model criterion b acc) w)) = [l].
Proof.
  intros Hnf.
  assert (Hf : forall e, first_failure
                 (calls (run h (validation_batch model criterion b acc) w))
               = Some e -> False)
    by (intros e He; rewrite He in Hnf; discriminate).
  clear Hnf. destruct b as [src tgt]. unfold validation_batch in *.
  do 12 answer_call h Hf.
  simpl. eexists. split; reflexivity.
Qed.

(** A batch loop whose every pass adds one answered loss. *)
Lemma loss_loop {W} (h : handler W) (body : obj * obj -> pynum -> prog pynum) :
  (forall b acc w,
      first_failure (calls (run h (body b acc) w)) = None ->
      exists l, outcome (run h (body b acc) w) = Ok (num_add acc (NFloat l)) /\
                select (pick_float is_item) (calls (run h (body b acc) w)) = [l]) ->
  forall batches acc w,
    first_failure (calls (run h (for_each batches body acc) w)) = None ->
    length (select (pick_float is_item) (calls (run h (for_each batches body acc) w)))
    = length batches /\
    outcome (run h (for_each batches body acc) w) =
    Ok (fold_left num_add
          (map NFloat (select (pick_float is_item)
                         (calls (run h (for_each batches body acc) w))))
          acc).
Proof.
  intros Hstep batches. induction batches as [| b batches IH]; intros acc w Hnf.
  - simpl. split; reflexivity.
  - cbn [for_each] in *. rewrite run_bind in *.
    specialize (Hstep b acc w).
    destruct (run h (body b acc) w) as [[[a | e] w1] tr1]; unfold calls, outcome in *;
      simpl in Hstep.
    + specialize (IH a w1).
      destruct (run h (for_each batches body a) w1) as [[out w2] tr2].
      simpl in *. rewrite first_failure_app in Hnf.
      destruct (first_failure tr1); [discriminate|].
      destruct Hstep as [l [Ea El]]; [reflexivity|].
      destruct (IH Hnf) as [Len Eout].
      rewrite select_app, El. simpl. split; [lia|].
      inversion Ea; subst a. exact Eout.
    + simpl in Hnf. destruct Hstep as [l [Ea _]]; [exact Hnf | discriminate].
Qed.

(** The value both functions return for accumulated losses [losses] and the
    answer [n] of [len(loader)]. *)
Definition mean_loss (losses : list float) (n : Z) : result pynum :=
  if n =? 0 then Raise ZeroDivisionError
  else Ok (NFloat (PrimFloat.div (fold_left PrimFloat.add losses PrimFloat.zero)
                                 (float_of_Z n))).

Lemma run_num_div {W} (h : handler W) (losses : list float) (n : Z) (w : W) :
  run h (num_div (fold_left num_add (map NFloat losses) (NInt 0)) n) w =
  (mean_loss losses n, w, []).
Proof.
  unfold num_div, mean_loss. destruct (n =? 0); [reflexivity|].
  simpl. rewrite to_float_sum. reflexivity.
Qed.


Lemma validation_mean {W} (h : handler W) (w : W) (model criterion loader : obj) :
  first_failure (calls (run h (validation model criterion loader) w)) = None ->
  exists batches n,
    let tr := calls (run h (validation model criterion loader) w) in
    let losses := select (pick_float is_item) tr in
    In (EvCall RBatches DataLoader_iter [PObj loader] (Ok batches)) tr /\
    In (EvCall RInt builtin_len [PObj loader] (Ok n)) tr /\
    length losses = length batches /\
    outcome (run h (validation model criterion loader) w) = mean_loss losses n.
Proof.
  intros Hnf.
  assert (Hf : forall e, first_failure
                 (calls (run h (validation model criterion loader) w))
               = Some e -> False)
    by (intros e He; rewrite He in Hnf; discriminate).
  clear Hnf. unfold validation in *. cbv zeta in *.
  answer_call_as h Hf u w0.
  rewrite run_bind in *. unfold no_grad in *. cbn [run] in *.
  rewrite run_bind_call in *.
  destruct (h_call h RBatches DataLoader_iter [PObj loader] (h_enter h w0))
    as [[batches | e] w1]; [| exfalso; apply (Hf e); reflexivity].
  pose proof (loss_loop h (validation_batch model criterion)
                (validation_batch_step h model criterion) batches (NInt 0) w1)
    as Hloop.
  destruct (run h (for_each batches _ (NInt 0)) w1) as [[[acc | e] w2] tr1];
    unfold calls, outcome in *; simpl in Hloop.
  - assert (N1 : first_failure tr1 = None).
    { destruct (first_failure tr1) as [e |] eqn:E1; [| reflexivity].
      exfalso. apply (Hf e). cbn [run].
      destruct (run h _ (h_exit h w2)) as [[out w3] tr2]. simpl.
      rewrite !first_failure_app, E1. reflexivity. }
    destruct (Hloop N1) as [Len Eacc]. inversion Eacc; subst acc. clear Eacc.
    cbn [run] in *.
    answer_call_as h Hf n w3.
    rewrite run_num_div. exists batches, n. simpl.
    rewrite !select_app. simpl. rewrite !app_nil_r.
    split; [right; right; left; reflexivity|].
    split; [right; right; right; apply in_or_app; right; left; reflexivity|].
    split; [exact Len | reflexivity].
  - exfalso. simpl in Hf.
    destruct (first_failure tr1) as [e' |] eqn:E1.
    + apply (Hf e'). rewrite first_failure_app, E1. reflexivity.
    + destruct (Hloop eq_refl) as [_ Habs]. discriminate.
Qed.

(** *** The command line *)


Definition is_load (f : fn) : bool :=
  match f with torch_load => true | _ => false end.



Lemma train_uses (P : fn -> bool) (model criterion optimizer loader : obj) :
  (forall f, P f = false -> is_load f = true \/ f = builtin_print \/ f = torch_save) ->
  uses P (train model criterion optimizer loader).
Proof.
  intros HP.
  assert (G : forall f, is_load f = false -> f <> builtin_print -> f <> torch_save ->
                        P f = true).
  { intros f H1 H2 H3. destruct (P f) eqn:E; [reflexivity|].
    destruct (HP f E) as [K | [K | K]]; congruence. }
  unfold train, train_batch, num_div.
  repeat first [ uses_step
               | apply uses_call; apply G; [reflexivity | discriminate | discriminate] ].
Qed.

Lemma validation_uses (P : fn -> bool) (model criterion loader : obj) :
  (forall f, P f = false -> is_load f = true \/ f = builtin_print \/ f = torch_save) ->
  uses P (validation model criterion loader).
Proof.
  intros HP.
  assert (G : forall f, is_load f = false -> f <> builtin_print -> f <> torch_save ->
                        P f = true).
  { intros f H1 H2 H3. destruct (P f) eqn:E; [reflexivity|].
    destruct (HP f E) as [K | [K | K]]; congruence. }
  unfold validation, validation_batch, num_div.
  repeat first [ uses_step
               | apply uses_call; apply G; [reflexivity | discriminate | discriminate] ].
Qed.



(** *** The epoch loop of [main] *)

(** The validation loss printed by line 95. *)
Definition pick_val_loss (ev : event) : option float :=
  match ev with
  | EvCall _ builtin_print [PFormat fmt [PInt _; PFloat v]] (Ok _) =>
      if String.eqb fmt "epoch: {} val loss: {}" then Some v else None
  | _ => None
  end.

Lemma pick_val_loss_no_report (ev : event) :
  allowed no_report ev -> pick_val_loss ev = None.
Proof.
  destruct ev as [r f args res | |]; try reflexivity.
  destruct f; simpl; intros H; try discriminate H; reflexivity.
Qed.

Definition best_of (st : pynum * pyval) : float := to_float (fst st).

Definition mark (k : nat) (v : float) : pyval := checkpoint_name (NFloat v).

Lemma no_report_cases (f : fn) :
  no_report f = false -> is_load f = true \/ f = builtin_print \/ f = torch_save.
Proof. destruct f; simpl; intros H; try discriminate H; auto. Qed.

Lemma validation_returns_float {W} (h : handler W) (w : W)
    (model criterion loader : obj) (x : pynum) :
  outcome (run h (validation model criterion loader) w) = Ok x ->
  exists v, x = NFloat v.
Proof.
  intros Ho. pose proof (run_ok_no_failure h _ w x Ho) as Hnf.
  destruct (validation_mean h w model criterion loader Hnf)
    as (batches & n & _ & _ & _ & Em).
  rewrite Ho in Em. unfold mean_loss in Em.
  destruct (n =? 0); [discriminate Em|]. inversion Em. eexists. reflexivity.
Qed.

Lemma epoch_body_ok {W} (h : handler W)
    (model criterion optimizer train_loader val_loader : obj)
    (k : nat) (st : pynum * pyval) (w : W) :
  epoch_ok best_of pick_val_loss saved_name mark k st
    (run h (epoch_body model criterion optimizer train_loader val_loader k st) w).
Proof.
  destruct st as [best name]. unfold epoch_ok, epoch_body. cbv zeta.
  rewrite run_bind.
  pose proof (uses_run no_report h (train model criterion optimizer train_loader) w
                (train_uses no_report _ _ _ _ no_report_cases)) as UT.
  destruct (run h (train model criterion optimizer train_loader) w)
    as [[[t | e] w1] trT]; unfold calls in UT; simpl in UT.
  2:{ left. unfold outcome, calls. simpl.
      rewrite (select_none _ no_report trT pick_val_loss_no_report UT).
      rewrite (select_none _ no_report trT saved_name_no_report UT).
      split; [reflexivity|]. split; [reflexivity|]. exists e. reflexivity. }
  rewrite run_bind.
  pose proof (uses_run no_report h (validation model criterion val_loader) w1
                (validation_uses no_report _ _ _ no_report_cases)) as UV.
  pose proof (validation_returns_float h w1 model criterion val_loader) as VF.
  destruct (run h (validation model criterion val_loader) w1)
    as [[[x | e] w2] trV]; unfold calls, outcome in UV, VF; simpl in UV, VF.
  2:{ left. unfold outcome, calls. simpl. rewrite !select_app.
      rewrite (select_none _ no_report trT pick_val_loss_no_report UT).
      rewrite (select_none _ no_report trT saved_name_no_report UT).
      rewrite (select_none _ no_report trV pick_val_loss_no_report UV).
      rewrite (select_none _ no_report trV saved_name_no_report UV).
      split; [reflexivity|]. split; [reflexivity|]. exists e. reflexivity. }
  destruct (VF x eq_refl) as [v ->]. clear VF.
  assert (Sel : forall (tail : trace),
             select pick_val_loss (trT ++ trV ++ tail) = select pick_val_loss tail /\
             select saved_name (trT ++ trV ++ tail) = select saved_name tail).
  { intros tail. rewrite !select_app.
    rewrite (select_none _ no_report trT pick_val_loss_no_report UT).
    rewrite (select_none _ no_report trT saved_name_no_report UT).
    rewrite (select_none _ no_report trV pick_val_loss_no_report UV).
    rewrite (select_none _ no_report trV saved_name_no_report UV).
    split; reflexivity. }
  rewrite run_bind_call.
  destruct (h_call h RUnit builtin_print _ w2) as [[u1 | e] w3].
  2:{ left. unfold outcome, calls. simpl.
      match goal with
      | |- context [trT ++ trV ++ ?tl] => destruct (Sel tl) as [S1 S2]
      end.
      rewrite S1, S2. destruct t; simpl; (split; [reflexivity|]);
        (split; [reflexivity|]); exists e; reflexivity. }
  rewrite run_bind_call.
  destruct (h_call h RUnit builtin_print _ w3) as [[u2 | e] w4].
  2:{ left. unfold outcome, calls. simpl.
      match goal with
      | |- context [trT ++ trV ++ ?tl] => destruct (Sel tl) as [S1 S2]
      end.
      rewrite S1, S2. destruct t; simpl; (split; [reflexivity|]);
        (split; [reflexivity|]); exists e; reflexivity. }
  cbn [num_lt to_float fst pv]. unfold best_of. cbn [fst].
  destruct (PrimFloat.ltb v (to_float best)) eqn:Hlt.
  - rewrite run_bind_call.
    destruct (h_call h RObj Module_state_dict _ w4) as [[sd | e] w5].
    2:{ right. left. exists v. unfold outcome, calls. simpl.
        match goal with
        | |- context [trT ++ trV ++ ?tl] => destruct (Sel tl) as [S1 S2]
        end.
        rewrite S1, S2. destruct t; simpl; (split; [reflexivity|]);
          (split; [reflexivity|]); exists e; reflexivity. }
    rewrite run_bind_call.
    destruct (h_call h RUnit torch_save _ w5) as [[u3 | e] w6].
    2:{ right. left. exists v. unfold outcome, calls. simpl.
        match goal with
        | |- context [trT ++ trV ++ ?tl] => destruct (Sel tl) as [S1 S2]
        end.
        rewrite S1, S2. destruct t; simpl; (split; [reflexivity|]);
          (split; [reflexivity|]); exists e; reflexivity. }
    right. right. right. exists v, (NFloat v, checkpoint_name (NFloat v)).
    unfold outcome, calls. simpl.
    match goal with
    | |- context [trT ++ trV ++ ?tl] => destruct (Sel tl) as [S1 S2]
    end.
    rewrite S1, S2. destruct t; simpl; repeat split; (reflexivity || exact Hlt).
  - right. right. left. exists v, (best, name).
    unfold outcome, calls. simpl.
    match goal with
    | |- context [trT ++ trV ++ ?tl] => destruct (Sel tl) as [S1 S2]
    end.
    rewrite S1, S2. destruct t; simpl; repeat split; (reflexivity || exact Hlt).
Qed.

End OddNumbers.

(** ** Script 2: VisionTransformer_MNIST_query_key.py
    (patch visualisation, lines 107-121; model, optimiser and training loop,
    lines 216-291)

    [model(imgs)] is a framework call: [nn.Module.__call__] runs
    [VisionTransformer.forward], whose values are [ViT.forward] above. *)

Module MNIST.
Import Py.

Local Open Scope Z_scope.

Definition image_size : Z := 28.
Definition embed_dim : Z := 256.
Definition hidden_dim : Z := embed_dim * 3.
Definition num_heads : Z := 8.
Definition num_layers : Z := 6.
Definition patch_size : Z := 7.
Definition num_patches : Z := 16.
Definition num_channels : Z := 1.
Definition num_classes : Z := 10.
Definition NUM_IMAGES : nat := 4.

(** Scalars of the validation average: [best_vloss] starts as an int,
    [running_vloss] as a Python float, and both become 0-dim tensors, which
    are represented by their value. *)
Inductive scalar : Type :=
| SInt (z : Z)
| SFloat (f : float)
| STensor (f : float).

Definition value (s : scalar) : float :=
  match s with
  | SInt z => float_of_Z z
  | SFloat f => f
  | STensor f => f
  end.

(** The module-level names the training loop reads and writes. [g_i] and
    [g_loss] are [None] while the name is unbound. *)
Record globals : Type := mkGlobals {
  g_i : option nat;
  g_loss : option obj;
  g_lossi : list float;
  g_best_vloss : scalar;
  g_model_path : option pyval
}.

Section Script.

(** The framework's float32 arithmetic on 0-dim tensors. *)
Variable tensor_add : float -> float -> float.
Variable tensor_div : float -> Z -> float.

(** [running_vloss += vloss] for a tensor [vloss]. *)
Definition s_iadd (running_vloss : scalar) (vloss : float) : scalar :=
  match running_vloss with
  | STensor r => STensor (tensor_add r vloss)
  | _ => STensor (tensor_add vloss (value running_vloss))
  end.

(** [running_vloss / n] for an int [n]. *)
Definition s_div (running_vloss : scalar) (n : Z) : prog scalar :=
  match running_vloss with
  | STensor r => Ret (STensor (tensor_div r n))
  | _ => if n =? 0 then Throw ZeroDivisionError
         else Ret (SFloat (PrimFloat.div (value running_vloss) (float_of_Z n)))
  end.

(** [s.item()]: only tensors have it. *)
Definition s_item (s : scalar) : prog float :=
  match s with
  | STensor f => Ret f
  | _ => Throw (AttributeError "item")
  end.

(** [bool(a < b)]. *)
Definition s_lt (a b : scalar) : bool := PrimFloat.ltb (value a) (value b).

(** [img_to_patch] (lines 86-104) over a framework tensor. *)
Definition img_to_patch (x : obj) (patch_size : Z) (flatten_channels : bool)
  : prog obj :=
  (sh <- call RShape Tensor_shape [PObj x] ;;
   match sh with
   | [B; C; H; W] =>
       if patch_size =? 0 then Throw ZeroDivisionError else
       x <- call RObj Tensor_reshape
              [PObj x; PInt B; PInt C; PInt (H / patch_size); PInt patch_size;
               PInt (W / patch_size); PInt patch_size] ;;
       x <- call RObj Tensor_permute
              [PObj x; PInt 0; PInt 2; PInt 4; PInt 1; PInt 3; PInt 5] ;;
       x <- call RObj Tensor_flatten [PObj x; PInt 1; PInt 2] ;;
       if flatten_channels
       then call RObj Tensor_flatten [PObj x; PInt 2; PInt 4]
       else Ret x
   | _ => Throw ValueError
   end)%prog.

(** One pass of the plotting loop (lines 115-119). *)
Definition plot_patches (img_patches ax : obj) (i : nat) (_ : option nat)
  : prog (option nat) :=
  (patch <- call RObj Tensor_getitem [PObj img_patches; PInt (Z.of_nat i)] ;;
   nrow <- int_of_float (PrimFloat.div (float_of_Z image_size)
                                       (float_of_Z patch_size)) ;;
   img_grid <- call RObj make_grid
                 [PObj patch; PKw "nrow" (PInt nrow); PKw "normalize" (PBool true);
                  PKw "pad_value" (PFloat 0.9)] ;;
   img_grid <- call RObj Tensor_permute [PObj img_grid; PInt 1; PInt 2; PInt 0] ;;
   a <- call RObj ndarray_getitem [PObj ax; PInt (Z.of_nat i)] ;;
   call RObj Axes_imshow [PObj a; PObj img_grid] ;;;
   a <- call RObj ndarray_getitem [PObj ax; PInt (Z.of_nat i)] ;;
   call RObj Axes_axis [PObj a; PStr "off"] ;;;
   Ret (Some i))%prog.

(** Lines 107-121.  Returns the binding of the module-level name [i] left by
    the [for i in range(...)] loop of line 114 ([None] if it never ran). *)
Definition visualize_patches (train_set : obj) : prog (option nat) :=
  (imgs <- for_each (range NUM_IMAGES)
             (fun idx acc =>
                '(img, _) <- call RPair Dataset_getitem
                               [PObj train_set; PInt (Z.of_nat idx)] ;;
                Ret (acc ++ [img]))
             [] ;;
   train_examples <- call RObj torch_stack
                       [PList (map PObj imgs); PKw "dim" (PInt 0)] ;;
   img_patches <- img_to_patch train_examples patch_size false ;;
   n <- call RInt Tensor_shape_getitem [PObj train_examples; PInt 0] ;;
   '(fig, ax) <- call RPair plt_subplots
                   [PInt n; PInt 1; PKw "figsize" (PList [PInt 14; PInt 12])] ;;
   call RObj Figure_suptitle
     [PObj fig; PStr "Images as input sequences of patches"] ;;;
   n <- call RInt Tensor_shape_getitem [PObj train_examples; PInt 0] ;;
   i <- for_each (range (Z.to_nat n)) (plot_patches img_patches ax) None ;;
   call RUnit plt_show [] ;;;
   call RUnit plt_close [] ;;;
   Ret i)%prog.

(** One pass of the training batch loop (lines 251-266). *)
Definition train_batch (model loss_fn model_optimizer device : obj)
    (batch : obj * obj) (g : globals) : prog globals :=
  (let '(imgs, labels) := batch in
   call RUnit Module_train [PObj model; PBool true] ;;;
   imgs <- call RObj Tensor_to [PObj imgs; PObj device] ;;
   labels <- call RObj Tensor_to [PObj labels; PObj device] ;;
   call RUnit Optimizer_zero_grad [PObj model_optimizer] ;;;
   preds <- call RObj Module_call [PObj model; PObj imgs] ;;
   loss <- call RObj Module_call [PObj loss_fn; PObj preds; PObj labels] ;;
   l <- call RFloat Tensor_item [PObj loss] ;;
   call RUnit Tensor_backward [PObj loss] ;;;
   call RUnit Optimizer_step [PObj model_optimizer] ;;;
   Ret (mkGlobals (g_i g) (Some loss) (g_lossi g ++ [l]) (g_best_vloss g)
                  (g_model_path g)))%prog.

(** One pass of the validation batch loop (lines 277-282), on the loop index
    [i] and [running_vloss]. [vloss] is the 0-dim loss tensor, by value. *)
Definition validation_batch (model loss_fn device : obj)
    (item : nat * (obj * obj)) (st : option nat * scalar)
  : prog (option nat * scalar) :=
  (let '(i, (vinputs, vlabels)) := item in
   let '(_, running_vloss) := st in
   vinputs <- call RObj Tensor_to [PObj vinputs; PObj device] ;;
   vlabels <- call RObj Tensor_to [PObj vlabels; PObj device] ;;
   voutputs <- call RObj Module_call [PObj model; PObj vinputs] ;;
   vloss <- call RFloat Module_call [PObj loss_fn; PObj voutputs; PObj vlabels] ;;
   Ret (Some i, s_iadd running_vloss vloss))%prog.

(** The checkpoint file name of line 290. *)
Definition checkpoint_path (epoch : nat) : pyval :=
  PFormat "./model_VisionTransformer_MNIST_{}.pt" [PInt (Z.of_nat epoch + 1)].

(** Lines 270-284: the validation average of one epoch. *)
Definition validation_average (model loss_fn val_loader device : obj)
    (g : globals) : prog (option nat * scalar) :=
  (let running_vloss := SFloat 0 in
   call RUnit Module_eval [PObj model] ;;;
   '(i, running_vloss) <- no_grad
      (vbatches <- call RBatches DataLoader_iter [PObj val_loader] ;;
       for_each (enumerate vbatches) (validation_batch model loss_fn device)
                (g_i g, running_vloss)) ;;
   match i with
   | None => Throw (NameError "i")
   | Some i' =>
       avg_vloss <- s_div running_vloss (Z.of_nat i' + 1) ;;
       Ret (i, avg_vloss)
   end)%prog.

(** The body of the epoch loop (lines 250-291). *)
Definition epoch_body (model loss_fn model_optimizer model_scheduler
                       train_loader val_loader device : obj)
    (epoch : nat) (g : globals) : prog globals :=
  (bar <- call RObj tqdm_notebook
            [PObj train_loader;
             PKw "desc" (PFormat "epoch {}" [PInt (Z.of_nat epoch)])] ;;
   batches <- call RBatches DataLoader_iter [PObj bar] ;;
   g <- for_each batches (train_batch model loss_fn model_optimizer device) g ;;
   call RUnit Scheduler_step [PObj model_scheduler] ;;;
   '(i, avg_vloss) <- validation_average model loss_fn val_loader device g ;;
   let g := mkGlobals i (g_loss g) (g_lossi g) (g_best_vloss g) (g_model_path g) in
   l <- match g_loss g with
        | None => Throw (NameError "loss")
        | Some loss => call RFloat Tensor_item [PObj loss]
        end ;;
   v <- s_item avg_vloss ;;
   call RUnit builtin_print
     [PFormat "LOSS train {:.4f} valid {:.4f}" [PFloat l; PFloat v]] ;;;
   if s_lt avg_vloss (g_best_vloss g) then
     let model_path := checkpoint_path epoch in
     sd <- call RObj Module_state_dict [PObj model] ;;
     call RUnit torch_save [PObj sd; model_path] ;;;
     Ret (mkGlobals (g_i g) (g_loss g) (g_lossi g) avg_vloss (Some model_path))
   else Ret g)%prog.

Definition epochs : nat := 20.

(** The training loop (lines 243-291), started with the binding [i0] of the
    name [i]. *)
Definition training_loop (model loss_fn model_optimizer model_scheduler
                          train_loader val_loader device : obj)
    (i0 : option nat) : prog globals :=
  let lossi := [] in
  let best_vloss := SInt 1000000 in
  for_each (range epochs)
    (epoch_body model loss_fn model_optimizer model_scheduler
                train_loader val_loader device)
    (mkGlobals i0 None lossi best_vloss None).

(** Lines 216-291: the model, the optimiser and the training loop. *)
Definition training (train_loader val_loader device : obj) (i0 : option nat)
  : prog globals :=
  (model <- call RObj VisionTransformer_init
              [PKw "embed_dim" (PInt embed_dim); PKw "hidden_dim" (PInt hidden_dim);
               PKw "num_heads" (PInt num_heads); PKw "num_layers" (PInt num_layers);
               PKw "patch_size" (PInt patch_size);
               PKw "num_channels" (PInt num_channels);
               PKw "num_patches" (PInt num_patches);
               PKw "num_classes" (PInt num_classes); PKw "dropout" (PFloat 0.2)] ;;
   call RObj Module_to [PObj model; PObj device] ;;;
   let model_restore := PNone in
   loss_fn <- call RObj nn_CrossEntropyLoss [] ;;
   params <- call RObj Module_parameters [PObj model] ;;
   model_optimizer <- call RObj optim_Adam [PObj params; PKw "lr" (PFloat 3e-4)] ;;
   model_scheduler <- call RObj optim_MultiStepLR
                        [PObj model_optimizer;
                         PKw "milestones" (PList [PInt 100; PInt 150]);
                         PKw "gamma" (PFloat 0.1)] ;;
   now <- call RObj datetime_now [] ;;
   timestamp <- call RObj datetime_strftime [PObj now; PStr "%Y%m%d_%H:%M:%S"] ;;
   training_loop model loss_fn model_optimizer model_scheduler
                 train_loader val_loader device i0)%prog.

(** The embedded part of the script, top to bottom. *)
Definition script (train_set train_loader val_loader device : obj)
  : prog globals :=
  (i <- visualize_patches train_set ;;
   training train_loader val_loader device i)%prog.

(** *** The name [i] after the plotting loop *)



Lemma nrow_value :
  int_of_float (PrimFloat.div (float_of_Z image_size) (float_of_Z patch_size))
  = Ret 4.
Proof. reflexivity. Qed.




(** *** The validation average of an epoch *)





(** *** The epoch loop *)

(** The validation loss printed by line 285. *)
Definition pick_val_loss (ev : event) : option float :=
  match ev with
  | EvCall _ builtin_print [PFormat fmt [PFloat _; PFloat v]] (Ok _) =>
      if String.eqb fmt "LOSS train {:.4f} valid {:.4f}" then Some v else None
  | _ => None
  end.

Lemma pick_vloss_no_report (ev : event) :
  allowed no_report ev -> pick_val_loss ev = None.
Proof.
  destruct ev as [r f args res | |]; try reflexivity.
  destruct f; simpl; intros H; try discriminate H; reflexivity.
Qed.

Definition best_of (g : globals) : float := value (g_best_vloss g).

Definition mark (k : nat) (v : float) : pyval := checkpoint_path k.

Lemma train_batch_uses (model loss_fn model_optimizer device : obj)
    (b : obj * obj) (g : globals) :
  uses no_report (train_batch model loss_fn model_optimizer device b g).
Proof. unfold train_batch. uses_tac. Qed.

Lemma validation_average_uses (model loss_fn val_loader device : obj) (g : globals) :
  uses no_report (validation_average model loss_fn val_loader device g).
Proof.
  unfold validation_average, validation_batch, s_div. uses_tac.
Qed.

Lemma train_batch_best {W} (h : handler W) (model loss_fn model_optimizer device : obj)
    (b : obj * obj) (g g1 : globals) (w : W) :
  outcome (run h (train_batch model loss_fn model_optimizer device b g) w) = Ok g1 ->
  g_best_vloss g1 = g_best_vloss g.
Proof.
  intros Ho. destruct b as [imgs labels]. unfold train_batch, outcome in Ho.
  do 9 next_call h Ho.
  simpl in Ho. inversion Ho. reflexivity.
Qed.

Lemma train_loop_best {W} (h : handler W) (model loss_fn model_optimizer device : obj)
    (batches : list (obj * obj)) :
  forall (g g1 : globals) (w : W),
    outcome (run h (for_each batches
                      (train_batch model loss_fn model_optimizer device) g) w) = Ok g1 ->
    g_best_vloss g1 = g_best_vloss g.
Proof.
  induction batches as [| b batches IH]; intros g g1 w Ho.
  - unfold outcome in Ho. simpl in Ho. inversion Ho. reflexivity.
  - cbn [for_each] in Ho. rewrite run_bind in Ho.
    pose proof (fun g2 => train_batch_best h model loss_fn model_optimizer device
                            b g g2 w) as Hb.
    destruct (run h (train_batch model loss_fn model_optimizer device b g) w)
      as [[[g' | e] w1] tr1]; unfold outcome in Hb, Ho; simpl in Hb, Ho.
    + specialize (IH g' g1 w1).
      destruct (run h (for_each batches _ g') w1) as [[out w2] tr2].
      unfold outcome in IH. simpl in IH, Ho.
      rewrite (IH Ho). apply (Hb g'). reflexivity.
    + discriminate Ho.
Qed.

(** Distributes [select] over a trace built from events and sub-traces whose
    selections are known to be empty. *)
Ltac select_all :=
  unfold outcome, calls; cbn [fst snd];
  repeat (rewrite select_cons || rewrite select_app || rewrite select_nil);
  repeat match goal with
         | H : select _ _ = [] |- _ => rewrite H
         end;
  cbn [app].

Lemma epoch_body_vit_ok {W} (h : handler W)
    (model loss_fn model_optimizer model_scheduler train_loader val_loader
       device : obj)
    (k : nat) (g : globals) (w : W) :
  epoch_ok best_of pick_val_loss saved_name mark k g
    (run h (epoch_body model loss_fn model_optimizer model_scheduler
              train_loader val_loader device k g) w).
Proof.
  unfold epoch_ok, epoch_body. cbv zeta.
  rewrite run_bind_call.
  destruct (h_call h RObj tqdm_notebook _ w) as [[bar | e] w1].
  2:{ left. select_all. simpl. repeat split. exists e. reflexivity. }
  rewrite run_bind_call.
  destruct (h_call h RBatches DataLoader_iter _ w1) as [[batches | e] w2].
  2:{ left. select_all. simpl. repeat split. exists e. reflexivity. }
  rewrite run_bind.
  pose proof (uses_run no_report h
                (for_each batches (train_batch model loss_fn model_optimizer device) g)
                w2 (uses_for_each no_report batches _ g
                      (train_batch_uses model loss_fn model_optimizer device))) as UL.
  pose proof (fun g1 => train_loop_best h model loss_fn model_optimizer device
                          batches g g1 w2) as BL.
  destruct (run h (for_each batches _ g) w2) as [[[g1 | e] w3] trL];
    unfold calls, outcome in UL, BL; simpl in UL, BL.
  2:{ pose proof (select_none _ no_report trL pick_vloss_no_report UL) as L1.
      pose proof (select_none _ no_report trL saved_name_no_report UL) as L2.
      left. select_all. simpl. repeat split. exists e. reflexivity. }
  pose proof (select_none _ no_report trL pick_vloss_no_report UL) as L1.
  pose proof (select_none _ no_report trL saved_name_no_report UL) as L2.
  specialize (BL g1 eq_refl).
  rewrite run_bind_call.
  destruct (h_call h RUnit Scheduler_step _ w3) as [[u1 | e] w4].
  2:{ left. select_all. simpl. repeat split. exists e. reflexivity. }
  rewrite run_bind.
  pose proof (uses_run no_report h
                (validation_average model loss_fn val_loader device g1) w4
                (validation_average_uses model loss_fn val_loader device g1)) as UV.
  destruct (run h (validation_average model loss_fn val_loader device g1) w4)
    as [[[[i avg] | e] w5] trV]; unfold calls in UV; simpl in UV.
  2:{ pose proof (select_none _ no_report trV pick_vloss_no_report UV) as V1.
      pose proof (select_none _ no_report trV saved_name_no_report UV) as V2.
      left. select_all. simpl. repeat split. exists e. reflexivity. }
  pose proof (select_none _ no_report trV pick_vloss_no_report UV) as V1.
  pose proof (select_none _ no_report trV saved_name_no_report UV) as V2.
  cbn [g_loss g_best_vloss g_i g_lossi g_model_path].
  rewrite run_bind.
  destruct (g_loss g1) as [loss |].
  2:{ left. cbn [run]. select_all. simpl. repeat split. eexists. reflexivity. }
  rewrite run_call.
  destruct (h_call h RFloat Tensor_item _ w5) as [[l | e] w6].
  2:{ left. select_all. simpl. repeat split. exists e. reflexivity. }
  rewrite run_bind.
  destruct avg as [z | f | v]; cbn [s_item run].
  1,2: left; select_all; simpl; repeat split; eexists; reflexivity.
  rewrite run_bind_call.
  destruct (h_call h RUnit builtin_print _ w6) as [[u2 | e] w7].
  2:{ left. select_all. simpl. repeat split. exists e. reflexivity. }
  unfold s_lt, best_of. cbn [value]. rewrite BL.
  destruct (PrimFloat.ltb v (value (g_best_vloss g))) eqn:Hlt.
  - rewrite run_bind_call.
    destruct (h_call h RObj Module_state_dict _ w7) as [[sd | e] w8].
    2:{ right. left. exists v. select_all. simpl. repeat split. exists e. reflexivity. }
    rewrite run_bind_call.
    destruct (h_call h RUnit torch_save _ w8) as [[u3 | e] w9].
    2:{ right. left. exists v. select_all. simpl. repeat split. exists e. reflexivity. }
    right. right. right. exists v. eexists. cbn [run]. select_all. simpl.
    repeat split. exact Hlt.
  - right. right. left. exists v. eexists. cbn [run]. select_all. simpl.
    repeat split; try exact Hlt; try (cbn [g_best_vloss]; rewrite BL; reflexivity).
Qed.

End Script.
End MNIST.

(** ** Both scripts *)

Module Scripts.
Import Py.

(** A framework in which every call succeeds: images have shape
    [4, 1, 28, 28], the progress bar (object 1) yields one training batch and
    every other loader yields none. *)
Definition empty_val_handler : handler unit :=
  mkHandler
    (fun r f args w =>
       (match r as r0 return result (rdenote r0) with
        | RInt => match f with
                  | Tensor_shape_getitem => Ok 4%Z
                  | _ => Ok 0%Z
                  end
        | RShape => Ok [4; 1; 28; 28]%Z
        | RBatches => match args with
                      | [PObj 1%nat] => Ok [(0%nat, 0%nat)]
                      | _ => Ok []
                      end
        | RObj => match f with
                  | tqdm_notebook => Ok 1%nat
                  | _ => Ok 0%nat
                  end
        | r0 => Ok (default_answer r0)
        end, w))
    (fun w => w) (fun w => w).

Definition f32_add (a b : float) : float := PrimFloat.add a b.
Definition f32_div (a : float) (n : Z) : float := PrimFloat.div a (float_of_Z n).

(** A framework that is asked to test ["m.pt"] and cannot load it. *)
Definition missing_file_handler : handler unit :=
  mkHandler
    (fun r f args w =>
       (match r as r0 return result (rdenote r0) with
        | RArgs => Ok (mkNamespace (Some "m.pt"%string) None)
        | RObj => match f with
                  | torch_load => Raise (FrameworkError 2)
                  | _ => Ok 0%nat
                  end
        | r0 => Ok (default_answer r0)
        end, w))
    (fun w => w) (fun w => w).

(** *** Error handling *)



(** *** The averaged losses *)




(** *** Checkpoints *)




Lemma script1_loop {W} (h : handler W) (w : W)
    (model criterion optimizer train_loader val_loader : obj) (model_name : pyval) :
  let o := run h (OddNumbers.training_loop model criterion optimizer
                    train_loader val_loader model_name) w in
  exists vs,
    (select OddNumbers.pick_val_loss (calls o) = vs \/
     exists v, select OddNumbers.pick_val_loss (calls o) = vs ++ [v]) /\
    select saved_name (calls o) =
    map (fun kv => OddNumbers.mark (fst kv) (snd kv))
        (checkpoints (float_of_Z 40) 0 vs) /\
    length vs <= 100 /\
    (forall st', outcome o = Ok st' ->
                 select OddNumbers.pick_val_loss (calls o) = vs /\
                 length vs = 100 /\
                 OddNumbers.best_of st' = running_best (float_of_Z 40) vs).
Proof.
  exact (loop_checkpoints h
           (OddNumbers.epoch_body model criterion optimizer train_loader val_loader)
           OddNumbers.best_of OddNumbers.pick_val_loss saved_name OddNumbers.mark
           (OddNumbers.epoch_body_ok h model criterion optimizer train_loader val_loader)
           100 0 (OddNumbers.NInt 40, model_name) w).
Qed.

Lemma script2_loop {W} (h : handler W) (w : W)
    (tensor_add : float -> float -> float) (tensor_div : float -> Z -> float)
    (model loss_fn model_optimizer model_scheduler train_loader val_loader
       device : obj) (i0 : option nat) :
  let o := run h (MNIST.training_loop tensor_add tensor_div model loss_fn
                    model_optimizer model_scheduler train_loader val_loader
                    device i0) w in
  exists vs,
    (select MNIST.pick_val_loss (calls o) = vs \/
     exists v, select MNIST.pick_val_loss (calls o) = vs ++ [v]) /\
    select saved_name (calls o) =
    map (fun kv => MNIST.mark (fst kv) (snd kv))
        (checkpoints (float_of_Z 1000000) 0 vs) /\
    length vs <= 20 /\
    (forall g', outcome o = Ok g' ->
                select MNIST.pick_val_loss (calls o) = vs /\
                length vs = 20 /\
                MNIST.best_of g' = running_best (float_of_Z 1000000) vs).
Proof.
  exact (loop_checkpoints h
           (MNIST.epoch_body tensor_add tensor_div model loss_fn model_optimizer
              model_scheduler train_loader val_loader device)
           MNIST.best_of MNIST.pick_val_loss saved_name MNIST.mark
           (MNIST.epoch_body_vit_ok tensor_add tensor_div h model loss_fn model_optimizer
              model_scheduler train_loader val_loader device)
           20 0 (MNIST.mkGlobals i0 None [] (MNIST.SInt 1000000) None) w).
Qed.

(** A prefix of the reported losses holds the epochs that ran to their end. *)
Lemma completed_losses (vals vs : list float) :
  (vals = vs \/ exists v, vals = vs ++ [v]) ->
  (forall v, In v vs -> In v vals) /\
  (forall j v, nth_error vs j = Some v -> nth_error vals j = Some v).
Proof.
  intros [-> | [u ->]].
  - split; auto.
  - split.
    + intros v Hv. apply in_or_app. left. exact Hv.
    + intros j v Hj. rewrite nth_error_app1; [exact Hj|].
      apply nth_error_Some. rewrite Hj. discriminate.
Qed.

(** C8. In both training loops a checkpoint is saved in an epoch exactly when
    that epoch's validation loss is strictly below the best validation loss
    seen so far, which starts at 40 in Script 1 and at 1,000,000 in Script 2,
    and the best is then set to that loss.  For every behaviour of the
    framework: each epoch satisfies [epoch_ok]; the checkpoints a run saves are
    those of [checkpoints] over the validation losses [vs] of the epochs that
    ran to their end, and a run that ends normally has gone through all its
    epochs and tracks [running_best] of their losses.  An epoch is among the
    [checkpoints] exactly when its loss is strictly below the running best of
    the epochs before it, the running best never goes up, and the losses at
    the checkpoints are strictly decreasing.  A run of Script 1 whose
    validation loss is never below 40 saves nothing. *)
Theorem checkpoint_on_improvement {W} (h : handler W) (w : W) :
  (forall model criterion optimizer train_loader val_loader k st,
      epoch_ok OddNumbers.best_of OddNumbers.pick_val_loss saved_name
        (fun _ v => OddNumbers.checkpoint_name (OddNumbers.NFloat v)) k st
        (run h (OddNumbers.epoch_body model criterion optimizer train_loader
                  val_loader k st) w)) /\
  (forall model criterion optimizer train_loader val_loader model_name,
      let o := run h (OddNumbers.training_loop model criterion optimizer
                        train_loader val_loader model_name) w in
      let vals := select OddNumbers.pick_val_loss (calls o) in
      let saved := select saved_name (calls o) in
      (exists vs,
          (vals = vs \/ exists v, vals = vs ++ [v]) /\
          length vs <= 100 /\
          saved = map (fun kv => OddNumbers.checkpoint_name
                                   (OddNumbers.NFloat (snd kv)))
                      (checkpoints (float_of_Z 40) 0 vs) /\
          (forall st', outcome o = Ok st' ->
                       vals = vs /\ length vs = 100 /\
                       OddNumbers.to_float (fst st') =
                       running_best (float_of_Z 40) vs)) /\
      ((forall v, In v vals -> PrimFloat.ltb v (float_of_Z 40) = false) ->
       saved = [])) /\
  (forall tensor_add tensor_div model loss_fn model_optimizer model_scheduler
          train_loader val_loader device k g,
      epoch_ok (fun g => MNIST.value (MNIST.g_best_vloss g)) MNIST.pick_val_loss
        saved_name (fun k _ => MNIST.checkpoint_path k) k g
        (run h (MNIST.epoch_body tensor_add tensor_div model loss_fn
                  model_optimizer model_scheduler train_loader val_loader
                  device k g) w)) /\
  (forall tensor_add tensor_div model loss_fn model_optimizer model_scheduler
          train_loader val_loader device i0,
      let o := run h (MNIST.training_loop tensor_add tensor_div model loss_fn
                        model_optimizer model_scheduler train_loader val_loader
                        device i0) w in
      let vals := select MNIST.pick_val_loss (calls o) in
      let saved := select saved_name (calls o) in
      exists vs,
        (vals = vs \/ exists v, vals = vs ++ [v]) /\
        length vs <= 20 /\
        saved = map (fun kv => MNIST.checkpoint_path (fst kv))
                    (checkpoints (float_of_Z 1000000) 0 vs) /\
        (forall g', outcome o = Ok g' ->
                    vals = vs /\ length vs = 20 /\
                    MNIST.value (MNIST.g_best_vloss g') =
                    running_best (float_of_Z 1000000) vs)) /\
  (forall best vs,
      (forall j v, In (j, v) (checkpoints best 0 vs) <->
                   nth_error vs j = Some v /\
                   PrimFloat.ltb v (running_best best (firstn j vs)) = true) /\
      (forall v, running_best best (vs ++ [v]) = running_best best vs \/
                 PrimFloat.ltb (running_best best (vs ++ [v]))
                               (running_best best vs) = true) /\
      decreasing_from best (map snd (checkpoints best 0 vs))).
Proof.
  split; [|split; [|split; [|split]]].
  - intros. apply OddNumbers.epoch_body_ok.
  - intros model criterion optimizer train_loader val_loader model_name.
    destruct (script1_loop h w model criterion optimizer train_loader val_loader
                model_name) as (vs & Hv & Hs & Hn & Hok).
    cbv zeta. split.
    + exists vs. split; [exact Hv|]. split; [exact Hn|]. split; [exact Hs|].
      exact Hok.
    + intros Hge. rewrite Hs.
      rewrite (checkpoints_none vs (float_of_Z 40) 0); [reflexivity|].
      intros v Hin. apply Hge.
      exact (proj1 (completed_losses _ vs Hv) v Hin).
  - intros. apply MNIST.epoch_body_vit_ok.
  - intros tensor_add tensor_div model loss_fn model_optimizer model_scheduler
           train_loader val_loader device i0.
    destruct (script2_loop h w tensor_add tensor_div model loss_fn
                model_optimizer model_scheduler train_loader val_loader device i0)
      as (vs & Hv & Hs & Hn & Hok).
    cbv zeta. exists vs. split; [exact Hv|]. split; [exact Hn|].
    split; [exact Hs|]. exact Hok.
  - intros best vs. split; [|split].
    + intros j v. rewrite (checkpoints_iff vs best 0 j v).
      rewrite Nat.sub_0_r. split.
      * intros (_ & H1 & H2). split; assumption.
      * intros (H1 & H2). split; [lia|]. split; assumption.
    + intros v. rewrite running_best_snoc.
      destruct (PrimFloat.ltb v (running_best best vs)) eqn:E.
      * right. exact E.
      * left. reflexivity.
    + apply checkpoints_decreasing.
Qed.

(** A framework whose loaders yield one batch each and whose loss tensors
    replay the numbers of its state, then [rest]. *)
Definition replay_handler (rest : float) : handler (list float) :=
  mkHandler
    (fun r f args w =>
       match r as r0 return result (rdenote r0) * list float with
       | RFloat => match w with
                   | x :: w' => (Ok x, w')
                   | [] => (Ok rest, [])
                   end
       | RBatches => (Ok [(0%nat, 0%nat)], w)
       | RInt => (Ok 1%Z, w)
       | r0 => (Ok (default_answer r0), w)
       end)
    (fun w => w) (fun w => w).

(** Validation losses 50, 30, 35, then 20 in every later epoch: Script 1
    saves twice, at 30 and at 20, and ends with 20 as its best loss. *)
Example script1_saves_at_30_and_20 :
  let o := run (replay_handler 20)
             (OddNumbers.training_loop 0 0 0 0 0 (PStr "m"))
             [1; 50; 1; 30; 1; 35]%float in
  select saved_name (calls o) =
  [PFormat "model/model_{0:.5f}.pt" [PFloat 30];
   PFormat "model/model_{0:.5f}.pt" [PFloat 20]] /\
  firstn 5 (select OddNumbers.pick_val_loss (calls o)) = [50; 30; 35; 20; 20]%float /\
  outcome o = Ok (OddNumbers.NFloat 20, PFormat "model/model_{0:.5f}.pt" [PFloat 20]).
Proof. vm_compute. repeat split. Qed.

(** Validation losses 5, 7, then 3 in every later epoch: Script 2 saves in
    its first and third epochs. *)
Example script2_saves_epochs_1_and_3 :
  let o := run (replay_handler 3)
             (MNIST.training_loop f32_add f32_div 0 0 0 0 0 0 0 None)
             [1; 5; 1; 1; 7; 1]%float in
  select saved_name (calls o) =
  [PFormat "./model_VisionTransformer_MNIST_{}.pt" [PInt 1];
   PFormat "./model_VisionTransformer_MNIST_{}.pt" [PInt 3]] /\
  firstn 4 (select MNIST.pick_val_loss (calls o)) = [5; 7; 3; 3]%float /\
  option_map (fun g => MNIST.g_model_path g)
    (match outcome o with Ok g => Some g | Raise _ => None end) =
  Some (Some (PFormat "./model_VisionTransformer_MNIST_{}.pt" [PInt 3])).
Proof. vm_compute. repeat split. Qed.



End Scripts.


(** * The Vision Transformer's checks on its input *)

Module ViTInputs.
Import Torch ViT.

Section Checks.

Variables (A E S : Type).
Variable vadd : E -> E -> E.

(** X3. [VisionTransformer.forward] on an image batch [B, C, H, W] whose
    height and width are multiples of the patch size, for a model with
    [1 + num_patches] positions, [num_patches > 0]: the token sequence is
    built exactly when a patch has as many values as the input layer takes
    and the image has at most [num_patches] patches. Otherwise [forward]
    fails with RuntimeError, at the input layer for patches of the wrong
    size, at the positional sum for an image with too many patches. *)
Theorem forward_input_checks (m : VisionTransformer A E S) (num_patches : nat)
    (x : Tensor A) (B C H W : nat) :
  shape x = [B; C; H; W] -> wf x ->
  0 < patch_size m -> H mod patch_size m = 0 -> W mod patch_size m = 0 ->
  length (pos_embedding m) = 1 + num_patches -> 0 < num_patches ->
  let T := (H / patch_size m) * (W / patch_size m) in
  match tokens vadd m x with
  | Ok (T', toks) =>
      C * patch_size m * patch_size m = in_features m /\
      T' = T /\ T <= num_patches /\ length toks = B
  | Raise e =>
      forward vadd m x = Raise e /\
      ((C * patch_size m * patch_size m <> in_features m /\
        e = RuntimeError "mat1 and mat2 shapes cannot be multiplied") \/
       (C * patch_size m * patch_size m = in_features m /\
        num_patches < T /\ e = RuntimeError "size mismatch"))
  end.
Proof.
  intros Hs Hwf Hp HH HW Hpos HN T.
  set (p := patch_size m) in *.
  set (hp := H / p) in *. set (wp := W / p) in *.
  assert (EH : H = hp * p).
  { unfold hp. pose proof (Nat.div_mod_eq H p). lia. }
  assert (EW : W = wp * p).
  { unfold wp. pose proof (Nat.div_mod_eq W p). lia. }
  rewrite EH, EW in Hs.
  pose proof (img_to_patch_eval x B C hp wp p true Hs Hwf Hp) as Ex1.
  cbv iota in Ex1.
  unfold forward, tokens. fold p. rewrite Ex1. cbn [rbind shape].
  unfold apply_input_layer.
  destruct (C * p * p =? in_features m) eqn:EF.
  - apply Nat.eqb_eq in EF. cbn [rbind].
    unfold cat_dim1. rewrite repeat_length, length_map, length_seq, Nat.eqb_refl.
    cbn [rbind]. unfold add_positions.
    rewrite length_firstn, Hpos.
    destruct (Nat.le_gt_cases T num_patches) as [Hle | Hgt].
    + replace (Nat.min (hp * wp + 1) (1 + num_patches)) with (hp * wp + 1)
        by (unfold T in Hle; lia).
      rewrite Nat.eqb_refl. cbn [rbind].
      split; [exact EF|]. split; [reflexivity|]. split; [exact Hle|].
      rewrite length_map, length_map, length_combine, repeat_length, length_map,
        length_seq.
      apply Nat.min_id.
    + assert (Emin : Nat.min (hp * wp + 1) (1 + num_patches) = 1 + num_patches)
        by (unfold T in Hgt; lia).
      rewrite Emin.
      assert (Ene : (1 + num_patches =? hp * wp + 1) = false)
        by (apply Nat.eqb_neq; unfold T in Hgt; lia).
      rewrite Ene.
      assert (Lf : length (firstn (hp * wp + 1) (pos_embedding m)) = 1 + num_patches)
        by (rewrite length_firstn, Hpos; exact Emin).
      destruct (firstn (hp * wp + 1) (pos_embedding m)) as [| p0 [| p1 rest]];
        simpl in Lf; try lia.
      cbn [rbind]. split; [reflexivity|]. right.
      split; [exact EF|]. split; [exact Hgt | reflexivity].
  - apply Nat.eqb_neq in EF. cbn [rbind].
    split; [reflexivity|]. left. split; [exact EF | reflexivity].
Qed.

End Checks.

(** The demo model has two positions for patches; an image of three
    one-pixel patches is rejected. *)
Lemma forward_input_checks_witness :
  match tokens Nat.add demo_model (mkTensor [1; 1; 1; 3] [5; 7; 9]) with
  | Ok (T', toks) =>
      1 * patch_size demo_model * patch_size demo_model = in_features demo_model /\
      T' = (1 / patch_size demo_model) * (3 / patch_size demo_model) /\
      (1 / patch_size demo_model) * (3 / patch_size demo_model) <= 2 /\
      length toks = 1
  | Raise e =>
      forward Nat.add demo_model (mkTensor [1; 1; 1; 3] [5; 7; 9]) = Raise e /\
      ((1 * patch_size demo_model * patch_size demo_model <> in_features demo_model /\
        e = RuntimeError "mat1 and mat2 shapes cannot be multiplied") \/
       (1 * patch_size demo_model * patch_size demo_model = in_features demo_model /\
        2 < (1 / patch_size demo_model) * (3 / patch_size demo_model) /\
        e = RuntimeError "size mismatch"))
  end.
Proof.
  apply (forward_input_checks nat nat nat Nat.add demo_model 2
           (mkTensor [1; 1; 1; 3] [5; 7; 9]) 1 1 1 3);
    try reflexivity; simpl; lia.
Defined.

(** Patches of two pixels do not fit the demo model's one-pixel input layer. *)
Example forward_wrong_patch_width :
  forward Nat.add demo_model (mkTensor [1; 2; 1; 2] [5; 7; 9; 11])
  = Raise (RuntimeError "mat1 and mat2 shapes cannot be multiplied").
Proof. reflexivity. Qed.

End ViTInputs.

(** * Protocols of framework calls *)

(** A monitor reads the trace of a run event by event: it checks each event
    against its state and then updates the state. Programs are checked
    against a monitor once, for every answer the framework may give; every
    run then passes the checks. *)
Module Protocol.
Import Py.

Section Monitor.

Context {M : Type}.
(** The state after an event, and the events allowed in a state. *)
Variable upd : M -> event -> M.
Variable ok : M -> event -> Prop.

(** Every event of the trace is allowed in the state reached before it. *)
Definition accepted (s : M) (tr : trace) : Prop :=
  forall pre ev post, tr = pre ++ ev :: post -> ok (fold_left upd pre s) ev.

(** [safe p s Q]: whatever the framework answers, every event of [p] is
    allowed when the monitor starts in [s], and the outcome and the monitor's
    last state satisfy [Q]. *)
Fixpoint safe {A} (p : prog A) (s : M) (Q : result A -> M -> Prop) : Prop :=
  match p with
  | Ret a => Q (Ok a) s
  | Throw e => Q (Raise e) s
  | Call r f args k =>
      forall res : result (rdenote r),
        ok s (EvCall r f args res) /\
        match res with
        | Ok x => safe (k x) (upd s (EvCall r f args res)) Q
        | Raise e => Q (Raise e) (upd s (EvCall r f args res))
        end
  | NoGrad body k =>
      ok s EvEnter /\
      safe body (upd s EvEnter)
        (fun res s2 =>
           ok s2 EvExit /\
           match res with
           | Ok x => safe (k x) (upd s2 EvExit) Q
           | Raise e => Q (Raise e) (upd s2 EvExit)
           end)
  end.

Lemma accepted_nil (s : M) : accepted s [].
Proof. intros [| ? ?] ev post E; discriminate E. Qed.

Lemma accepted_cons (s : M) (ev : event) (tr : trace) :
  ok s ev -> accepted (upd s ev) tr -> accepted s (ev :: tr).
Proof.
  intros Hev Htr [| e pre] ev' post E; simpl in E; inversion E; subst.
  - exact Hev.
  - simpl. eapply Htr. reflexivity.
Qed.

Lemma accepted_app (s : M) (tr1 tr2 : trace) :
  accepted s tr1 -> accepted (fold_left upd tr1 s) tr2 -> accepted s (tr1 ++ tr2).
Proof.
  revert s. induction tr1 as [| ev tr1 IH]; intros s H1 H2; simpl in *.
  - exact H2.
  - apply accepted_cons.
    + apply (H1 [] ev tr1). reflexivity.
    + apply IH; [| exact H2].
      intros pre ev' post E. apply (H1 (ev :: pre) ev' post).
      simpl. rewrite E. reflexivity.
Qed.

Lemma safe_sound {W A} (h : handler W) (p : prog A) :
  forall (s : M) (Q : result A -> M -> Prop) (w : W),
    safe p s Q ->
    accepted s (calls (run h p w)) /\
    Q (outcome (run h p w)) (fold_left upd (calls (run h p w)) s).
Proof.
  induction p as [A a | A e | A r f args k IH | A X body IHbody k IH];
    intros s Q w Hs.
  - split; [apply accepted_nil | exact Hs].
  - split; [apply accepted_nil | exact Hs].
  - simpl in Hs. unfold calls, outcome. simpl.
    destruct (h_call h r f args w) as [[x | e] w1].
    + destruct (Hs (Ok x)) as (Hev & Hk).
      destruct (IH x _ Q w1 Hk) as (Hacc & HQ).
      unfold calls, outcome in Hacc, HQ.
      destruct (run h (k x) w1) as [[out w2] tr]. simpl in *.
      split; [apply accepted_cons; assumption | exact HQ].
    + destruct (Hs (Raise e)) as (Hev & HQ). simpl.
      split; [apply accepted_cons; [exact Hev | apply accepted_nil] | exact HQ].
  - simpl in Hs. destruct Hs as (Hen & Hb).
    destruct (IHbody _ _ (h_enter h w) Hb) as (Hacc & Hex & Hk).
    unfold calls, outcome in *. simpl.
    destruct (run h body (h_enter h w)) as [[[x | e] w1] tr1]; simpl in *.
    + destruct (IH x _ Q (h_exit h w1) Hk) as (Hacc' & HQ).
      unfold calls, outcome in Hacc', HQ.
      destruct (run h (k x) (h_exit h w1)) as [[out w3] tr2]. simpl in *.
      split.
      * apply accepted_cons; [exact Hen|]. apply accepted_app; [exact Hacc|].
        apply accepted_cons; assumption.
      * rewrite fold_left_app. exact HQ.
    + split.
      * apply accepted_cons; [exact Hen|]. apply accepted_app; [exact Hacc|].
        apply accepted_cons; [exact Hex | apply accepted_nil].
      * rewrite fold_left_app. exact Hk.
Qed.

Lemma safe_mono {A} (p : prog A) :
  forall (s : M) (Q Q' : result A -> M -> Prop),
    (forall res s', Q res s' -> Q' res s') -> safe p s Q -> safe p s Q'.
Proof.
  induction p as [A a | A e | A r f args k IH | A X body IHbody k IH];
    intros s Q Q' HQ Hs; simpl in *.
  - apply HQ, Hs.
  - apply HQ, Hs.
  - intros res. destruct (Hs res) as (Hev & Hk).
    split; [exact Hev|]. destruct res as [x | e]; [eapply IH; eassumption|].
    apply HQ, Hk.
  - destruct Hs as (Hen & Hb). split; [exact Hen|].
    eapply IHbody; [| exact Hb]. simpl.
    intros res s2 (Hex & Hk). split; [exact Hex|].
    destruct res as [x | e]; [eapply IH; eassumption | apply HQ, Hk].
Qed.

(** What follows [p] in [bind p g]. *)
Definition then_safe {A B} (g : A -> prog B) (Q : result B -> M -> Prop)
  : result A -> M -> Prop :=
  fun res s => match res with
               | Ok a => safe (g a) s Q
               | Raise e => Q (Raise e) s
               end.

Lemma safe_bind {A B} (p : prog A) (g : A -> prog B) :
  forall (s : M) (Q : result B -> M -> Prop),
    safe p s (then_safe g Q) -> safe (bind p g) s Q.
Proof.
  induction p as [A a | A e | A r f args k IH | A X body IHbody k IH];
    intros s Q Hs; simpl in *.
  - exact Hs.
  - exact Hs.
  - intros res. destruct (Hs res) as (Hev & Hk).
    split; [exact Hev|]. destruct res as [x | e]; [apply IH, Hk | exact Hk].
  - destruct Hs as (Hen & Hb). split; [exact Hen|].
    eapply safe_mono; [| exact Hb]. simpl.
    intros res s2 (Hex & Hk). split; [exact Hex|].
    destruct res as [x | e]; [apply IH, Hk | exact Hk].
Qed.

Lemma safe_call (r : rty) (f : fn) (args : list pyval)
    (s : M) (Q : result (rdenote r) -> M -> Prop) :
  (forall res, ok s (EvCall r f args res) /\ Q res (upd s (EvCall r f args res))) ->
  safe (call r f args) s Q.
Proof.
  intros H. unfold call. simpl. intros res.
  destruct (H res) as (Hev & HQ). split; [exact Hev|].
  destruct res; exact HQ.
Qed.

Lemma safe_no_grad {X} (body : prog X) (s : M) (Q : result X -> M -> Prop) :
  ok s EvEnter ->
  safe body (upd s EvEnter)
    (fun res s2 => ok s2 EvExit /\ Q res (upd s2 EvExit)) ->
  safe (no_grad body) s Q.
Proof.
  intros Hen Hb. unfold no_grad. simpl. split; [exact Hen|].
  eapply safe_mono; [| exact Hb]. simpl.
  intros res s2 (Hex & HQ). split; [exact Hex|].
  destruct res; exact HQ.
Qed.

(** A loop keeps an invariant [I] of the monitor and the loop's variables;
    [F] holds of the monitor when the loop is left by an exception. *)
Lemma safe_for_each {X St} (body : X -> St -> prog St)
    (I : M -> St -> Prop) (F : exn -> M -> Prop) (l : list X) :
  (forall x st s, In x l -> I s st ->
     safe (body x st) s (fun res s' => match res with
                                       | Ok st' => I s' st'
                                       | Raise e => F e s'
                                       end)) ->
  forall st s, I s st ->
    safe (for_each l body st) s (fun res s' => match res with
                                               | Ok st' => I s' st'
                                               | Raise e => F e s'
                                               end).
Proof.
  induction l as [| x l IH]; intros Hbody st s HI; simpl.
  - exact HI.
  - apply safe_bind. eapply safe_mono; [| apply Hbody; [left; reflexivity | exact HI]].
    intros res s' H. destruct res as [st' | e]; simpl; [| exact H].
    apply IH; [| exact H]. intros y st0 s0 Hy. apply Hbody. right. exact Hy.
Qed.

(** The postcondition of a part that leaves the monitor, if it ends
    normally, in a state satisfying [P]. *)
Definition ends_with {A} (P : M -> Prop) : result A -> M -> Prop :=
  fun res s => match res with
               | Ok _ => P s
               | Raise _ => True
               end.

(** A loop whose passes all keep [P] of the monitor. *)
Lemma safe_for_each_inv {X St} (body : X -> St -> prog St) (P : M -> Prop)
    (l : list X) :
  (forall x st s, In x l -> P s -> safe (body x st) s (ends_with P)) ->
  forall st s, P s -> safe (for_each l body st) s (ends_with P).
Proof.
  intros Hbody st s HP.
  apply (safe_for_each body (fun s _ => P s) (fun _ _ => True) l);
    [| exact HP].
  intros x st0 s0 Hx HP0. apply Hbody; assumption.
Qed.

(** A program whose calls are all among the functions [P], for a monitor that
    allows every event of these functions. *)
Lemma safe_uses (P : fn -> bool) {A} (p : prog A) :
  uses P p ->
  (forall s r f args res, P f = true -> ok s (EvCall r f args res)) ->
  (forall s, ok s EvEnter) -> (forall s, ok s EvExit) ->
  forall s, safe p s (fun _ _ => True).
Proof.
  intros Hp Hcall Hen Hex.
  induction p as [A a | A e | A r f args k IH | A X body IHbody k IH];
    intros s; simpl in *.
  - exact I.
  - exact I.
  - destruct Hp as [Hf Hk]. intros res. split; [apply Hcall; exact Hf|].
    destruct res as [x | e]; [apply IH, Hk | exact I].
  - destruct Hp as [Hb Hk]. split; [apply Hen|].
    eapply safe_mono; [| apply IHbody; exact Hb].
    intros res s2 _. split; [apply Hex|].
    destruct res as [x | e]; [apply IH, Hk | exact I].
Qed.

(** States [D] that no event leaves, for a monitor that allows every event:
    a postcondition that holds of all of them holds after any program. *)
Section Absorbing.

Variable D : M -> Prop.
Hypothesis D_upd : forall s ev, D s -> D (upd s ev).
Hypothesis ok_any : forall s ev, ok s ev.

Definition absorbs {A} (Q : result A -> M -> Prop) : Prop :=
  forall res s, D s -> Q res s.

Lemma safe_absorbed {A} (p : prog A) :
  forall (Q : result A -> M -> Prop) (s : M),
    absorbs Q -> D s -> safe p s Q.
Proof.
  induction p as [A a | A e | A r f args k IH | A X body IHbody k IH];
    intros Q s HQ Hs; simpl.
  - apply HQ, Hs.
  - apply HQ, Hs.
  - intros res. split; [apply ok_any|].
    destruct res as [x | e]; [apply IH; [exact HQ|] | apply HQ]; apply D_upd, Hs.
  - split; [apply ok_any|]. apply IHbody; [| apply D_upd, Hs].
    intros res s2 H2. split; [apply ok_any|].
    destruct res as [x | e]; [apply IH; [exact HQ|] | apply HQ]; apply D_upd, H2.
Qed.

Lemma absorbs_then {A B} (g : A -> prog B) (Q : result B -> M -> Prop) :
  absorbs Q -> absorbs (then_safe g Q).
Proof.
  intros HQ [a | e] s Hs; simpl; [apply safe_absorbed; assumption | apply HQ, Hs].
Qed.

Lemma absorbs_exit {A} (Q : result A -> M -> Prop) :
  absorbs Q -> absorbs (fun res s2 => ok s2 EvExit /\ Q res (upd s2 EvExit)).
Proof.
  intros HQ res s Hs. split; [apply ok_any | apply HQ, D_upd, Hs].
Qed.

End Absorbing.

Lemma safe_int_of_float (f : float) (s : M) :
  safe (int_of_float f) s (ends_with (fun s' => s' = s)).
Proof.
  unfold int_of_float. destruct (Prim2SF f); simpl; trivial.
Qed.

End Monitor.

Arguments ends_with {M A} P res s /.

(** Ends, if normally, in the monitor state [s1]. *)
Definition ends_in {M A} (s1 : M) : result A -> M -> Prop :=
  ends_with (fun s => s = s1).

Arguments ends_in {M A} s1 res s /.

(** One step of a check: [bind], a call whose check is proved by [chk],
    [no_grad], a choice. *)
Ltac safe_step_by chk :=
  match goal with
  | |- safe _ _ (bind (call _ _ _) _) _ _ => apply safe_bind
  | |- safe _ _ (bind (bind _ _) _) _ _ => apply safe_bind
  | |- safe _ _ (bind (no_grad _) _) _ _ => apply safe_bind
  | |- safe _ _ (bind (Ret _) _) _ _ => cbn [bind]
  | |- safe _ _ (bind (Throw _) _) _ _ => cbn [bind]
  | |- safe _ _ (bind (match ?x with _ => _ end) _) _ _ => destruct x
  | |- safe _ _ (call _ _ _) _ _ =>
      apply safe_call; intros [? | ?];
      (split; [chk|]); cbn [then_safe ends_in ends_with];
      try first [exact I | reflexivity]
  | |- safe _ _ (Ret _) _ _ => cbn [safe ends_in ends_with]; try reflexivity
  | |- safe _ _ (Throw _) _ _ => cbn [safe ends_in ends_with]; try exact I
  | |- safe _ _ (no_grad _) _ _ => apply safe_no_grad; [chk|]
  | |- safe _ _ (match ?x with _ => _ end) _ _ => destruct x
  | |- then_safe _ _ _ _ _ _ => cbn [then_safe]
  end.

Ltac safe_step := safe_step_by ltac:(reflexivity).

(** Uses a lemma about the first part of a sequence. *)
Tactic Notation "safe_part" open_constr(lem) :=
  apply safe_bind; eapply safe_mono; [| eapply lem];
  [let s' := fresh "s" in
   let H := fresh "H" in
   intros [? | ?] s' H; cbn [then_safe ends_in ends_with] in H |- *;
   try subst s'; try exact I
  | ..].

End Protocol.

(** * A sample framework *)

Module Samples.
Import Py.

(** A framework with four 28 x 28 images to plot and one batch in every
    loader; every call succeeds. *)
Definition one_batch_handler : handler unit :=
  mkHandler
    (fun r f args w =>
       (match r as r0 return result (rdenote r0) with
        | RInt => Ok 4%Z
        | RShape => Ok [4; 1; 28; 28]%Z
        | RBatches => Ok [(0, 0)]
        | r0 => Ok (default_answer r0)
        end, w))
    (fun w => w) (fun w => w).

(** Both scripts run to their end on it. *)
Example one_batch_runs :
  outcome (run one_batch_handler OddNumbers.script tt) = Ok tt /\
  exists g,
    outcome (run one_batch_handler
               (MNIST.script Scripts.f32_add Scripts.f32_div 0 0 0 0) tt) = Ok g.
Proof. split; [vm_compute; reflexivity | eexists; vm_compute; reflexivity]. Qed.

End Samples.

(** * Gradient mode and training mode *)

Module Modes.
Import Py Protocol.

(** What a run has switched so far: the mode set by the latest
    [train()] / [eval()] ([None] before the first one), and the number of
    [with no_grad():] blocks the run is inside. *)
Definition modes : Type := (option bool * nat)%type.

(** The switches an event makes. *)
Definition switch (s : modes) (ev : event) : modes :=
  let '(training, depth) := s in
  match ev with
  | EvEnter => (training, S depth)
  | EvExit => (training, Nat.pred depth)
  | EvCall _ Module_train [_] _ => (Some true, depth)
  | EvCall _ Module_train [_; PBool b] _ => (Some b, depth)
  | EvCall _ Module_eval _ _ => (Some false, depth)
  | _ => s
  end.
















(** Script 2. *)

Section Script2.

Variable tensor_add : float -> float -> float.
Variable tensor_div : float -> Z -> float.






End Script2.


(** The module calls of the sample run of Script 1: two per training batch
    outside [no_grad], then two per validation batch and three per test inside
    it. *)
Definition is_module_call_event (ev : event) : bool :=
  match ev with
  | EvCall _ Module_call _ _ => true
  | _ => false
  end.

Fixpoint modes_at_calls (s : modes) (tr : trace) : list modes :=
  match tr with
  | [] => []
  | ev :: tr' =>
      (if is_module_call_event ev then [s] else []) ++ modes_at_calls (switch s ev) tr'
  end.

Example module_calls_of_sample_run :
  let l := modes_at_calls (None, 0)
             (calls (run Samples.one_batch_handler OddNumbers.script tt)) in
  length l = 430 /\
  firstn 5 l = [(Some true, 0); (Some true, 0); (Some false, 1); (Some false, 1);
                (Some true, 0)] /\
  forallb (fun s => match s with
                    | (Some true, O) | (Some false, S O) => true
                    | _ => false
                    end) l = true.
Proof. vm_compute. repeat split. Qed.

End Modes.

(** * The optimisation cycle *)

Module Cycle.
Import Py Protocol.

(** Where a run is in the optimisation of one batch. *)
Inductive phase : Type :=
| Idle      (* no step in progress *)
| Zeroed    (* after [optimizer.zero_grad()] *)
| Grads.    (* after [loss.backward()] *)

(** The phase, and the number of [with no_grad():] blocks the run is
    inside. *)
Definition cycle : Type := (phase * nat)%type.

Definition advance (s : cycle) (ev : event) : cycle :=
  let '(ph, depth) := s in
  match ev with
  | EvEnter => (ph, S depth)
  | EvExit => (ph, Nat.pred depth)
  | EvCall _ Optimizer_zero_grad _ _ => (Zeroed, depth)
  | EvCall _ Tensor_backward _ _ => (Grads, depth)
  | EvCall _ Optimizer_step _ _ => (Idle, depth)
  | _ => s
  end.

(** [zero_grad], [backward], gradient clipping and [step] come in this order
    and outside [no_grad]; the scheduler is stepped and checkpoints are saved
    only between two cycles. *)
Definition cycle_ok (s : cycle) (ev : event) : bool :=
  match ev, s with
  | EvCall _ Optimizer_zero_grad _ _, (Idle, O) => true
  | EvCall _ Optimizer_zero_grad _ _, _ => false
  | EvCall _ Tensor_backward _ _, (Zeroed, O) => true
  | EvCall _ Tensor_backward _ _, _ => false
  | EvCall _ clip_grad_norm_ _ _, (Grads, O) => true
  | EvCall _ clip_grad_norm_ _ _, _ => false
  | EvCall _ Optimizer_step _ _, (Grads, O) => true
  | EvCall _ Optimizer_step _ _, _ => false
  | EvCall _ Scheduler_step _ _, (Idle, _) => true
  | EvCall _ Scheduler_step _ _, _ => false
  | EvCall _ torch_save _ _, (Idle, _) => true
  | EvCall _ torch_save _ _, _ => false
  | _, _ => true
  end.

Definition cycle_allowed (s : cycle) (ev : event) : Prop := cycle_ok s ev = true.

Definition cycle_after (tr : trace) : cycle := fold_left advance tr (Idle, 0).

(** Script 1. *)

Lemma train_cycle (model criterion optimizer loader : obj) :
  safe advance cycle_allowed (OddNumbers.train model criterion optimizer loader)
    (Idle, 0) (ends_in (Idle, 0)).
Proof.
  unfold OddNumbers.train, OddNumbers.num_div. do 4 safe_step.
  safe_part (safe_for_each_inv advance cycle_allowed _ (fun s => s = (Idle, 0))).
  - repeat safe_step.
  - intros ? ? ? _ ->. unfold OddNumbers.train_batch. repeat safe_step.
  - reflexivity.
Qed.

Lemma validation_cycle (model criterion loader : obj) :
  safe advance cycle_allowed (OddNumbers.validation model criterion loader)
    (Idle, 0) (ends_in (Idle, 0)).
Proof.
  unfold OddNumbers.validation, OddNumbers.num_div. do 4 safe_step.
  eapply safe_mono with (Q := ends_in (Idle, 1)).
  { intros [? | ?] [? ?] ?; cbn [ends_in ends_with] in *;
      (split; [reflexivity|]); cbn [then_safe]; [| exact I].
    inversion H; subst. repeat safe_step. }
  safe_step. safe_step.
  apply (safe_for_each_inv advance cycle_allowed); [| reflexivity].
  intros ? ? ? _ ->. unfold OddNumbers.validation_batch. repeat safe_step.
Qed.

Lemma test_cycle (model : obj) (max_len test_times : nat) :
  safe advance cycle_allowed (OddNumbers.test model max_len test_times)
    (Idle, 0) (ends_in (Idle, 0)).
Proof.
  unfold OddNumbers.test. do 5 safe_step.
  eapply safe_mono with (Q := ends_in (Idle, 1)).
  { intros [? | ?] [? ?] ?; cbn [ends_in ends_with] in *;
      (split; [reflexivity|]); [| exact I].
    inversion H; subst. reflexivity. }
  apply (safe_for_each_inv advance cycle_allowed); [| reflexivity].
  intros i [] s _ ->. unfold OddNumbers.test_once. do 8 safe_step.
  safe_part (safe_for_each_inv advance cycle_allowed _ (fun s => s = (Idle, 1))).
  - repeat safe_step.
  - intros ? ? ? _ ->. unfold OddNumbers.decode_step. repeat safe_step.
  - reflexivity.
Qed.

Lemma main_cycle (model_name : pyval) (hidden nlayers : Z) :
  safe advance cycle_allowed (OddNumbers.main model_name hidden nlayers)
    (Idle, 0) (ends_in (Idle, 0)).
Proof.
  assert (Hloop : forall model criterion optimizer train_loader val_loader name,
             safe advance cycle_allowed
               (OddNumbers.training_loop model criterion optimizer train_loader
                  val_loader name) (Idle, 0) (ends_in (Idle, 0))).
  { intros. unfold OddNumbers.training_loop.
    apply (safe_for_each_inv advance cycle_allowed); [| reflexivity].
    intros i st s _ ->. unfold OddNumbers.epoch_body. safe_step.
    safe_part (train_cycle _ _ _ _).
    safe_part (validation_cycle _ _ _).
    repeat safe_step. }
  unfold OddNumbers.main. do 4 safe_step.
  safe_part (safe_int_of_float advance cycle_allowed).
  repeat safe_step; (safe_part (Hloop _ _ _ _ _ _); repeat safe_step).
Qed.

Lemma script_cycle :
  safe advance cycle_allowed OddNumbers.script (Idle, 0) (ends_in (Idle, 0)).
Proof.
  unfold OddNumbers.script, OddNumbers.parse_cli. repeat safe_step.
  all: try (safe_part (main_cycle _ _ _)).
  all: unfold OddNumbers.load_and_test; do 6 safe_step; apply test_cycle.
Qed.

(** Script 2. *)

Section Script2.

Variable tensor_add : float -> float -> float.
Variable tensor_div : float -> Z -> float.

Lemma visualize_patches_cycle (train_set : obj) :
  safe advance cycle_allowed (MNIST.visualize_patches train_set) (Idle, 0)
    (ends_in (Idle, 0)).
Proof.
  unfold MNIST.visualize_patches, MNIST.img_to_patch.
  safe_part (safe_for_each_inv advance cycle_allowed _ (fun s => s = (Idle, 0))).
  - repeat safe_step;
      (safe_part (safe_for_each_inv advance cycle_allowed _ (fun s => s = (Idle, 0)));
       [repeat safe_step | | reflexivity];
       intros ? ? ? _ ->; unfold MNIST.plot_patches;
       rewrite MNIST.nrow_value; repeat safe_step).
  - intros ? ? ? _ ->. repeat safe_step.
  - reflexivity.
Qed.

Lemma validation_average_cycle (model loss_fn val_loader device : obj)
    (g : MNIST.globals) :
  safe advance cycle_allowed
    (MNIST.validation_average tensor_add tensor_div model loss_fn val_loader
       device g) (Idle, 0) (ends_in (Idle, 0)).
Proof.
  unfold MNIST.validation_average, MNIST.s_div. do 4 safe_step.
  eapply safe_mono with (Q := ends_in (Idle, 1)).
  { intros [? | ?] [? ?] ?; cbn [ends_in ends_with] in *;
      (split; [reflexivity|]); cbn [then_safe]; [| exact I].
    inversion H; subst. repeat safe_step. }
  safe_step. safe_step.
  apply (safe_for_each_inv advance cycle_allowed); [| reflexivity].
  intros ? ? ? _ ->. unfold MNIST.validation_batch. repeat safe_step.
Qed.

Lemma epoch_body_vit_cycle (model loss_fn model_optimizer model_scheduler
                              train_loader val_loader device : obj)
    (epoch : nat) (g : MNIST.globals) :
  safe advance cycle_allowed
    (MNIST.epoch_body tensor_add tensor_div model loss_fn model_optimizer
       model_scheduler train_loader val_loader device epoch g) (Idle, 0)
    (ends_in (Idle, 0)).
Proof.
  unfold MNIST.epoch_body, MNIST.s_item. do 4 safe_step.
  safe_part (safe_for_each_inv advance cycle_allowed _ (fun s => s = (Idle, 0))).
  - do 2 safe_step.
    safe_part (validation_average_cycle _ _ _ _ _).
    repeat safe_step.
  - intros ? ? ? _ ->. unfold MNIST.train_batch. repeat safe_step.
  - reflexivity.
Qed.

Lemma script_vit_cycle (train_set train_loader val_loader device : obj) :
  safe advance cycle_allowed
    (MNIST.script tensor_add tensor_div train_set train_loader val_loader device)
    (Idle, 0) (ends_in (Idle, 0)).
Proof.
  unfold MNIST.script.
  safe_part (visualize_patches_cycle _).
  unfold MNIST.training, MNIST.training_loop. repeat safe_step.
  apply (safe_for_each_inv advance cycle_allowed); [| reflexivity].
  intros ? ? ? _ ->. apply epoch_body_vit_cycle.
Qed.

End Script2.

(** X5. In both scripts the optimisation calls come in cycles
    [zero_grad], [backward], (gradient clipping,) [step]: each of them is made
    outside [no_grad] and exactly in the phase [cycle_ok] allows, the learning
    rate scheduler is stepped and checkpoints are saved only between two
    cycles, and a script that ends normally ends between two cycles. In
    particular no [optimizer.step()] is made without a [backward()] since the
    latest [zero_grad()], and validation and testing make none of these
    calls. *)
Theorem optimisation_cycle {W} (h : handler W) (w : W) :
  ((forall pre ev post,
       calls (run h OddNumbers.script w) = pre ++ ev :: post ->
       cycle_ok (cycle_after pre) ev = true) /\
   (forall u, outcome (run h OddNumbers.script w) = Ok u ->
              cycle_after (calls (run h OddNumbers.script w)) = (Idle, 0))) /\
  (forall tensor_add tensor_div train_set train_loader val_loader device,
      let o := run h (MNIST.script tensor_add tensor_div train_set train_loader
                        val_loader device) w in
      (forall pre ev post,
          calls o = pre ++ ev :: post -> cycle_ok (cycle_after pre) ev = true) /\
      (forall g, outcome o = Ok g -> cycle_after (calls o) = (Idle, 0))).
Proof.
  split.
  - destruct (safe_sound advance cycle_allowed h _ _ _ w script_cycle) as [Hall HQ].
    split; [exact Hall|]. intros u Hu. rewrite Hu in HQ. exact HQ.
  - intros tensor_add tensor_div train_set train_loader val_loader device o.
    destruct (safe_sound advance cycle_allowed h _ _ _ w
                (script_vit_cycle tensor_add tensor_div train_set train_loader
                   val_loader device)) as [Hall HQ].
    split; [exact Hall|]. intros g Hg. unfold o in Hg. rewrite Hg in HQ. exact HQ.
Qed.

(** The sample run of Script 1 makes 100 optimiser steps, one per epoch,
    each after one [zero_grad] and one [backward]. *)
Definition is_call_of (f0 : fn -> bool) (ev : event) : bool :=
  match ev with
  | EvCall _ f _ _ => f0 f
  | _ => false
  end.

Example optimiser_steps_of_sample_run :
  let tr := calls (run Samples.one_batch_handler OddNumbers.script tt) in
  map (fun f0 => length (filter (is_call_of f0) tr))
      [fun f => match f with Optimizer_zero_grad => true | _ => false end;
       fun f => match f with Tensor_backward => true | _ => false end;
       fun f => match f with clip_grad_norm_ => true | _ => false end;
       fun f => match f with Optimizer_step => true | _ => false end]
  = [100; 100; 100; 100]%nat /\
  cycle_after tr = (Idle, 0%nat).
Proof. vm_compute. split; reflexivity. Qed.

End Cycle.

(** * The checkpoint a run loads *)

Module Loads.
Import Py Protocol.

(** The command line parsed so far, and the latest checkpoint saved. *)
Definition loads : Type := (option Namespace * option pyval)%type.

(** What a successful [parse_args] returned. *)
Definition parsed (ev : event) : option Namespace :=
  match ev with
  | EvCall r f _ res =>
      match r return result (rdenote r) -> option Namespace with
      | RArgs => fun res => match f, res with
                            | parse_args, Ok ns => Some ns
                            | _, _ => None
                            end
      | _ => fun _ => None
      end res
  | _ => None
  end.

(** The file a call of [torch.load] is given. *)
Definition loaded (ev : event) : option pyval :=
  match ev with
  | EvCall _ torch_load [name] _ => Some name
  | _ => None
  end.

Definition record (s : loads) (ev : event) : loads :=
  (match parsed ev with Some ns => Some ns | None => fst s end,
   match saved_name ev with Some name => Some name | None => snd s end).

(** The path given on the command line: [--test_model] if present, else
    [--train_model], else [None]. *)
Definition cli_path (ns : Namespace) : pyval :=
  match test_model ns, train_model ns with
  | Some path, _ => PStr path
  | None, Some path => PStr path
  | None, None => PNone
  end.

(** The file to load: the latest checkpoint saved in this run, or the path of
    the command line while none has been saved. *)
Definition expected (s : loads) : pyval :=
  match s with
  | (_, Some name) => name
  | (Some ns, None) => cli_path ns
  | (None, None) => PNone
  end.

Definition load_allowed (s : loads) (ev : event) : Prop :=
  forall name, loaded ev = Some name -> name = expected s.

Definition loads_after (tr : trace) : loads := fold_left record tr (None, None).

Ltac load_check :=
  let E := fresh "E" in
  intros ? E;
  first [discriminate E | inversion E; subst; first [reflexivity | assumption]].

Ltac load_step := safe_step_by ltac:(load_check).

Lemma train_loads (model criterion optimizer loader : obj) (s : loads) :
  safe record load_allowed (OddNumbers.train model criterion optimizer loader)
    s (ends_in s).
Proof.
  destruct s as [ns sv].
  unfold OddNumbers.train, OddNumbers.num_div. do 4 load_step.
  safe_part (safe_for_each_inv record load_allowed _ (fun s => s = (ns, sv))).
  - repeat load_step.
  - intros ? ? ? _ ->. unfold OddNumbers.train_batch. repeat load_step.
  - reflexivity.
Qed.

Lemma validation_loads (model criterion loader : obj) (s : loads) :
  safe record load_allowed (OddNumbers.validation model criterion loader)
    s (ends_in s).
Proof.
  destruct s as [ns sv].
  unfold OddNumbers.validation, OddNumbers.num_div. do 4 load_step.
  eapply safe_mono with (Q := ends_in (ns, sv)).
  { intros [? | ?] [? ?] ?; cbn [ends_in ends_with] in *;
      (split; [load_check|]); cbn [then_safe]; [| exact I].
    inversion H; subst. repeat load_step. }
  load_step. load_step.
  apply (safe_for_each_inv record load_allowed); [| reflexivity].
  intros ? ? ? _ ->. unfold OddNumbers.validation_batch. repeat load_step.
Qed.

Lemma test_loads (model : obj) (max_len test_times : nat) (s : loads) :
  safe record load_allowed (OddNumbers.test model max_len test_times)
    s (ends_in s).
Proof.
  destruct s as [ns sv].
  unfold OddNumbers.test. do 5 load_step.
  eapply safe_mono with (Q := ends_in (ns, sv)).
  { intros [? | ?] [? ?] ?; cbn [ends_in ends_with] in *;
      (split; [load_check|]); [| exact I].
    inversion H; subst. reflexivity. }
  apply (safe_for_each_inv record load_allowed); [| reflexivity].
  intros i [] s _ ->. unfold OddNumbers.test_once. do 8 load_step.
  safe_part (safe_for_each_inv record load_allowed _ (fun s => s = (ns, sv))).
  - repeat load_step.
  - intros ? ? ? _ ->. unfold OddNumbers.decode_step. repeat load_step.
  - reflexivity.
Qed.

(** The epoch loop keeps [model_name] equal to the file to load. *)
Lemma training_loop_loads (model criterion optimizer train_loader val_loader : obj)
    (model_name : pyval) (ns : Namespace) :
  model_name = cli_path ns ->
  safe record load_allowed
    (OddNumbers.training_loop model criterion optimizer train_loader val_loader
       model_name) (Some ns, None)
    (fun res s => match res with
                  | Ok st => fst s = Some ns /\ snd st = expected s
                  | Raise _ => True
                  end).
Proof.
  intros Hname. unfold OddNumbers.training_loop.
  apply (safe_for_each record load_allowed _
           (fun s st => fst s = Some ns /\ snd st = expected s)
           (fun _ _ => True));
    [| split; [reflexivity | exact Hname]].
  intros i [best name] [ns' sv] _ [Hns Hst]. cbn [fst snd] in Hns, Hst. subst ns'.
  unfold OddNumbers.epoch_body.
  safe_part (train_loads _ _ _ _ _).
  safe_part (validation_loads _ _ _ _).
  repeat load_step; cbn [fst snd]; split; first [reflexivity | assumption].
Qed.

Lemma main_loads (model_name : pyval) (hidden nlayers : Z) (ns : Namespace) :
  model_name = cli_path ns ->
  safe record load_allowed (OddNumbers.main model_name hidden nlayers)
    (Some ns, None)
    (fun res s => match res with
                  | Ok name => fst s = Some ns /\ name = expected s
                  | Raise _ => True
                  end).
Proof.
  intros Hname. unfold OddNumbers.main. do 4 load_step.
  safe_part (safe_int_of_float record load_allowed).
  repeat load_step;
    (apply safe_bind; eapply safe_mono;
     [| match goal with
        | Hn : _ = cli_path ns |- _ =>
            exact (training_loop_loads _ _ _ _ _ _ ns Hn)
        end];
     intros [[? ?] | ?] ? HQ; cbn [then_safe]; [| exact I];
     load_step; exact HQ).
Qed.

Lemma load_and_test_loads (model_name : pyval) (hidden nlayers : Z) (s : loads) :
  model_name = expected s ->
  safe record load_allowed (OddNumbers.load_and_test model_name hidden nlayers)
    s (fun _ _ => True).
Proof.
  destruct s as [ns sv]. intros Hname.
  unfold OddNumbers.load_and_test. do 6 load_step.
  eapply safe_mono; [| apply test_loads]. intros; exact I.
Qed.

Lemma script_loads :
  safe record load_allowed OddNumbers.script (None, None) (fun _ _ => True).
Proof.
  unfold OddNumbers.script, OddNumbers.parse_cli. do 8 load_step.
  match goal with |- context [test_model ?x] => rename x into ns end.
  destruct (test_model ns) as [path |] eqn:Et.
  - cbn [bind]. apply load_and_test_loads.
    cbn [record parsed saved_name fst snd expected]. unfold cli_path.
    rewrite Et. reflexivity.
  - assert (Hmain : forall name, name = cli_path ns ->
              safe record load_allowed
                (bind (OddNumbers.main name 128 2)
                      (fun model_name => OddNumbers.load_and_test model_name 128 2))
                (Some ns, None) (fun _ _ => True)).
    { intros name Hname. apply safe_bind.
      eapply safe_mono; [| apply (main_loads _ _ _ ns Hname)].
      intros [name' | ?] s HQ; cbn [then_safe]; [| exact I].
      apply load_and_test_loads. exact (proj2 HQ). }
    destruct (train_model ns) as [path |] eqn:Etr;
      apply Hmain; unfold cli_path; rewrite Et, Etr; reflexivity.
Qed.

(** X6. Every [torch.load] of Script 1 is given the latest checkpoint the run
    has saved so far or, while it has saved none, the path of the command
    line ([--test_model] before [--train_model]) or [None] when no path was
    given. So after training the model that is tested is the one from the
    last checkpoint of that training, and a training that never saved ends
    in loading its own starting point, which is [None] without
    [--train_model]. *)
Theorem loads_latest_checkpoint {W} (h : handler W) (w : W) :
  forall pre ev post name,
    calls (run h OddNumbers.script w) = pre ++ ev :: post ->
    loaded ev = Some name ->
    name = expected (loads_after pre).
Proof.
  intros pre ev post name E Hl.
  exact (proj1 (safe_sound record load_allowed h _ _ _ w script_loads)
           pre ev post E name Hl).
Qed.

(** Asked to test ["m.pt"], the script loads that file: it is the sixth
    event of the run. *)
Lemma loads_latest_checkpoint_witness :
  PStr "m.pt" =
  expected
    (loads_after
       (firstn 5 (calls (run Scripts.missing_file_handler OddNumbers.script tt)))).
Proof.
  apply (loads_latest_checkpoint Scripts.missing_file_handler tt
           (firstn 5 (calls (run Scripts.missing_file_handler OddNumbers.script tt)))
           (EvCall RObj torch_load [PStr "m.pt"] (Raise (FrameworkError 2)))
           [] (PStr "m.pt")); reflexivity.
Defined.

(** A run without command-line paths whose validation losses are 50, 30, 35
    and then 20 saves at 30 and at 20, and loads the checkpoint of loss 20
    before testing. *)
Example last_checkpoint_is_tested :
  let tr := calls (run (Scripts.replay_handler 20) OddNumbers.script
                     [1; 50; 1; 30; 1; 35]%float) in
  select saved_name tr = [PFormat "model/model_{0:.5f}.pt" [PFloat 30];
                          PFormat "model/model_{0:.5f}.pt" [PFloat 20]] /\
  select loaded tr = [PFormat "model/model_{0:.5f}.pt" [PFloat 20]].
Proof. vm_compute. split; reflexivity. Qed.

(** When the validation loss is 50 in every epoch nothing is saved, and
    without [--train_model] the script ends up calling [load(None)]. *)
Example no_checkpoint_loads_none :
  let tr := calls (run (Scripts.replay_handler 50) OddNumbers.script []) in
  select saved_name tr = [] /\ select loaded tr = [PNone].
Proof. vm_compute. split; reflexivity. Qed.

End Loads.

(** * A training loader without batches *)

Module EmptyLoader.
Import Py Protocol.

(** The batches a successful [iter(loader)] returned. *)
Definition iterated (ev : event) : option (list (obj * obj)) :=
  match ev with
  | EvCall r f _ res =>
      match r return result (rdenote r) -> option (list (obj * obj)) with
      | RBatches => fun res => match f, res with
                               | DataLoader_iter, Ok b => Some b
                               | _, _ => None
                               end
      | _ => fun _ => None
      end res
  | _ => None
  end.

(** Whether a call has failed, and the batches of the first loader that was
    iterated. *)
Definition seen : Type := (bool * option (list (obj * obj)))%type.

Definition note (s : seen) (ev : event) : seen :=
  (match failure ev with Some _ => true | None => fst s end,
   match snd s with Some b => Some b | None => iterated ev end).

Definition any_event (s : seen) (ev : event) : Prop := True.

Lemma note_failed (tr : trace) :
  forall s, fst (fold_left note tr s) = false ->
            fst s = false /\ first_failure tr = None.
Proof.
  induction tr as [| ev tr IH]; intros s H; simpl in *.
  - split; [exact H | reflexivity].
  - destruct (IH _ H) as [Hs Hf]. unfold note in Hs. cbn [fst] in Hs.
    destruct (failure ev); [discriminate Hs|]. split; assumption.
Qed.

Lemma note_no_failure (tr : trace) :
  forall s, fst s = false -> first_failure tr = None ->
            fst (fold_left note tr s) = false.
Proof.
  induction tr as [| ev tr IH]; intros s Hs Hf; simpl in *.
  - exact Hs.
  - destruct (failure ev) eqn:E; [discriminate Hf|].
    apply IH; [| exact Hf]. unfold note. cbn [fst]. rewrite E. exact Hs.
Qed.

Lemma note_first_loader (tr : trace) :
  forall s, snd (fold_left note tr s) =
            match snd s with
            | Some b => Some b
            | None => hd_error (select iterated tr)
            end.
Proof.
  induction tr as [| ev tr IH]; intros s; simpl.
  - destruct (snd s); reflexivity.
  - rewrite IH. unfold note. cbn [snd].
    destruct (snd s) as [b |]; [reflexivity|].
    fold (select iterated tr).
    destruct (iterated ev); reflexivity.
Qed.

(** Once a call has failed or the first loader had a batch, it stays so. *)
Definition settled (s : seen) : Prop :=
  fst s = true \/ exists b bs, snd s = Some (b :: bs).

Lemma settled_note (s : seen) (ev : event) : settled s -> settled (note s ev).
Proof.
  intros [Hf | (b & bs & Hb)]; unfold note.
  - left. cbn [fst]. rewrite Hf. destruct (failure ev); reflexivity.
  - right. exists b, bs. cbn [snd]. rewrite Hb. reflexivity.
Qed.

Lemma safe_settled {A} (p : prog A) :
  forall s, settled s -> safe note any_event p s (fun _ s' => settled s').
Proof.
  induction p as [A a | A e | A r f args k IH | A X body IHbody k IH];
    intros s Hs; simpl.
  - exact Hs.
  - exact Hs.
  - intros res. split; [exact I|].
    destruct res as [x | e]; [apply IH|]; apply settled_note; exact Hs.
  - split; [exact I|].
    eapply safe_mono; [| apply IHbody; apply settled_note; exact Hs].
    intros res s2 H2. split; [exact I|].
    destruct res as [x | e]; [apply IH|]; apply settled_note; exact H2.
Qed.

(** A run that had no failed call and whose first loader had no batch ends
    with NameError for [loss], or for [i] when [i] was not bound either. *)
Definition stops_at_loss {A} (i0 : option nat) (res : result A) (s : seen) : Prop :=
  fst s = false -> snd s = Some [] ->
  res = Raise (NameError "loss") \/ (i0 = None /\ res = Raise (NameError "i")).

Lemma settled_stops {A} (i0 : option nat) (res : result A) (s : seen) :
  settled s -> stops_at_loss i0 res s.
Proof.
  intros [Hf | (b & bs & Hb)] H1 H2; [congruence|].
  rewrite Hb in H2. discriminate H2.
Qed.

Ltac note_step := safe_step_by ltac:(exact I).

(** Closes the case of a failed call. *)
Ltac call_failed :=
  first [ left; reflexivity
        | let H := fresh "H" in intros H; discriminate H ].

Section Script2.

Variable tensor_add : float -> float -> float.
Variable tensor_div : float -> Z -> float.

Lemma validation_average_empty (model loss_fn val_loader device : obj)
    (g : MNIST.globals) :
  safe note any_event
    (MNIST.validation_average tensor_add tensor_div model loss_fn val_loader
       device g) (false, Some [])
    (fun res s => match res with
                  | Ok _ => s = (false, Some [])
                  | Raise e => fst s = true \/
                               (MNIST.g_i g = None /\ e = NameError "i")
                  end).
Proof.
  unfold MNIST.validation_average. note_step. note_step; [| call_failed].
  apply safe_bind. apply safe_no_grad; [exact I|].
  eapply safe_mono
    with (Q := fun res s => match res with
                            | Ok st => s = (false, Some []) /\
                                       (fst st = None -> MNIST.g_i g = None)
                            | Raise _ => fst s = true
                            end).
  { intros [[i running] | e] [f b] H; (split; [exact I|]); cbn [then_safe].
    - destruct H as [H Hi]. inversion H; subst. cbn [fst] in Hi.
      destruct i as [i' |].
      + unfold MNIST.s_div.
        destruct running;
          try (destruct (Z.of_nat i' + 1 =? 0)%Z eqn:E;
               [apply Z.eqb_eq in E; lia|]);
          repeat note_step.
      + cbn [safe]. right. split; [apply Hi; reflexivity | reflexivity].
    - left. cbn [fst] in H. subst f. reflexivity. }
  note_step. note_step.
  apply (safe_for_each note any_event _
           (fun s st => s = (false, Some []) /\
                        (fst st = None -> MNIST.g_i g = None))
           (fun _ s => fst s = true));
    [| split; [reflexivity | intros H; exact H]].
  intros [i [vin vlab]] [i1 running] s _ [-> Hi].
  unfold MNIST.validation_batch.
  repeat note_step; try reflexivity.
  split; [reflexivity | intros H; discriminate H].
Qed.

Lemma epoch_body_empty (model loss_fn model_optimizer model_scheduler
                          train_loader val_loader device : obj)
    (epoch : nat) (g : MNIST.globals) :
  MNIST.g_loss g = None ->
  safe note any_event
    (MNIST.epoch_body tensor_add tensor_div model loss_fn model_optimizer
       model_scheduler train_loader val_loader device epoch g) (false, None)
    (fun res s => match res with
                  | Ok _ => settled s
                  | Raise e => stops_at_loss (A := MNIST.globals) (MNIST.g_i g)
                                 (Raise e) s
                  end).
Proof.
  intros Hloss. unfold MNIST.epoch_body.
  note_step. note_step; [| call_failed].
  note_step. note_step; [| call_failed].
  match goal with
  | |- context [for_each ?batches _ _] => destruct batches as [| b bs]
  end.
  - cbn [for_each bind].
    note_step. note_step; [| call_failed].
    apply safe_bind.
    eapply safe_mono; [| apply validation_average_empty].
    intros [[i avg] | e] s H; cbn [then_safe].
    + subst s. cbn [MNIST.g_loss]. rewrite Hloss. cbn [bind safe].
      intros _ _. left. reflexivity.
    + intros Hf _. destruct H as [H | [Hi ->]]; [congruence|].
      right. split; [exact Hi | reflexivity].
  - eapply safe_mono;
      [| apply safe_settled; right; exists b, bs; reflexivity].
    intros [g' | e] s H; [exact H | apply settled_stops; exact H].
Qed.

Lemma training_loop_empty (model loss_fn model_optimizer model_scheduler
                             train_loader val_loader device : obj)
    (i0 : option nat) :
  safe note any_event
    (MNIST.training_loop tensor_add tensor_div model loss_fn model_optimizer
       model_scheduler train_loader val_loader device i0) (false, None)
    (stops_at_loss i0).
Proof.
  unfold MNIST.training_loop.
  change (range MNIST.epochs) with (0 :: seq 1 19). cbn [for_each].
  apply safe_bind.
  eapply safe_mono; [| apply epoch_body_empty; reflexivity].
  intros [g' | e] s H; cbn [then_safe].
  - eapply safe_mono; [| apply safe_settled; exact H].
    intros res s' H'. apply settled_stops. exact H'.
  - exact H.
Qed.

End Script2.

(** X7. Script 2's training loop started while [loss] is unbound: when no
    framework call fails and the first loader the loop iterates, the training
    loader of the first epoch, yields no batch, the loop stops in that epoch
    with NameError for the name [loss], at the line that prints the losses
    after the validation pass; if in addition the name [i] is unbound and the
    validation loader is empty, it stops one line earlier with NameError for
    [i]. *)
Theorem empty_train_loader_stops {W} (h : handler W) (w : W)
    (tensor_add : float -> float -> float) (tensor_div : float -> Z -> float)
    (model loss_fn model_optimizer model_scheduler train_loader val_loader
       device : obj) (i0 : option nat) :
  let o := run h (MNIST.training_loop tensor_add tensor_div model loss_fn
                    model_optimizer model_scheduler train_loader val_loader
                    device i0) w in
  first_failure (calls o) = None ->
  hd_error (select iterated (calls o)) = Some [] ->
  outcome o = Raise (NameError "loss") \/
  (i0 = None /\ outcome o = Raise (NameError "i")).
Proof.
  intros o Hnf Hfirst.
  destruct (safe_sound note any_event h _ _ _ w
              (training_loop_empty tensor_add tensor_div model loss_fn
                 model_optimizer model_scheduler train_loader val_loader
                 device i0)) as [_ HQ].
  apply HQ.
  - apply note_no_failure; [reflexivity | exact Hnf].
  - rewrite note_first_loader. exact Hfirst.
Qed.

Lemma empty_train_loader_stops_witness :
  outcome (run plain_handler
             (MNIST.training_loop Scripts.f32_add Scripts.f32_div 0 0 0 0 0 0 0
                (Some 3)) tt) = Raise (NameError "loss") \/
  (Some 3 = None /\
   outcome (run plain_handler
              (MNIST.training_loop Scripts.f32_add Scripts.f32_div 0 0 0 0 0 0 0
                 (Some 3)) tt) = Raise (NameError "i")).
Proof.
  apply (empty_train_loader_stops plain_handler tt Scripts.f32_add Scripts.f32_div
           0 0 0 0 0 0 0 (Some 3)); reflexivity.
Defined.

End EmptyLoader.

(** * A validation loader without batches *)

Module EmptyValidation.
Import Py Protocol.

(** Whether a call has failed, and the batches of the loaders iterated so
    far, in order. *)
Definition seen : Type := (bool * list (list (obj * obj)))%type.

Definition note (s : seen) (ev : event) : seen :=
  (match failure ev with Some _ => true | None => fst s end,
   match EmptyLoader.iterated ev with Some b => snd s ++ [b] | None => snd s end).

Definition any_event (s : seen) (ev : event) : Prop := True.

(** The first loader had batches and the second had none. *)
Definition second_empty (l : list (list (obj * obj))) : Prop :=
  exists b bs rest, l = (b :: bs) :: [] :: rest.

(** A call has failed, or the first two loaders are known and are not as in
    [second_empty]. *)
Definition other (s : seen) : Prop :=
  fst s = true \/
  (exists rest, snd s = [] :: rest) \/
  (exists x v vs rest, snd s = x :: (v :: vs) :: rest).

Lemma other_note (s : seen) (ev : event) : other s -> other (note s ev).
Proof.
  intros [Hf | [(rest & Hs) | (x & v & vs & rest & Hs)]]; unfold note.
  - left. cbn [fst]. rewrite Hf. destruct (failure ev); reflexivity.
  - right. left. cbn [snd]. rewrite Hs.
    destruct (EmptyLoader.iterated ev); eexists; simpl; reflexivity.
  - right. right. cbn [snd]. rewrite Hs.
    destruct (EmptyLoader.iterated ev); do 4 eexists; simpl; reflexivity.
Qed.

Lemma any_event_ok (s : seen) (ev : event) : any_event s ev.
Proof. exact I. Qed.

Lemma other_not_second_empty (s : seen) :
  other s -> fst s = false -> second_empty (snd s) -> False.
Proof.
  intros [Hf | [(rest & Hs) | (x & v & vs & rest & Hs)]] Hnf (b & bs & r & E).
  - congruence.
  - rewrite Hs in E. discriminate E.
  - rewrite Hs in E. discriminate E.
Qed.

Lemma noted_no_failure (tr : trace) :
  forall s, fst s = false -> first_failure tr = None ->
            fst (fold_left note tr s) = false.
Proof.
  induction tr as [| ev tr IH]; intros s Hs Hf; simpl in *.
  - exact Hs.
  - destruct (failure ev) eqn:E; [discriminate Hf|].
    apply IH; [| exact Hf]. unfold note. cbn [fst]. rewrite E. exact Hs.
Qed.

Lemma note_loaders (tr : trace) :
  forall s, snd (fold_left note tr s) = snd s ++ select EmptyLoader.iterated tr.
Proof.
  induction tr as [| ev tr IH]; intros s; simpl.
  - rewrite app_nil_r. reflexivity.
  - rewrite IH. unfold note. cbn [snd]. fold (select EmptyLoader.iterated tr).
    destruct (EmptyLoader.iterated ev); [rewrite <- app_assoc|]; reflexivity.
Qed.

(** A run without a failed call whose first loader had batches and whose
    second had none ends with AttributeError for [item], or with NameError
    for [i] when [i] was not bound. *)
Definition stops_at_item {A} (i0 : option nat) (res : result A) (s : seen) : Prop :=
  fst s = false -> second_empty (snd s) ->
  res = Raise (AttributeError "item") \/
  (i0 = None /\ res = Raise (NameError "i")).

Lemma absorbs_stops {A} (i0 : option nat) :
  absorbs other (stops_at_item (A := A) i0).
Proof.
  intros res s Hs Hnf Hse. destruct (other_not_second_empty s Hs Hnf Hse).
Qed.

Ltac note_step := safe_step_by ltac:(exact I).

(** Closes a goal about a state that cannot become [second_empty]. *)
Ltac absorbed :=
  apply (safe_absorbed note any_event other other_note any_event_ok);
  [ repeat first [ apply (absorbs_then note any_event other other_note any_event_ok)
                 | apply (absorbs_exit note any_event other other_note any_event_ok) ];
    apply absorbs_stops
  | ].

(** Closes the case of a failed call. *)
Ltac failed :=
  cbn [then_safe];
  repeat (split; [exact I|]);
  first [ reflexivity
        | let H := fresh "H" in intros H; discriminate H ].

(** One step; the case of a failed call is closed at once. *)
Ltac adv :=
  match goal with
  | |- safe _ _ (call _ _ _) _ _ =>
      apply safe_call; intros [? | ?]; (split; [exact I|]); [cbn [then_safe] | failed]
  | |- _ => note_step
  end.

Section Script2.

Variable tensor_add : float -> float -> float.
Variable tensor_div : float -> Z -> float.

Lemma training_loop_val_empty (model loss_fn model_optimizer model_scheduler
                                 train_loader val_loader device : obj)
    (i0 : option nat) :
  safe note any_event
    (MNIST.training_loop tensor_add tensor_div model loss_fn model_optimizer
       model_scheduler train_loader val_loader device i0) (false, [])
    (stops_at_item i0).
Proof.
  unfold MNIST.training_loop.
  change (range MNIST.epochs) with (0 :: seq 1 19). cbn [for_each].
  apply safe_bind. unfold MNIST.epoch_body at 1.
  do 4 adv.
  match goal with
  | |- context [for_each ?batches (MNIST.train_batch _ _ _ _) _] =>
      destruct batches as [| b bs]
  end.
  { absorbed. right. left. eexists. reflexivity. }
  cbn [for_each]. apply safe_bind. apply safe_bind.
  unfold MNIST.train_batch at 1. destruct b as [imgs labels].
  repeat adv.
  match goal with
  | |- safe _ _ _ ?s _ => change s with (false, [(imgs, labels) :: bs])
  end.
  eapply safe_mono;
    [| apply (safe_for_each note any_event _
                (fun s st => s = (false, [(imgs, labels) :: bs]) /\
                             MNIST.g_loss st <> None /\ MNIST.g_i st = i0)
                (fun _ s => fst s = true))].
  3:{ split; [reflexivity|]. split; [discriminate | reflexivity]. }
  2:{ intros [im lb] st s _ (-> & Hl & Hi). unfold MNIST.train_batch.
      repeat adv. split; [reflexivity|]. split; [discriminate | exact Hi]. }
  intros [g | e] s H; cbn [then_safe].
  2:{ intros Hf. congruence. }
  destruct H as (-> & Hl & Hi).
  do 2 adv.
  apply safe_bind. unfold MNIST.validation_average.
  do 3 adv. apply safe_no_grad; [exact I|].
  do 2 adv.
  match goal with
  | |- context [for_each (enumerate ?vbatches) _ _] =>
      destruct vbatches as [| v vs]
  end.
  2:{ absorbed. right. right. do 4 eexists. reflexivity. }
  cbn [enumerate length seq combine for_each safe].
  split; [exact I|]. cbn [then_safe]. rewrite Hi.
  destruct i0 as [k |].
  - unfold MNIST.s_div.
    destruct (Z.of_nat k + 1 =? 0)%Z eqn:E; [apply Z.eqb_eq in E; lia|].
    cbn [bind safe then_safe MNIST.g_loss].
    destruct (MNIST.g_loss g) as [loss |]; [| congruence].
    do 2 adv.
    unfold MNIST.s_item. cbn [bind safe then_safe].
    intros _ _. left. reflexivity.
  - cbn [safe then_safe]. intros _ _. right. split; reflexivity.
Qed.

End Script2.

(** X9. Script 2's training loop whose first epoch has training batches but
    no validation batch: when no framework call fails, the loop stops in
    that epoch with AttributeError for [item], raised by [avg_vloss.item()]
    on the Python float that [running_vloss / (i + 1)] is when no loss tensor
    was added; [i] then is the value bound before the loop, and if there is
    none the loop stops with NameError for [i] instead. *)
Theorem empty_val_loader_stops {W} (h : handler W) (w : W)
    (tensor_add : float -> float -> float) (tensor_div : float -> Z -> float)
    (model loss_fn model_optimizer model_scheduler train_loader val_loader
       device : obj) (i0 : option nat) :
  let o := run h (MNIST.training_loop tensor_add tensor_div model loss_fn
                    model_optimizer model_scheduler train_loader val_loader
                    device i0) w in
  first_failure (calls o) = None ->
  second_empty (select EmptyLoader.iterated (calls o)) ->
  outcome o = Raise (AttributeError "item") \/
  (i0 = None /\ outcome o = Raise (NameError "i")).
Proof.
  intros o Hnf Hse.
  destruct (safe_sound note any_event h _ _ _ w
              (training_loop_val_empty tensor_add tensor_div model loss_fn
                 model_optimizer model_scheduler train_loader val_loader
                 device i0)) as [_ HQ].
  apply HQ.
  - apply noted_no_failure; [reflexivity | exact Hnf].
  - rewrite note_loaders. exact Hse.
Qed.

Lemma empty_val_loader_stops_witness :
  outcome (run Scripts.empty_val_handler
             (MNIST.training_loop Scripts.f32_add Scripts.f32_div 0 0 0 0 0 2 0
                (Some 3)) tt) = Raise (AttributeError "item") \/
  (Some 3 = None /\
   outcome (run Scripts.empty_val_handler
              (MNIST.training_loop Scripts.f32_add Scripts.f32_div 0 0 0 0 0 2 0
                 (Some 3)) tt) = Raise (NameError "i")).
Proof.
  apply (empty_val_loader_stops Scripts.empty_val_handler tt
           Scripts.f32_add Scripts.f32_div 0 0 0 0 0 2 0 (Some 3));
    [reflexivity |].
  exists (0, 0), [], []. reflexivity.
Defined.

End EmptyValidation.

(** * The split into training and validation data *)

Module Split.
Import Py Protocol.

Local Open Scope Z_scope.

(** The answer of a successful [len(...)]. *)
Definition measured (ev : event) : option Z :=
  match ev with
  | EvCall r f _ res =>
      match r return result (rdenote r) -> option Z with
      | RInt => fun res => match f, res with
                           | builtin_len, Ok n => Some n
                           | _, _ => None
                           end
      | _ => fun _ => None
      end res
  | _ => None
  end.

(** The two lengths a call of [random_split] is given. *)
Definition split_lengths (ev : event) : option (Z * Z) :=
  match ev with
  | EvCall _ random_split [PObj _; PList [PInt a; PInt b]] _ => Some (a, b)
  | _ => None
  end.

(** The lengths measured so far, in order. *)
Definition measure (s : list Z) (ev : event) : list Z :=
  match measured ev with
  | Some n => s ++ [n]
  | None => s
  end.

(** Whether [int(n * 0.9)] is [9 * n / 10] rounded down. *)
Definition nine_tenths_at (n : Z) : bool :=
  match int_of_float (PrimFloat.mul (float_of_Z n) 0.9) with
  | Ret z => z =? 9 * n / 10
  | _ => false
  end.

(** The same for the [count] numbers from [n] on. *)
Fixpoint nine_tenths_from (count : nat) (n : Z) : bool :=
  match count with
  | O => true
  | S count' => nine_tenths_at n && nine_tenths_from count' (n + 1)
  end.

Lemma nine_tenths_from_spec (count : nat) :
  forall n m, nine_tenths_from count n = true ->
              n <= m < n + Z.of_nat count -> nine_tenths_at m = true.
Proof.
  induction count as [| count IH]; intros n m H Hm; [lia|].
  cbn [nine_tenths_from] in H. apply andb_true_iff in H. destruct H as [H0 H1].
  destruct (Z.eq_dec m n) as [-> | Hne]; [exact H0|].
  apply (IH (n + 1)); [exact H1 | lia].
Qed.

Lemma nine_tenths_to_5000 : nine_tenths_from (Z.to_nat 5001) 0 = true.
Proof. vm_compute. reflexivity. Qed.

Lemma nine_tenths (n : Z) :
  0 <= n <= 5000 ->
  int_of_float (PrimFloat.mul (float_of_Z n) 0.9) = Ret (9 * n / 10).
Proof.
  intros Hn.
  pose proof (nine_tenths_from_spec _ 0 n nine_tenths_to_5000) as H.
  assert (Hat : nine_tenths_at n = true) by (apply H; lia).
  clear H. unfold nine_tenths_at in Hat.
  destruct (int_of_float (PrimFloat.mul (float_of_Z n) 0.9)) as [z | | |].
  2, 3, 4: exfalso; clear - Hat; congruence.
  apply Z.eqb_eq in Hat. subst z. reflexivity.
Qed.

(** When both measurements of the dataset gave the same length [n] up to
    5000, the two lengths given to [random_split] are [int(n * 0.9)], which is
    [9 * n / 10] rounded down, and the rest. *)
Definition split_allowed (s : list Z) (ev : event) : Prop :=
  forall a b, split_lengths ev = Some (a, b) ->
  forall n, s = [n; n] -> 0 <= n <= 5000 ->
            a = 9 * n / 10 /\ b = n - 9 * n / 10.

Definition is_split (f : fn) : bool :=
  match f with random_split => true | _ => false end.

Lemma other_calls_allowed (s : list Z) (r : rty) (f : fn) (args : list pyval)
    (res : result (rdenote r)) :
  negb (is_split f) = true -> split_allowed s (EvCall r f args res).
Proof.
  intros Hf a b E. destruct f; try discriminate E. discriminate Hf.
Qed.

Lemma int_of_float_cases (f : float) :
  (exists z, int_of_float f = Ret z) \/ (exists e, int_of_float f = Throw e).
Proof.
  unfold int_of_float. destruct (Prim2SF f); eauto.
Qed.

Ltac split_step :=
  safe_step_by ltac:(apply other_calls_allowed; reflexivity).

Lemma main_split (model_name : pyval) (hidden nlayers : Z) :
  safe measure split_allowed (OddNumbers.main model_name hidden nlayers) []
    (fun _ _ => True).
Proof.
  unfold OddNumbers.main. do 4 split_step.
  match goal with
  | |- context [int_of_float ?f] =>
      destruct (int_of_float_cases f) as [[z E] | [e E]]; rewrite E
  end; cbn [bind]; [| exact I].
  do 2 split_step.
  apply safe_bind. apply safe_call. intros res. split.
  - intros x y Exy. inversion Exy; subst x y. clear Exy.
    intros n Hs Hn. cbn in Hs. inversion Hs; subst.
    rewrite (nine_tenths n Hn) in E. inversion E; subst z.
    split; reflexivity.
  - destruct res as [[train_set val_set] | e]; cbn [then_safe]; [| exact I].
    apply (safe_uses measure split_allowed (fun f => negb (is_split f))).
    + unfold OddNumbers.training_loop, OddNumbers.epoch_body, OddNumbers.train,
        OddNumbers.train_batch, OddNumbers.validation,
        OddNumbers.validation_batch, OddNumbers.num_div.
      uses_tac.
    + intros. apply other_calls_allowed. assumption.
    + intros s x y Exy. discriminate Exy.
    + intros s x y Exy. discriminate Exy.
Qed.

(** X8. [main] splits the dataset nine to one: when [len(dataset)] is [n]
    both times it is asked, [n] at most 5000, [random_split] is given the
    lengths [int(n * 0.9)], which is [9 * n / 10] rounded down, and
    [n - int(n * 0.9)]; the two parts are disjoint in size and add up to
    [n]. *)
Theorem main_splits_nine_to_one {W} (h : handler W) (w : W)
    (model_name : pyval) (hidden nlayers : Z)
    (pre post : trace) (ev : event) (a b n : Z) :
  calls (run h (OddNumbers.main model_name hidden nlayers) w) = pre ++ ev :: post ->
  split_lengths ev = Some (a, b) ->
  fold_left measure pre [] = [n; n] -> 0 <= n <= 5000 ->
  a = 9 * n / 10 /\ b = n - 9 * n / 10 /\ a + b = n /\ 0 <= a <= n.
Proof.
  intros E Hev Hpre Hn.
  destruct (proj1 (safe_sound measure split_allowed h _ _ _ w
                     (main_split model_name hidden nlayers))
              pre ev post E a b Hev n Hpre Hn) as [Ha Hb].
  split; [exact Ha|]. split; [exact Hb|].
  assert (0 <= 9 * n / 10 <= n).
  { split; [apply Z.div_pos; lia|].
    apply Z.div_le_upper_bound; lia. }
  lia.
Qed.

(** A framework whose dataset has the 4999 examples of Script 1 and whose
    data loaders cannot be started. *)
Definition dataset_handler : handler unit :=
  mkHandler
    (fun r f args w =>
       (match r as r0 return result (rdenote r0) with
        | RInt => match f with
                  | builtin_len => Ok 4999
                  | _ => Ok 0
                  end
        | RObj => match f with
                  | DataLoader => Raise (FrameworkError 1)
                  | _ => Ok 0%nat
                  end
        | r0 => Ok (default_answer r0)
        end, w))
    (fun w => w) (fun w => w).

Lemma main_splits_nine_to_one_witness :
  4499 = 9 * 4999 / 10 /\ 500 = 4999 - 9 * 4999 / 10 /\
  4499 + 500 = 4999 /\ 0 <= 4499 <= 4999.
Proof.
  apply (main_splits_nine_to_one dataset_handler tt PNone 64 1
           (firstn 3 (calls (run dataset_handler (OddNumbers.main PNone 64 1) tt)))
           (skipn 4 (calls (run dataset_handler (OddNumbers.main PNone 64 1) tt)))
           (EvCall RPair random_split
              [PObj 0%nat; PList [PInt 4499; PInt 500]] (Ok (0%nat, 0%nat)))
           4499 500 4999);
    [vm_compute; reflexivity | reflexivity | reflexivity | lia].
Defined.

(** The 4999 examples of Script 1 are split into 4499 for training and 500
    for validation. *)
Example split_of_4999 :
  select split_lengths
    (calls (run dataset_handler (OddNumbers.main PNone 64 1) tt))
  = [(4499, 500)].
Proof. vm_compute. reflexivity. Qed.

End Split.

(** * The files Script 2 writes *)

Module Files.
Import Py.





End Files.

(** * The learning-rate schedule of Script 2 *)

Module Schedule.
Import Py Protocol.

Definition is_scheduler_step (ev : event) : bool :=
  match ev with
  | EvCall _ Scheduler_step _ _ => true
  | _ => false
  end.

(** The function an event calls, with its arguments. *)
Definition called (ev : event) : option (fn * list pyval) :=
  match ev with
  | EvCall _ f args _ => Some (f, args)
  | _ => None
  end.

(** The number of scheduler steps so far. *)
Definition count (n : nat) (ev : event) : nat :=
  if is_scheduler_step ev then S n else n.

(** The scheduler is created with the milestones 100 and 150. *)
Definition milestones_ok (n : nat) (ev : event) : Prop :=
  forall args, called ev = Some (optim_MultiStepLR, args) ->
  exists optimizer,
    args = [PObj optimizer; PKw "milestones" (PList [PInt 100; PInt 150]);
            PKw "gamma" (PFloat 0.1)].

Lemma count_filter (tr : trace) :
  forall n, fold_left count tr n = n + length (filter is_scheduler_step tr).
Proof.
  induction tr as [| ev tr IH]; intros n; simpl; [lia|].
  rewrite IH. unfold count. destruct (is_scheduler_step ev); simpl; lia.
Qed.

Ltac ms_check :=
  let E := fresh "E" in
  intros ? E; first [discriminate E | inversion E; subst; eexists; reflexivity].

(** Closes the case of a failed call: the count is as it was. *)
Ltac failed :=
  cbn [then_safe];
  repeat (split; [ms_check|]);
  first [reflexivity | cbn; lia].

Ltac adv :=
  match goal with
  | |- safe _ _ (call _ _ _) _ _ =>
      apply safe_call; intros [? | ?]; (split; [ms_check|]);
      [cbn [then_safe] | failed]
  | |- _ => safe_step_by ltac:(ms_check)
  end.

Section Script2.

Variable tensor_add : float -> float -> float.
Variable tensor_div : float -> Z -> float.

(** One epoch makes at most one scheduler step. *)
Lemma epoch_body_count (model loss_fn model_optimizer model_scheduler
                          train_loader val_loader device : obj)
    (epoch : nat) (g : MNIST.globals) (n : nat) :
  safe count milestones_ok
    (MNIST.epoch_body tensor_add tensor_div model loss_fn model_optimizer
       model_scheduler train_loader val_loader device epoch g) n
    (fun _ n' => n' <= S n).
Proof.
  unfold MNIST.epoch_body. do 4 adv.
  apply safe_bind.
  eapply safe_mono;
    [| apply (safe_for_each count milestones_ok _ (fun s _ => s = n)
                (fun _ s => s = n))].
  3:{ reflexivity. }
  2:{ intros [imgs labels] st s _ ->. unfold MNIST.train_batch. repeat adv. }
  intros [g' | e] s H; cbn [then_safe]; [subst s | subst s; lia].
  do 2 adv.
  apply safe_bind. unfold MNIST.validation_average.
  do 3 adv. apply safe_no_grad; [ms_check|].
  do 2 adv.
  eapply safe_mono;
    [| apply (safe_for_each count milestones_ok _ (fun s _ => s = S n)
                (fun _ s => s = S n))].
  3:{ reflexivity. }
  2:{ intros [i [vin vlab]] [i1 running] s _ ->. unfold MNIST.validation_batch.
      repeat adv. }
  intros [[i running] | e] s H; subst s; (split; [ms_check|]);
    cbn [then_safe]; [| cbn; lia].
  destruct i as [i' |]; [| cbn; lia].
  unfold MNIST.s_div, MNIST.s_item.
  destruct running; repeat adv; cbn; lia.
Qed.

Lemma epochs_count (model loss_fn model_optimizer model_scheduler
                      train_loader val_loader device : obj) (l : list nat) :
  forall (g : MNIST.globals) (n : nat),
    safe count milestones_ok
      (for_each l
         (MNIST.epoch_body tensor_add tensor_div model loss_fn model_optimizer
            model_scheduler train_loader val_loader device) g) n
      (fun _ n' => n' <= n + length l).
Proof.
  induction l as [| k l IH]; intros g n; cbn [for_each length].
  - cbn [safe]. lia.
  - apply safe_bind. eapply safe_mono; [| apply epoch_body_count].
    intros [g' | e] n' H; cbn [then_safe]; [| lia].
    eapply safe_mono; [| apply IH]. intros ? n'' H'. cbn beta in H'. lia.
Qed.

Lemma visualize_patches_count (train_set : obj) :
  safe count milestones_ok (MNIST.visualize_patches train_set) 0
    (fun res n => match res with Ok _ => n = 0 | Raise _ => n <= 20 end).
Proof.
  unfold MNIST.visualize_patches, MNIST.img_to_patch.
  apply safe_bind.
  eapply safe_mono;
    [| apply (safe_for_each count milestones_ok _ (fun s _ => s = 0)
                (fun _ s => s = 0))].
  3:{ reflexivity. }
  2:{ intros ? ? ? _ ->. repeat adv. }
  intros [imgs | e] s H; cbn [then_safe]; subst s; [| lia].
  repeat adv;
    try (apply safe_bind;
         eapply safe_mono;
         [| apply (safe_for_each count milestones_ok _ (fun s _ => s = 0)
                     (fun _ s => s = 0))];
         [ intros [? | ?] s H; cbn [then_safe]; subst s; [repeat adv | lia]
         | intros ? ? ? _ ->; unfold MNIST.plot_patches;
           rewrite MNIST.nrow_value; repeat adv
         | reflexivity ]).
  all: cbn; lia.
Qed.

Lemma script_count (train_set train_loader val_loader device : obj) :
  safe count milestones_ok
    (MNIST.script tensor_add tensor_div train_set train_loader val_loader device)
    0 (fun _ n => n <= 20).
Proof.
  unfold MNIST.script. apply safe_bind.
  eapply safe_mono; [| apply visualize_patches_count].
  intros [i | e] n H; cbn [then_safe]; [subst n | exact H].
  unfold MNIST.training, MNIST.training_loop. repeat adv.
  apply (epochs_count _ _ _ _ _ _ _ (range MNIST.epochs) _ 0).
Qed.

End Script2.

(** X11. Script 2 steps its learning-rate scheduler at most 20 times, once
    per epoch, while the scheduler is created with the milestones 100 and
    150: the number of scheduler steps never reaches the first milestone. *)
Theorem scheduler_below_milestones {W} (h : handler W) (w : W)
    (tensor_add : float -> float -> float) (tensor_div : float -> Z -> float)
    (train_set train_loader val_loader device : obj) :
  let tr := calls (run h (MNIST.script tensor_add tensor_div train_set
                            train_loader val_loader device) w) in
  length (filter is_scheduler_step tr) <= 20 /\
  forall pre ev post args,
    tr = pre ++ ev :: post ->
    called ev = Some (optim_MultiStepLR, args) ->
    exists optimizer,
      args = [PObj optimizer; PKw "milestones" (PList [PInt 100; PInt 150]);
              PKw "gamma" (PFloat 0.1)].
Proof.
  destruct (safe_sound count milestones_ok h _ _ _ w
              (script_count tensor_add tensor_div train_set train_loader
                 val_loader device)) as [Hacc HQ].
  cbv zeta. split.
  - rewrite count_filter in HQ. exact HQ.
  - intros pre ev post args E Hc. exact (Hacc pre ev post E args Hc).
Qed.

(** On the sample framework the script runs through its 20 epochs and steps
    the scheduler 20 times. *)
Example twenty_scheduler_steps :
  let o := run Samples.one_batch_handler
             (MNIST.script Scripts.f32_add Scripts.f32_div 0 0 0 0) tt in
  length (filter is_scheduler_step (calls o)) = 20 /\
  first_failure (calls o) = None /\
  exists g, outcome o = Ok g.
Proof. vm_compute. repeat split. eexists. reflexivity. Qed.

End Schedule.
